(** * sip-mvp: financial time-series derivation and the ask endpoint

    Shallow embedding of
      - [src/lib/utils/formatters.ts]  (toNumber, currency helpers),
      - [src/lib/utils/financials.ts]  (calculateYoY, calculateCAGR,
                                        calculateCAGRFromMetrics),
      - [src/app/api/ask/route.ts]     (POST),
      - [src/lib/utils/csv.ts]         (convertToCSV, downloadCSV),
      - [src/app/api/financials/route.ts]  (GET),
      - [src/components/platform/metrics-table.tsx]  (the sort of the
                                        table and its download),
      - [src/components/platform/revenue-chart.tsx]  (the rows of the
                                        chart),
    together with the fragment of the ECMAScript library these files call.

    JavaScript numbers are IEEE 754 binary64 values: they are embedded as
    Rocq's primitive [float]s, whose [+ - * /] and comparisons are the
    IEEE ones.  JavaScript strings are sequences of UTF-16 code units. *)

From Stdlib Require Import ZArith NArith List Bool Lia String Ascii.
From Stdlib Require Import Floats.PrimFloat Floats.SpecFloat Floats.FloatOps.
From Stdlib Require Import Sorting.Sorted Sorting.Permutation.
From Stdlib Require DecimalPos Uint63.
From Stdlib Require Floats.FloatAxioms Floats.FloatLemmas.
From Stdlib Require Reals Lra.
From stdpp Require Import base option list gmap.

Set Warnings "-inexact-float".

(* ===================================================================== *)
(** * Part I.  The ECMAScript fragment used by the sources               *)
(* ===================================================================== *)

(** ** Strings *)

Definition jsstring : Type := list N.

(** An ASCII literal as a sequence of code units. *)
Definition js (s : string) : jsstring :=
  List.map N_of_ascii (list_ascii_of_string s).

Definition is_digit (c : N) : bool := (48 <=? c)%N && (c <=? 57)%N.

Definition digit_value (c : N) : Z := (Z.of_N c - 48)%Z.

Definition digits_value (ds : jsstring) : Z :=
  fold_left (fun acc c => (acc * 10 + digit_value c)%Z) ds 0%Z.

(** [span p s] splits [s] after its longest prefix satisfying [p]. *)
Fixpoint span (p : N -> bool) (s : jsstring) : jsstring * jsstring :=
  match s with
  | c :: s' =>
      if p c then let (a, b) := span p s' in (c :: a, b) else ([], s)
  | [] => ([], [])
  end.

Fixpoint starts_with (p s : jsstring) : bool :=
  match p, s with
  | [], _ => true
  | a :: p', b :: s' => (a =? b)%N && starts_with p' s'
  | _ :: _, [] => false
  end.

(** WhiteSpace and LineTerminator code points (ECMA-262, 12.2 and 12.3). *)
Definition is_white_space (c : N) : bool :=
  ((9 <=? c) && (c <=? 13) || (c =? 32) || (c =? 160) || (c =? 5760)
   || (8192 <=? c) && (c <=? 8202) || (c =? 8232) || (c =? 8233)
   || (c =? 8239) || (c =? 8287) || (c =? 12288) || (c =? 65279))%N.

Fixpoint trim_start (s : jsstring) : jsstring :=
  match s with
  | c :: s' => if is_white_space c then trim_start s' else s
  | [] => []
  end.

(** String.prototype.trim *)
Definition trim (s : jsstring) : jsstring :=
  rev (trim_start (rev (trim_start s))).

(** [value.replace(/,/g, "")] *)
Definition remove_commas (s : jsstring) : jsstring :=
  List.filter (fun c => negb (c =? 44)%N) s.

(** Decimal digits of a natural number, most significant first. *)
Fixpoint uint_digits (u : Decimal.uint) : jsstring :=
  match u with
  | Decimal.Nil => []
  | Decimal.D0 u => 48%N :: uint_digits u
  | Decimal.D1 u => 49%N :: uint_digits u
  | Decimal.D2 u => 50%N :: uint_digits u
  | Decimal.D3 u => 51%N :: uint_digits u
  | Decimal.D4 u => 52%N :: uint_digits u
  | Decimal.D5 u => 53%N :: uint_digits u
  | Decimal.D6 u => 54%N :: uint_digits u
  | Decimal.D7 u => 55%N :: uint_digits u
  | Decimal.D8 u => 56%N :: uint_digits u
  | Decimal.D9 u => 57%N :: uint_digits u
  end.

Definition decimal_of_N (n : N) : jsstring := uint_digits (N.to_uint n).

Definition decimal_of_Z (z : Z) : jsstring :=
  match z with
  | Zneg p => 45%N :: decimal_of_N (Npos p)
  | _ => decimal_of_N (Z.to_N z)
  end.

(** ** Numbers *)

Definition number : Type := float.

(** The Number value of an integer (round to nearest, ties to even). *)
Definition number_of_Z (z : Z) : number :=
  SF2Prim (binary_normalize prec emax z 0 false).

(** The Number value of the decimal [m * 10^e], [0 <= m], with sign [neg]:
    the correctly rounded binary64 value (ECMA-262, 6.1.6.1). *)
Definition decimal_to_number (neg : bool) (m e : Z) : number :=
  SF2Prim
    match m with
    | Z0 => S754_zero neg
    | Zpos p =>
        if (0 <=? e)%Z then binary_round prec emax neg (p * Z.to_pos (10 ^ e)) 0
        else SFdiv prec emax (S754_finite neg p 0)
                             (S754_finite false (Z.to_pos (10 ^ (- e))) 0)
    | Zneg _ => S754_nan
    end.

(** ExponentPart_opt of a StrDecimalLiteral: [e] or [E], an optional sign
    and at least one digit; an incomplete exponent is not part of the
    longest valid prefix. *)
Definition parse_exponent (s : jsstring) : Z :=
  match s with
  | c :: s1 =>
      if ((c =? 101) || (c =? 69))%N then
        let '(neg, s2) :=
          match s1 with
          | 43%N :: r => (false, r)
          | 45%N :: r => (true, r)
          | _ => (false, s1)
          end in
        let (ds, _) := span is_digit s2 in
        match ds with
        | [] => 0%Z
        | _ => if neg then (- digits_value ds)%Z else digits_value ds
        end
      else 0%Z
  | [] => 0%Z
  end.

(** parseFloat (ECMA-262, 19.2.4): leading white space is skipped, the
    longest prefix that is a StrDecimalLiteral is converted, and NaN is
    returned when there is none. *)
Definition parseFloat (string : jsstring) : number :=
  let s := trim_start string in
  let '(neg, s1) :=
    match s with
    | 43%N :: r => (false, r)
    | 45%N :: r => (true, r)
    | _ => (false, s)
    end in
  if starts_with (js "Infinity") s1 then
    (if neg then neg_infinity else infinity)
  else
    let (ip, s2) := span is_digit s1 in
    let '(fp, s3) :=
      match s2 with
      | 46%N :: r => span is_digit r
      | _ => ([], s2)
      end in
    match ip ++ fp with
    | [] => nan
    | ds =>
        decimal_to_number neg (digits_value ds)
          (parse_exponent s3 - Z.of_nat (length fp))
    end.

(** Integral Numbers, and the odd ones among them. *)
Definition is_integral (x : number) : bool :=
  match Prim2SF x with
  | S754_zero _ => true
  | S754_finite _ m e =>
      (0 <=? e)%Z || (Zpos m mod 2 ^ (- e) =? 0)%Z
  | _ => false
  end.

Definition is_odd_integral (x : number) : bool :=
  match Prim2SF x with
  | S754_finite _ m e =>
      if (0 <? e)%Z then false
      else (Zpos m mod 2 ^ (- e) =? 0)%Z && Z.odd (Zpos m / 2 ^ (- e))
  | _ => false
  end.

(** The integer part of a finite Number (0 for NaN and the infinities). *)
Definition truncate (x : number) : Z :=
  match Prim2SF x with
  | S754_finite s m e =>
      let a := if (0 <=? e)%Z then (Zpos m * 2 ^ e)%Z
               else (Zpos m / 2 ^ (- e))%Z in
      if s then (- a)%Z else a
  | _ => 0%Z
  end.

(** *** Math.pow

    ECMA-262 (6.1.6.1.3, Number::exponentiate) fixes the result on NaN,
    zeros, infinities and negative bases with a fractional exponent, and
    leaves the remaining case "implementation-approximated".  For that
    case [pow_approx] computes [exp (exponent * ln base)] in binary64
    with the usual range reductions; an engine may differ from it in the
    last bits, and no statement below depends on its digits. *)

Definition LN2 : number := 0x1.62e42fefa39efp-1%float.

(** [1/d + z2/(d+2) + z2^2/(d+4) + ...], [n] terms. *)
Fixpoint odd_series (z2 : number) (n : nat) (d : Z) : number :=
  match n with
  | O => 0%float
  | S n' => (1 / number_of_Z d + z2 * odd_series z2 n' (d + 2))%float
  end.

(** [1 + r/k * (1 + r/(k+1) * (...))], [n] factors. *)
Fixpoint exp_series (r : number) (n : nat) (k : Z) : number :=
  match n with
  | O => 1%float
  | S n' => (1 + r / number_of_Z k * exp_series r n' (k + 1))%float
  end.

(** Natural logarithm of a finite [x > 0]. *)
Definition ln_approx (x : number) : number :=
  let (m0, e0) := FloatOps.Z.frexp x in
  let '(m, e) := if (m0 <? 0x1.6a09e667f3bcdp-1)%float
                 then ((m0 * 2)%float, (e0 - 1)%Z) else (m0, e0) in
  let z := ((m - 1) / (m + 1))%float in
  (number_of_Z e * LN2 + 2 * z * odd_series (z * z) 14 1)%float.

(** Exponential of a finite [t]. *)
Definition exp_approx (t : number) : number :=
  let k := truncate (t / LN2)%float in
  let r := (t - number_of_Z k * LN2)%float in
  FloatOps.Z.ldexp (exp_series r 26 1) k.

Definition pow_approx (base exponent : number) : number :=
  let t := (exponent * ln_approx (abs base))%float in
  let p :=
    if is_infinity t then (if (t <? 0)%float then 0%float else infinity)
    else exp_approx t in
  if (base <? 0)%float && is_odd_integral exponent then (- p)%float else p.

Definition Math_pow (base exponent : number) : number :=
  if is_nan exponent then nan
  else if is_zero exponent then 1%float
  else if is_nan base then nan
  else if is_infinity base then
    if get_sign base then
      if (0 <? exponent)%float
      then (if is_odd_integral exponent then neg_infinity else infinity)
      else (if is_odd_integral exponent then neg_zero else zero)
    else (if (0 <? exponent)%float then infinity else zero)
  else if is_zero base then
    if get_sign base then
      if (0 <? exponent)%float
      then (if is_odd_integral exponent then neg_zero else zero)
      else (if is_odd_integral exponent then neg_infinity else infinity)
    else (if (0 <? exponent)%float then zero else infinity)
  else if is_infinity exponent then
    if (abs base =? 1)%float then nan
    else if xorb (1 <? abs base)%float (get_sign exponent) then infinity
    else zero
  else if (base <? 0)%float && negb (is_integral exponent) then nan
  else pow_approx base exponent.

(** ** Arrays *)

(** Array.prototype.sort with a comparator.  Since ES2019 the sort is
    stable, and for a consistent comparator the result is fully
    determined: the elements in ascending order, elements that compare
    equal keeping their relative order ([Array_sort_unique] below, for
    comparators that subtract integer keys).  Insertion from the right
    is one algorithm that computes it: [x] goes before the first element
    that does not compare below it. *)
Section ArraySort.
Context {A : Type} (compareFn : A -> A -> Z).

Fixpoint sort_insert (x : A) (l : list A) : list A :=
  match l with
  | [] => [x]
  | y :: l' =>
      if (compareFn x y <=? 0)%Z then x :: y :: l'
      else y :: sort_insert x l'
  end.

Fixpoint Array_sort (l : list A) : list A :=
  match l with
  | [] => []
  | x :: l' => sort_insert x (Array_sort l')
  end.
End ArraySort.

(** Array.prototype.find *)
Definition Array_find {A : Type} (p : A -> bool) (l : list A) : option A :=
  List.find p l.

(** ** Completions

    A computation either returns a value or raises a TypeError (reading
    a property of [undefined]). *)
Inductive result (A : Type) : Type :=
| Ok (a : A)
| Throw.
Arguments Ok {A} a.
Arguments Throw {A}.

#[export] Instance result_ret : MRet result := fun A a => Ok a.
#[export] Instance result_bind : MBind result :=
  fun A B f m => match m with Ok a => f a | Throw => Throw end.
#[export] Instance result_fmap : FMap result :=
  fun A B f m => match m with Ok a => Ok (f a) | Throw => Throw end.

(** [arr[i]] followed by a property read: a TypeError when [arr[i]] is
    [undefined]. *)
Definition at_index {A : Type} (arr : list A) (i : nat) : result A :=
  match arr !! i with
  | Some a => Ok a
  | None => Throw
  end.

(** Array.prototype.map with an (element, index) callback that may
    throw; [i] is the index of the head of [l]. *)
Fixpoint Array_map_from {A B : Type} (f : A -> nat -> result B)
    (i : nat) (l : list A) : result (list B) :=
  match l with
  | [] => Ok []
  | a :: l' =>
      b ← f a i; bs ← Array_map_from f (S i) l'; Ok (b :: bs)
  end.

Definition Array_map {A B : Type} (f : A -> nat -> result B)
    (l : list A) : result (list B) :=
  Array_map_from f 0 l.

(** ** Regular expressions

    The fragment of the pattern language used by [route.ts]: pattern
    characters, character classes, a greedy [+] on a class, sequencing,
    one capture group and the word-boundary assertion [\b].  Matching is
    the backtracking semantics of ECMA-262 (22.2.2) written with
    continuations: [rmatch r k st] tries [r] at the position of [st] and
    hands every way of matching it, longest first, to [k]. *)

Inductive regex : Type :=
| REmpty
| RChar (c : N)
| RClass (p : N -> bool)
| RPlus (p : N -> bool)
| RSeq (r1 r2 : regex)
| RGroup (r : regex)
| RWordBoundary.

(** The input around the current position ([consumed] holds what lies
    before it, nearest character first) and the capture of group 1. *)
Record mstate : Type := {
  consumed : jsstring;
  remaining : jsstring;
  group1 : option jsstring
}.

(** [A-Za-z0-9_] *)
Definition is_word_char (c : N) : bool :=
  ((97 <=? c) && (c <=? 122) || (65 <=? c) && (c <=? 90)
   || (48 <=? c) && (c <=? 57) || (c =? 95))%N.

(** Canonicalize (22.2.2.7.3) without the [u] flag.  Only its effect on
    comparisons with ASCII pattern characters matters here: a code unit
    above 127 never canonicalizes to an ASCII one. *)
Definition canonicalize (ignoreCase : bool) (c : N) : N :=
  if ignoreCase && (97 <=? c)%N && (c <=? 122)%N then (c - 32)%N else c.

Definition word_before (st : mstate) : bool :=
  match consumed st with c :: _ => is_word_char c | [] => false end.

Definition word_after (st : mstate) : bool :=
  match remaining st with c :: _ => is_word_char c | [] => false end.

(** The text between the positions of [st] and of a later state [st']. *)
Definition text_between (st st' : mstate) : jsstring :=
  rev (take (length (consumed st') - length (consumed st)) (consumed st')).

(** After a first character of the class: as many more as possible,
    giving one back at a time while the continuation fails. *)
Fixpoint star_loop (p : N -> bool) (k : mstate -> option mstate)
    (before after : jsstring) (g : option jsstring) : option mstate :=
  match after with
  | c :: rest =>
      if p c then
        match star_loop p k (c :: before) rest g with
        | Some r => Some r
        | None => k {| consumed := before; remaining := after; group1 := g |}
        end
      else k {| consumed := before; remaining := after; group1 := g |}
  | [] => k {| consumed := before; remaining := after; group1 := g |}
  end.

(** One character satisfying [p]. *)
Definition step_char (p : N -> bool) (k : mstate -> option mstate)
    (st : mstate) : option mstate :=
  match remaining st with
  | c :: rest =>
      if p c then k {| consumed := c :: consumed st; remaining := rest;
                       group1 := group1 st |}
      else None
  | [] => None
  end.

Fixpoint rmatch (ignoreCase : bool) (r : regex)
    (k : mstate -> option mstate) (st : mstate) : option mstate :=
  match r with
  | REmpty => k st
  | RChar c =>
      step_char
        (fun a => (canonicalize ignoreCase a =? canonicalize ignoreCase c)%N)
        k st
  | RClass p => step_char p k st
  | RPlus p =>
      step_char p
        (fun st' => star_loop p k (consumed st') (remaining st') (group1 st'))
        st
  | RSeq r1 r2 => rmatch ignoreCase r1 (rmatch ignoreCase r2 k) st
  | RGroup r =>
      rmatch ignoreCase r
        (fun st' => k {| consumed := consumed st'; remaining := remaining st';
                         group1 := Some (text_between st st') |})
        st
  | RWordBoundary =>
      if xorb (word_before st) (word_after st) then k st else None
  end.

(** The array returned by a successful match: [index], [match[0]] and
    [match[1]] ([None] when the group did not take part). *)
Record match_result : Type := {
  match_index : nat;
  match_0 : jsstring;
  match_1 : option jsstring
}.

(** RegExpBuiltinExec without the [g] and [y] flags: the first start
    position, from the left, at which the pattern matches. *)
Fixpoint exec_from (ignoreCase : bool) (r : regex)
    (before after : jsstring) : option match_result :=
  let st := {| consumed := before; remaining := after; group1 := None |} in
  match rmatch ignoreCase r Some st with
  | Some st' =>
      Some {| match_index := length before;
              match_0 := text_between st st';
              match_1 := group1 st' |}
  | None =>
      match after with
      | c :: rest => exec_from ignoreCase r (c :: before) rest
      | [] => None
      end
  end.

(** [string.match(regexp)] for a regexp without the [g] flag. *)
Definition String_match (ignoreCase : bool) (r : regex) (s : jsstring)
    : option match_result :=
  exec_from ignoreCase r [] s.

(** A run of pattern characters. *)
Definition literal (s : string) : regex :=
  fold_right (fun c r => RSeq (RChar c) r) REmpty (js s).

(** ** parseInt

    parseInt(string) with no radix (ECMA-262, 19.2.5): white space and a
    sign are skipped, a [0x] prefix selects radix 16, and the longest
    run of digits is converted; [None] stands for NaN.  The result is
    the mathematical integer, which is a Number exactly below 2^53. *)

Definition hex_value (c : N) : option Z :=
  if is_digit c then Some (Z.of_N c - 48)%Z
  else if ((97 <=? c) && (c <=? 102))%N then Some (Z.of_N c - 87)%Z
  else if ((65 <=? c) && (c <=? 70))%N then Some (Z.of_N c - 55)%Z
  else None.

Definition parseInt (string : jsstring) : option Z :=
  let s := trim_start string in
  let '(neg, s1) :=
    match s with
    | 43%N :: r => (false, r)
    | 45%N :: r => (true, r)
    | _ => (false, s)
    end in
  let '(radix, s2) :=
    match s1 with
    | 48%N :: x :: r =>
        if ((x =? 120) || (x =? 88))%N then (16%Z, r) else (10%Z, s1)
    | _ => (10%Z, s1)
    end in
  let valid c :=
    match hex_value c with Some v => (v <? radix)%Z | None => false end in
  let (ds, _) := span valid s2 in
  match ds with
  | [] => None
  | _ =>
      let v := fold_left
                 (fun acc c => (acc * radix + default 0 (hex_value c))%Z)
                 ds 0%Z in
      Some (if neg then (- v)%Z else v)
  end.

(** ** Numbers as text *)

(** The magnitude of a finite nonzero number as an exact fraction. *)
Definition magnitude (x : number) : option (Z * Z) :=
  match Prim2SF x with
  | S754_finite _ m e =>
      Some (if (0 <=? e)%Z then (Zpos m * 2 ^ e, 1)%Z
            else (Zpos m, 2 ^ (- e))%Z)
  | _ => None
  end.

(** The nearest integer to [num / den], the larger one on a tie. *)
Definition round_half_up (num den : Z) : Z := ((2 * num + den) / (2 * den))%Z.

(** The least [j >= 1] with [num * 10^j >= den], for [0 < num < den]. *)
Fixpoint scale_up (fuel : nat) (num den j : Z) : Z :=
  match fuel with
  | O => j
  | S fuel' =>
      if (den <=? num * 10)%Z then j
      else scale_up fuel' (num * 10) den (j + 1)
  end.

(** The [n] with [10^(n-1) <= num/den < 10^n]. *)
Definition decimal_exponent (num den : Z) : Z :=
  if (den <=? num)%Z
  then Z.of_nat (length (decimal_of_N (Z.to_N (num / den))))
  else (1 - scale_up 400 num den 1)%Z.

Definition round_trips (x : number) (c e : Z) : bool :=
  (0 <? c)%Z && (decimal_to_number false c e =? x)%float.

(** The [k]-digit decimals [c * 10^(n0-k)] next to [num/den] that
    convert back to [x]; of two, the closer one (the even one on a
    tie). *)
Definition shortest_at (x : number) (num den n0 k : Z) : option (Z * Z) :=
  let e := (n0 - k)%Z in
  let '(sn, sd) := if (0 <=? e)%Z then (num, den * 10 ^ e)%Z
                   else (num * 10 ^ (- e), den)%Z in
  let lo := (sn / sd)%Z in
  let hi := (lo + 1)%Z in
  match round_trips x lo e, round_trips x hi e with
  | true, true =>
      let d := (2 * sn - (2 * lo + 1) * sd)%Z in
      if (d <? 0)%Z then Some (lo, e)
      else if (0 <? d)%Z then Some (hi, e)
      else Some (if Z.even lo then lo else hi, e)
  | true, false => Some (lo, e)
  | false, true => Some (hi, e)
  | false, false => None
  end.

Fixpoint shortest_from (fuel : nat) (x : number) (num den n0 k : Z)
    : option (Z * Z) :=
  match fuel with
  | O => None
  | S fuel' =>
      match shortest_at x num den n0 k with
      | Some r => Some r
      | None => shortest_from fuel' x num den n0 (k + 1)
      end
  end.

Fixpoint strip_zeros (fuel : nat) (c e : Z) : Z * Z :=
  match fuel with
  | O => (c, e)
  | S fuel' =>
      if (c mod 10 =? 0)%Z then strip_zeros fuel' (c / 10) (e + 1)
      else (c, e)
  end.

(** For a finite [x > 0]: the digits of the shortest decimal that
    converts back to [x] and the [n] such that the decimal is
    [0.digits * 10^n] (the [s], [k] and [n] of Number::toString,
    ECMA-262 6.1.6.1.20; seventeen digits always suffice). *)
Definition shortest_decimal (x : number) : option (jsstring * Z) :=
  match magnitude x with
  | Some (num, den) =>
      match shortest_from 17 x num den (decimal_exponent num den) 1 with
      | Some (c, e) =>
          let (c', e') := strip_zeros 17 c e in
          let ds := decimal_of_N (Z.to_N c') in
          Some (ds, (Z.of_nat (length ds) + e')%Z)
      | None => None
      end
  | None => None
  end.

Definition zeros (n : nat) : jsstring := replicate n 48%N.

(** Number::toString, radix 10. *)
Definition Number_toString (x : number) : jsstring :=
  if is_nan x then js "NaN"
  else if is_zero x then js "0"
  else if is_infinity x then
    (if get_sign x then js "-Infinity" else js "Infinity")
  else
    match shortest_decimal (abs x) with
    | Some (ds, n) =>
        let k := Z.of_nat (length ds) in
        (if get_sign x then [45%N] else []) ++
        if ((k <=? n) && (n <=? 21))%Z then ds ++ zeros (Z.to_nat (n - k))
        else if ((0 <? n) && (n <=? 21))%Z then
          take (Z.to_nat n) ds ++ [46%N] ++ drop (Z.to_nat n) ds
        else if ((-6 <? n) && (n <=? 0))%Z then
          js "0." ++ zeros (Z.to_nat (- n)) ++ ds
        else
          let e := (n - 1)%Z in
          let exponent :=
            [101%N] ++ (if (e <? 0)%Z then [45%N] else [43%N])
            ++ decimal_of_N (Z.to_N (Z.abs e)) in
          match ds with
          | [] => exponent
          | [d] => d :: exponent
          | d :: rest => d :: 46%N :: rest ++ exponent
          end
    | None => []
    end.

(** Number.prototype.toFixed (ECMA-262, 21.1.3.3). *)
Definition Number_toFixed (x : number) (fractionDigits : nat) : jsstring :=
  if negb (is_finite x) then Number_toString x
  else
    let s := if (x <? 0)%float then [45%N] else [] in
    let x := abs x in
    if (1e21 <=? x)%float then s ++ Number_toString x
    else
      let n :=
        match magnitude x with
        | Some (num, den) =>
            round_half_up (num * 10 ^ Z.of_nat fractionDigits) den
        | None => 0%Z
        end in
      let m := decimal_of_N (Z.to_N n) in
      let m :=
        if (fractionDigits =? 0)%nat then m
        else
          let m := zeros (fractionDigits + 1 - length m) ++ m in
          take (length m - fractionDigits) m ++ [46%N]
          ++ drop (length m - fractionDigits) m in
      s ++ m.

(** Thousands separators, on the digits in reverse: a comma after every
    third digit that has a digit after it. *)
Fixpoint group_rev (ds : jsstring) (i : nat) : jsstring :=
  match ds with
  | [] => []
  | d :: rest =>
      if (i =? 3)%nat then 44%N :: d :: group_rev rest 1
      else d :: group_rev rest (S i)
  end.

Definition group_thousands (ds : jsstring) : jsstring :=
  rev (group_rev (rev ds) 0).

Fixpoint drop_zeros (s : jsstring) : jsstring :=
  match s with
  | 48%N :: s' => drop_zeros s'
  | _ => s
  end.

(** The thousandths of [0.ds * 10^n], rounded half away from zero. *)
Definition thousandths (ds : jsstring) (n : Z) : Z :=
  let c := digits_value ds in
  let e := (n - Z.of_nat (length ds) + 3)%Z in
  if (0 <=? e)%Z then (c * 10 ^ e)%Z else round_half_up c (10 ^ (- e)).

(** Number.prototype.toLocaleString() with no arguments, on a host whose
    default locale is en-US (ECMA-402 defaults: grouping, no minimum and
    at most three fraction digits, rounding half away from zero).  As in
    ICU, the rounding applies to the shortest decimal that converts back
    to the number. *)
Definition Number_toLocaleString (x : number) : jsstring :=
  if is_nan x then js "NaN"
  else
    let sign := if get_sign x then [45%N] else [] in
    if is_infinity x then sign ++ [8734%N]
    else
      let t :=
        match shortest_decimal (abs x) with
        | Some (ds, n) => thousandths ds n
        | None => 0%Z
        end in
      let ip := decimal_of_N (Z.to_N (t / 1000)) in
      let f := decimal_of_N (Z.to_N (t mod 1000)) in
      let fp := rev (drop_zeros (rev (zeros (3 - length f) ++ f))) in
      sign ++ group_thousands ip
      ++ match fp with [] => [] | _ => 46%N :: fp end.

(* ===================================================================== *)
(** * Part II.  The repository                                            *)
(* ===================================================================== *)

(** ** Types ([src/lib/db/schema.ts], [@/types/db]) *)

(** A row of the [financials] table as Drizzle returns it: [numeric]
    columns arrive as text or null, [year] is an integer column. *)
Module Financial.
Record t : Type := mk {
  id : Z;
  clubId : Z;
  year : Z;
  revenue : option jsstring;
  revenueYoy : option jsstring;
  ebitda : option jsstring;
  wages : option jsstring;
  amortization : option jsstring;
  otherExpenses : option jsstring;
  matchdayRevenue : option jsstring;
  commercialRevenue : option jsstring;
  broadcastingRevenue : option jsstring
}.
End Financial.

(** The computed record; [wages], [yoy_change] and [yoy_percentage] are
    declared [number | null]. *)
Module FinancialMetric.
Record t : Type := mk {
  id : Z;
  club_id : Z;
  year : Z;
  revenue : number;
  ebitda : number;
  wages : option number;
  yoy_change : option number;
  yoy_percentage : option number
}.
End FinancialMetric.

Module Club.
Record t : Type := mk {
  id : Z;
  name : jsstring
}.
End Club.

(** ** [src/lib/utils/formatters.ts] *)

Inductive CurrencyCode : Type := GBP | EUR.

Record CurrencyConfig : Type := {
  code : CurrencyCode;
  name : jsstring;
  symbol : jsstring;
  displayName : jsstring;
  rateFromGBP : number
}.

Definition pound_sign : N := 163.
Definition euro_sign : N := 8364.

Definition CURRENCIES (c : CurrencyCode) : CurrencyConfig :=
  match c with
  | GBP => {| code := GBP; name := js "British Pound";
              symbol := [pound_sign];
              displayName := pound_sign :: js " GBP";
              rateFromGBP := 1.0%float |}
  | EUR => {| code := EUR; name := js "Euro";
              symbol := [euro_sign];
              displayName := euro_sign :: js " EUR";
              rateFromGBP := 1.17%float |}
  end.

Definition DEFAULT_CURRENCY : CurrencyCode := GBP.

Definition CurrencyCode_eqb (a b : CurrencyCode) : bool :=
  match a, b with
  | GBP, GBP | EUR, EUR => true
  | _, _ => false
  end.

(** The code as text, for [`${currency}`]. *)
Definition CurrencyCode_text (c : CurrencyCode) : jsstring :=
  match c with GBP => js "GBP" | EUR => js "EUR" end.

Definition convertCurrency (amount : option number)
    (fromCurrency toCurrency : CurrencyCode) : option number :=
  match amount with
  | None => None
  | Some amount =>
      if CurrencyCode_eqb fromCurrency toCurrency then Some amount
      else
        let fromRate := rateFromGBP (CURRENCIES fromCurrency) in
        let toRate := rateFromGBP (CURRENCIES toCurrency) in
        Some ((amount / fromRate) * toRate)%float
  end.

Definition getCurrencySymbol (currency : CurrencyCode) : jsstring :=
  symbol (CURRENCIES currency).

Definition toNumber (value : option jsstring) : number :=
  match value with
  | None => 0%float
  | Some value =>
      let cleaned := remove_commas value in
      parseFloat cleaned
  end.

(** ** [src/lib/utils/financials.ts] *)

(** The comparator [(a, b) => a.year - b.year], used on both record
    types. *)
Definition by_year {A : Type} (year : A -> Z) (a b : A) : Z :=
  (year a - year b)%Z.

(** The callback of [sorted.map((current, index) => ...)] in
    [calculateYoY]. *)
Definition yoy_entry (sorted : list Financial.t)
    (current : Financial.t) (index : nat) : result FinancialMetric.t :=
  let revenue := toNumber (Financial.revenue current) in
  let ebitda := toNumber (Financial.ebitda current) in
  let wages := toNumber (Financial.wages current) in
  if (index =? 0)%nat then
    Ok {| FinancialMetric.id := Financial.id current;
          FinancialMetric.club_id := Financial.clubId current;
          FinancialMetric.year := Financial.year current;
          FinancialMetric.revenue := revenue;
          FinancialMetric.ebitda := ebitda;
          FinancialMetric.wages := Some wages;
          FinancialMetric.yoy_change := None;
          FinancialMetric.yoy_percentage := None |}
  else
    previous ← at_index sorted (index - 1);
    let previousRevenue := toNumber (Financial.revenue previous) in
    let change := (revenue - previousRevenue)%float in
    let percentage :=
      if negb (previousRevenue =? 0)%float
      then Some ((change / previousRevenue) * 100)%float
      else None in
    Ok {| FinancialMetric.id := Financial.id current;
          FinancialMetric.club_id := Financial.clubId current;
          FinancialMetric.year := Financial.year current;
          FinancialMetric.revenue := revenue;
          FinancialMetric.ebitda := ebitda;
          FinancialMetric.wages := Some wages;
          FinancialMetric.yoy_change := Some change;
          FinancialMetric.yoy_percentage := percentage |}.

Definition calculateYoY (financials : list Financial.t)
    : result (list FinancialMetric.t) :=
  let sorted := Array_sort (by_year Financial.year) financials in
  Array_map (yoy_entry sorted) sorted.

(** The part of [calculateCAGR] and [calculateCAGRFromMetrics] after
    the sort; the two functions differ only in how the revenue of a
    record is read ([toNumber(r.revenue)] or [r.revenue]). *)
Definition cagr_of_sorted {A : Type} (year : A -> Z) (revenue : A -> number)
    (sorted : list A) : result (option number) :=
  first ← at_index sorted 0;
  last ← at_index sorted (length sorted - 1);
  let firstRevenue := revenue first in
  let lastRevenue := revenue last in
  if (firstRevenue <=? 0)%float || (lastRevenue <=? 0)%float then Ok None
  else
    let years := (year last - year first)%Z in
    if (years <=? 0)%Z then Ok None
    else
      let cagr :=
        ((Math_pow (lastRevenue / firstRevenue) (1 / number_of_Z years) - 1)
         * 100)%float in
      Ok (Some cagr).

Definition calculateCAGR (financials : list Financial.t)
    : result (option number) :=
  if (length financials <? 2)%nat then Ok None
  else
    let sorted := Array_sort (by_year Financial.year) financials in
    cagr_of_sorted Financial.year
      (fun r => toNumber (Financial.revenue r)) sorted.

Definition calculateCAGRFromMetrics (metrics : list FinancialMetric.t)
    : result (option number) :=
  if (length metrics <? 2)%nat then Ok None
  else
    let sorted := Array_sort (by_year FinancialMetric.year) metrics in
    cagr_of_sorted FinancialMetric.year FinancialMetric.revenue sorted.

(** The helper of the repository's test-suite. *)
Definition createFinancial (id clubId year : Z) (revenue : string)
    (ebitda wages : string) (revenueYoy : option string) : Financial.t :=
  {| Financial.id := id; Financial.clubId := clubId; Financial.year := year;
     Financial.revenue := Some (js revenue);
     Financial.revenueYoy := js <$> revenueYoy;
     Financial.ebitda := Some (js ebitda);
     Financial.wages := Some (js wages);
     Financial.amortization := None; Financial.otherExpenses := None;
     Financial.matchdayRevenue := None; Financial.commercialRevenue := None;
     Financial.broadcastingRevenue := None |}.

(** ** [src/lib/data/queries.ts]

    The database reads are collaborators of the endpoint; they are the
    fields of a [Store]. *)
Record Store : Type := {
  getClubByName : jsstring -> option Club.t;
  getClubFinancialByYear : Z -> Z -> option Financial.t;
  getAllClubFinancials : Z -> list Financial.t
}.

Definition getClubFinancialsWithYoY (store : Store) (clubId : Z)
    : result (list FinancialMetric.t) :=
  let financials := getAllClubFinancials store clubId in
  calculateYoY financials.

(** ** [src/app/api/ask/route.ts] *)

(** The [question] field of the request body: a string, or anything
    else (absent, null, a number, ...). *)
Inductive json_value : Type :=
| JString (s : jsstring)
| JOther.

(** [NextResponse.json({ answer })] or
    [NextResponse.json({ error }, { status })]. *)
Inductive response : Type :=
| Answer (answer : jsstring)
| Error (status : Z) (error : jsstring).

Definition InvalidQuestion : response :=
  Error 400 (js "Invalid question").

Definition MissingYear : response :=
  Error 400
    (js "Could not find a year in your question. Please include a year like 2022.").

Definition MissingClubName : response :=
  Error 400
    (js "Could not identify the club name. Please mention the club clearly.").

Definition ClubNotFound (clubName : jsstring) : response :=
  Error 404
    (js "Could not find club " ++ [34%N] ++ clubName ++ [34%N]
     ++ js " in the database.").

Definition YearDataNotFound (club : Club.t) (year : Z) : response :=
  Error 404
    (js "No financial data found for " ++ Club.name club ++ js " in "
     ++ decimal_of_Z year ++ js ".").

Definition YoYCalculationUnavailable : response :=
  Error 500 (js "Could not calculate YoY change.").

(** The [catch] branch. *)
Definition InternalError : response :=
  Error 500 (js "An error occurred processing your question.").

(** [/\b(20\d{2})\b/] *)
Definition yearPattern : regex :=
  RSeq RWordBoundary
    (RSeq (RGroup (RSeq (RChar 50) (RSeq (RChar 48)
                     (RSeq (RClass is_digit) (RClass is_digit)))))
          RWordBoundary).

(** [const year = yearMatch ? parseInt(yearMatch[1]) : null]; [None]
    stands for null and for NaN, which the test [!year] does not
    distinguish. *)
Definition extractYear (question : jsstring) : option Z :=
  let yearMatch := String_match false yearPattern question in
  match yearMatch with
  | Some m => parseInt (default (js "undefined") (match_1 m))
  | None => None
  end.

(** [[^']] *)
Definition not_apostrophe (c : N) : bool := negb (c =? 39)%N.

(** [/what was ([^']+)'s revenue/i], [/tell me about ([^']+)'s revenue/i]
    and [/([^']+) revenue/i] *)
Definition whatWasPattern : regex :=
  RSeq (literal "what was ")
    (RSeq (RGroup (RPlus not_apostrophe)) (literal "'s revenue")).

Definition tellMeAboutPattern : regex :=
  RSeq (literal "tell me about ")
    (RSeq (RGroup (RPlus not_apostrophe)) (literal "'s revenue")).

Definition catchAllPattern : regex :=
  RSeq (RGroup (RPlus not_apostrophe)) (literal " revenue").

Definition clubPatterns : list regex :=
  [whatWasPattern; tellMeAboutPattern; catchAllPattern].

(** The loop [for (const pattern of clubPatterns) ...]; [None] is the
    initial [clubName = null]. *)
Fixpoint extractClubName_from (patterns : list regex) (question : jsstring)
    : option jsstring :=
  match patterns with
  | [] => None
  | pattern :: patterns' =>
      match String_match true pattern question with
      | Some m =>
          match match_1 m with
          | Some (c :: g) => Some (trim (c :: g))
          | _ => extractClubName_from patterns' question
          end
      | None => extractClubName_from patterns' question
      end
  end.

Definition extractClubName (question : jsstring) : option jsstring :=
  extractClubName_from clubPatterns question.

(** The answer sentence, from the club, the year, the requested currency
    and the metric of that year. *)
Definition formatAnswer (club : Club.t) (year : Z) (currency : CurrencyCode)
    (currentYearData : FinancialMetric.t) : jsstring :=
  let convertedRevenue :=
    convertCurrency (Some (FinancialMetric.revenue currentYearData))
      GBP currency in
  let currencySymbol := getCurrencySymbol currency in
  let revenueFormatted :=
    currencySymbol
    ++ match convertedRevenue with
       | Some v => Number_toLocaleString v
       | None => js "N/A"
       end
    ++ js "M" in
  let yoyText :=
    match FinancialMetric.yoy_percentage currentYearData with
    | Some p =>
        (if (0 <? p)%float then js "+" else []) ++ Number_toFixed p 1
        ++ js "%"
    | None => js "N/A (no prior year data)"
    end in
  Club.name club ++ js "'s revenue in " ++ decimal_of_Z year ++ js " was "
  ++ revenueFormatted ++ js " (" ++ CurrencyCode_text currency
  ++ js "). The year-over-year change was " ++ yoyText ++ js ".".

(** The handler after the two extractions: club lookup, year lookup and
    the answer. *)
Definition resolve (store : Store) (clubName : jsstring) (year : Z)
    (currency : CurrencyCode) : response :=
  match getClubByName store clubName with
  | None => ClubNotFound clubName
  | Some club =>
      match getClubFinancialByYear store (Club.id club) year with
      | None => YearDataNotFound club year
      | Some financial =>
          match getClubFinancialsWithYoY store (Club.id club) with
          | Throw => InternalError
          | Ok withYoY =>
              match Array_find
                      (fun f => (FinancialMetric.year f =? year)%Z)
                      withYoY with
              | None => YoYCalculationUnavailable
              | Some currentYearData =>
                  Answer (formatAnswer club year currency currentYearData)
              end
          end
      end
  end.

(** The handler, on the parsed request body.  [currency] is taken at
    the type the handler casts it to, and the database reads are taken
    to return; a TypeError inside the [try] block reaches the [catch]
    branch.  [POST_request] below starts from the request body itself,
    with any JSON value for the currency. *)
Definition POST (store : Store) (question : json_value)
    (currency : CurrencyCode) : response :=
  match question with
  | JOther | JString [] => InvalidQuestion
  | JString question =>
      match extractYear question with
      | None | Some 0%Z => MissingYear
      | Some year =>
          match extractClubName question with
          | None | Some [] => MissingClubName
          | Some clubName => resolve store clubName year currency
          end
      end
  end.

(** ** Sample data

    One club with three seasons (the figures of the documentation's
    examples, in millions of GBP), used to run the endpoint. *)

Definition sample_club : Club.t :=
  {| Club.id := 1; Club.name := js "Manchester United" |}.

Definition sample_financials : list Financial.t :=
  [ createFinancial 11 1 2022 "583.0" "0" "0" None;
    createFinancial 10 1 2021 "494.0" "0" "0" None;
    createFinancial 12 1 2023 "648.375" "0" "0" None ].

(** A store holding one club.  A name matches when it equals the club's
    name up to letter case (ILIKE with a pattern that has no wildcard). *)
Definition store_of (club : Club.t) (financials : list Financial.t) : Store :=
  {| getClubByName := fun name =>
       if decide (List.map (canonicalize true) name
                  = List.map (canonicalize true) (Club.name club))
       then Some club else None;
     getClubFinancialByYear := fun clubId year =>
       if (clubId =? Club.id club)%Z
       then List.find (fun r => (Financial.year r =? year)%Z) financials
       else None;
     getAllClubFinancials := fun clubId =>
       if (clubId =? Club.id club)%Z then financials else [] |}.

Definition sample_store : Store := store_of sample_club sample_financials.

(** A club whose revenue goes from 10^-22 to 1. *)
Definition steep_store : Store :=
  store_of {| Club.id := 2; Club.name := js "Tiny FC" |}
    [ createFinancial 20 2 2021 "0.0000000000000000000001" "0" "0" None;
      createFinancial 21 2 2022 "1" "0" "0" None ].

(** A record with the given revenue text and no other figure. *)
Definition revenueOnly (id year : Z) (revenue : jsstring) : Financial.t :=
  {| Financial.id := id; Financial.clubId := 1; Financial.year := year;
     Financial.revenue := Some revenue; Financial.revenueYoy := None;
     Financial.ebitda := None; Financial.wages := None;
     Financial.amortization := None; Financial.otherExpenses := None;
     Financial.matchdayRevenue := None; Financial.commercialRevenue := None;
     Financial.broadcastingRevenue := None |}.





(** vitest's [expect(received).toBeCloseTo(expected, 1)]: the two
    numbers differ by less than 0.05. *)
Definition toBeCloseTo (received : result (option number)) (expected : number)
    : bool :=
  match received with
  | Ok (Some x) => (abs (expected - x) <? 0.05)%float
  | _ => false
  end.

(** A metric with the given year and revenue, as the test-suite writes
    them. *)
Definition metricOf (id year : Z) (revenue : number)
    (yoy_change yoy_percentage : option number) : FinancialMetric.t :=
  {| FinancialMetric.id := id; FinancialMetric.club_id := 1;
     FinancialMetric.year := year; FinancialMetric.revenue := revenue;
     FinancialMetric.ebitda := 0%float; FinancialMetric.wages := Some 0%float;
     FinancialMetric.yoy_change := yoy_change;
     FinancialMetric.yoy_percentage := yoy_percentage |}.

(** The yoy_change and yoy_percentage of each metric of a result. *)
Definition yoy_columns (r : result (list FinancialMetric.t))
    : list (Z * option number * option number) :=
  match r with
  | Ok out =>
      List.map (fun m => (FinancialMetric.year m, FinancialMetric.yoy_change m,
                          FinancialMetric.yoy_percentage m)) out
  | Throw => []
  end.

(** ** Notions used in the statements *)

(** Whether a pattern contains the capture group. *)
Fixpoint has_group (r : regex) : bool :=
  match r with
  | RSeq r1 r2 => has_group r1 || has_group r2
  | RGroup _ => true
  | _ => false
  end.

Definition ends_with_word (s : jsstring) : bool :=
  match last s with Some c => is_word_char c | None => false end.

Definition starts_with_word (s : jsstring) : bool :=
  match s with c :: _ => is_word_char c | [] => false end.

(** [year_token_at q i y]: at position [i] of [q] stands the four-digit
    token "20dd" denoting the year [y], with no letter, digit or
    underscore directly before it or directly after it. *)
Definition year_token_at (q : jsstring) (i : nat) (y : Z) : Prop :=
  exists pre d1 d2 post,
    q = pre ++ [50%N; 48%N; d1; d2] ++ post /\
    length pre = i /\
    is_digit d1 = true /\ is_digit d2 = true /\
    ends_with_word pre = false /\ starts_with_word post = false /\
    y = (2000 + 10 * digit_value d1 + digit_value d2)%Z.

(** The text before the first decimal point, and the text after it. *)
Definition not_point (c : N) : bool := negb (c =? 46)%N.

Definition integer_part (s : jsstring) : jsstring := fst (span not_point s).

Definition fraction_part (s : jsstring) : jsstring :=
  drop 1 (snd (span not_point s)).

(** Digits in groups of three from the right, separated by commas. *)
Inductive thousands_grouped : jsstring -> Prop :=
| grouped_first ds :
    (1 <= length ds <= 3)%nat -> forallb is_digit ds = true ->
    thousands_grouped ds
| grouped_next s d1 d2 d3 :
    thousands_grouped s ->
    forallb is_digit [d1; d2; d3] = true ->
    thousands_grouped (s ++ [44%N; d1; d2; d3]).

(** [emitted_for r m]: the metric [m] carries the fields that
    [calculateYoY] copies from the record [r]. *)
Definition emitted_for (r : Financial.t) (m : FinancialMetric.t) : Prop :=
  FinancialMetric.id m = Financial.id r /\
  FinancialMetric.club_id m = Financial.clubId r /\
  FinancialMetric.year m = Financial.year r /\
  FinancialMetric.revenue m = toNumber (Financial.revenue r) /\
  FinancialMetric.ebitda m = toNumber (Financial.ebitda r) /\
  FinancialMetric.wages m = Some (toNumber (Financial.wages r)).

(** ** The same functions on a heap of arrays

    A JavaScript array is a mutable object reached through a reference:
    [a.sort(f)] reorders [a] itself and returns it, a spread [[...a]]
    allocates a new array with the same elements.  The three functions
    are repeated here with the arrays in a heap, so that what a call
    does to the array it was given can be stated.  The metrics array
    built by [map] is new and is returned by value. *)

Abbreviation heap A := (gmap positive (list A)).

(** [[...a]] *)
Definition Array_spread {A : Type} (h : heap A) (a : positive)
    : result (positive * heap A) :=
  match h !! a with
  | Some elems =>
      let copy := fresh (dom h) in Ok (copy, <[copy := elems]> h)
  | None => Throw
  end.

(** [a.sort(compareFn)] *)
Definition Array_sort_in_place {A : Type} (compareFn : A -> A -> Z)
    (h : heap A) (a : positive) : result (positive * heap A) :=
  match h !! a with
  | Some elems => Ok (a, <[a := Array_sort compareFn elems]> h)
  | None => Throw
  end.

(** The elements of the array at [a]. *)
Definition Array_elements {A : Type} (h : heap A) (a : positive)
    : result (list A) :=
  match h !! a with
  | Some elems => Ok elems
  | None => Throw
  end.

Definition calculateYoY_heap (h : heap Financial.t) (financials : positive)
    : result (list FinancialMetric.t * heap Financial.t) :=
  '(copy, h) ← Array_spread h financials;
  '(sorted, h) ← Array_sort_in_place (by_year Financial.year) h copy;
  elems ← Array_elements h sorted;
  out ← Array_map (yoy_entry elems) elems;
  Ok (out, h).

Definition calculateCAGR_heap (h : heap Financial.t) (financials : positive)
    : result (option number * heap Financial.t) :=
  elems ← Array_elements h financials;
  if (length elems <? 2)%nat then Ok (None, h)
  else
    '(copy, h) ← Array_spread h financials;
    '(sorted, h) ← Array_sort_in_place (by_year Financial.year) h copy;
    elems ← Array_elements h sorted;
    cagr ← cagr_of_sorted Financial.year
              (fun r => toNumber (Financial.revenue r)) elems;
    Ok (cagr, h).

Definition calculateCAGRFromMetrics_heap (h : heap FinancialMetric.t)
    (metrics : positive) : result (option number * heap FinancialMetric.t) :=
  elems ← Array_elements h metrics;
  if (length elems <? 2)%nat then Ok (None, h)
  else
    '(copy, h) ← Array_spread h metrics;
    '(sorted, h) ← Array_sort_in_place (by_year FinancialMetric.year) h copy;
    elems ← Array_elements h sorted;
    cagr ← cagr_of_sorted FinancialMetric.year FinancialMetric.revenue elems;
    Ok (cagr, h).


(* ===================================================================== *)
(** * Part II, continued.  The other functions of the cited files, and
      their callers                                                      *)
(* ===================================================================== *)

(** ** More of the ECMAScript library *)

(** [0.ds * 10^n] in units of [10^-fractionDigits], rounded half away
    from zero ([thousandths] is the case of three digits). *)
Definition scaled_decimal (ds : jsstring) (n : Z) (fractionDigits : nat) : Z :=
  let c := digits_value ds in
  let e := (n - Z.of_nat (length ds) + Z.of_nat fractionDigits)%Z in
  if (0 <=? e)%Z then (c * 10 ^ e)%Z else round_half_up c (10 ^ (- e)).

(** [x.toLocaleString('en-GB', { minimumFractionDigits: 0,
    maximumFractionDigits })]: the locale is named by the caller; its
    separators are the comma for thousands and the point for decimals. *)
Definition Number_toLocaleString_enGB (x : number)
    (maximumFractionDigits : nat) : jsstring :=
  if is_nan x then js "NaN"
  else
    let sign := if get_sign x then [45%N] else [] in
    if is_infinity x then sign ++ [8734%N]
    else
      let t :=
        match shortest_decimal (abs x) with
        | Some (ds, n) => scaled_decimal ds n maximumFractionDigits
        | None => 0%Z
        end in
      let unit := (10 ^ Z.of_nat maximumFractionDigits)%Z in
      let ip := decimal_of_N (Z.to_N (t / unit)) in
      let f := decimal_of_N (Z.to_N (t mod unit)) in
      let fp :=
        rev (drop_zeros (rev (zeros (maximumFractionDigits - length f) ++ f))) in
      sign ++ group_thousands ip
      ++ match fp with [] => [] | _ => 46%N :: fp end.

(** [s.includes(c)] for a one-character search string. *)
Definition String_includes (c : N) (s : jsstring) : bool :=
  existsb (N.eqb c) s.

(** Array.prototype.join on an array of strings. *)
Fixpoint Array_join (separator : jsstring) (parts : list jsstring)
    : jsstring :=
  match parts with
  | [] => []
  | [a] => a
  | a :: rest => a ++ separator ++ Array_join separator rest
  end.

(** [s.replace(/\s+/g, '_')]: every maximal run of white space becomes
    one underscore; [in_run] tells that the previous character was
    white space. *)
Fixpoint replace_white_space (in_run : bool) (s : jsstring) : jsstring :=
  match s with
  | [] => []
  | c :: s' =>
      if is_white_space c then
        if in_run then replace_white_space true s'
        else 95%N :: replace_white_space true s'
      else c :: replace_white_space false s'
  end.

(** [new Set(array)], as the array of its elements: each value once,
    in the order of first occurrence. *)
Definition Set_from (l : list Z) : list Z :=
  fold_left
    (fun elements y =>
       if existsb (Z.eqb y) elements then elements else elements ++ [y])
    l [].

(** The comparison of two strings by code units, as a sign. *)
Fixpoint String_compare (a b : jsstring) : Z :=
  match a, b with
  | [], [] => 0%Z
  | [], _ :: _ => (-1)%Z
  | _ :: _, [] => 1%Z
  | x :: a', y :: b' =>
      if (x <? y)%N then (-1)%Z
      else if (y <? x)%N then 1%Z
      else String_compare a' b'
  end.

(** Array.prototype.sort() without a comparator, on integers: the
    elements are compared by the text of their String conversion. *)
Definition Array_sort_default (l : list Z) : list Z :=
  Array_sort (fun a b => String_compare (decimal_of_Z a) (decimal_of_Z b)) l.

(** An object literal: the properties are defined from left to right, a
    repeated key keeping its place and taking the later value. *)
Fixpoint Object_define {V : Type} (o : list (jsstring * V)) (key : jsstring)
    (value : V) : list (jsstring * V) :=
  match o with
  | [] => [(key, value)]
  | (k, v) :: o' =>
      if bool_decide (k = key) then (k, value) :: o'
      else (k, v) :: Object_define o' key value
  end.

Definition Object_literal {V : Type} (properties : list (jsstring * V))
    : list (jsstring * V) :=
  fold_left (fun o p => Object_define o (fst p) (snd p)) properties [].

(** The sign that Array.prototype.sort reads off the Number returned by
    a comparator (SortCompare: NaN counts as +0). *)
Definition comparator_sign (v : number) : Z :=
  if (v <? 0)%float then (-1)%Z
  else if (0 <? v)%float then 1%Z
  else 0%Z.

(** StringToNumber (ECMA-262, 7.1.4.1.1), which [Number(string)]
    applies: white space is trimmed at both ends; the empty text is 0;
    the whole of what is left has to be a StrNumericLiteral: a binary,
    octal or hexadecimal integer with its prefix and no sign, or an
    optional sign and either Infinity or a decimal literal; anything
    else is NaN. *)
Definition in_radix (radix : Z) (c : N) : bool :=
  match hex_value c with Some v => (v <? radix)%Z | None => false end.

Definition NonDecimalIntegerLiteral (radix : Z) (ds : jsstring) : number :=
  match ds with
  | [] => nan
  | _ =>
      if forallb (in_radix radix) ds then
        number_of_Z
          (fold_left
             (fun acc c => (acc * radix + default 0 (hex_value c))%Z) ds 0%Z)
      else nan
  end.

(** Equality of two strings. *)
Definition String_eqb (a b : jsstring) : bool :=
  (length a =? length b)%nat && starts_with a b.

Definition StrDecimalLiteral (text : jsstring) : number :=
  let '(neg, s1) :=
    match text with
    | 43%N :: r => (false, r)
    | 45%N :: r => (true, r)
    | _ => (false, text)
    end in
  if String_eqb s1 (js "Infinity") then
    (if neg then neg_infinity else infinity)
  else
    let (ip, s2) := span is_digit s1 in
    let '(fp, s3) :=
      match s2 with
      | 46%N :: r => span is_digit r
      | _ => ([], s2)
      end in
    match ip ++ fp with
    | [] => nan
    | ds =>
        match s3 with
        | [] =>
            decimal_to_number neg (digits_value ds) (- Z.of_nat (length fp))
        | c :: s4 =>
            if ((c =? 101) || (c =? 69))%N then
              let '(eneg, s5) :=
                match s4 with
                | 43%N :: r => (false, r)
                | 45%N :: r => (true, r)
                | _ => (false, s4)
                end in
              match s5 with
              | [] => nan
              | _ =>
                  if forallb is_digit s5 then
                    decimal_to_number neg (digits_value ds)
                      ((if eneg then - digits_value s5 else digits_value s5)
                       - Z.of_nat (length fp))
                  else nan
              end
            else nan
        end
    end.

Definition StringToNumber (str : jsstring) : number :=
  let text := trim str in
  match text with
  | [] => 0%float
  | 48%N :: x :: r =>
      if ((x =? 120) || (x =? 88))%N then NonDecimalIntegerLiteral 16 r
      else if ((x =? 111) || (x =? 79))%N then NonDecimalIntegerLiteral 8 r
      else if ((x =? 98) || (x =? 66))%N then NonDecimalIntegerLiteral 2 r
      else StrDecimalLiteral text
  | _ => StrDecimalLiteral text
  end.

(** ** [src/lib/utils/formatters.ts], the remaining functions

    [formatCurrency]'s [currency] parameter defaults to
    [DEFAULT_CURRENCY]; a call without it is the call with
    [DEFAULT_CURRENCY]. *)
Definition formatCurrency (amount : option number) (currency : CurrencyCode)
    : jsstring :=
  match amount with
  | None => js "N/A"
  | Some amount =>
      let config := CURRENCIES currency in
      symbol config ++ Number_toLocaleString_enGB amount 2 ++ js "M"
  end.

Definition getCurrencyDisplayName (currency : CurrencyCode) : jsstring :=
  displayName (CURRENCIES currency).

Definition formatPercentage (value : option number) : jsstring :=
  match value with
  | None => js "N/A"
  | Some value =>
      let sign := if (0 <? value)%float then js "+" else [] in
      sign ++ Number_toFixed value 1 ++ js "%"
  end.

(** ** [src/lib/utils/csv.ts] *)

(** The values of the properties of a row: [null], [undefined], the
    primitive values the callers store, and an object or a function,
    given by the text [String] returns for it. *)
Inductive field_value : Type :=
| VNull
| VUndefined
| VBoolean (b : bool)
| VNumber (n : number)
| VString (s : jsstring)
| VObject (text : jsstring).

(** A [Record<string, any>]: its own enumerable properties in the order
    of [Object.keys] (for keys that are not array indices, the order in
    which they were created); the keys are distinct. *)
Definition js_object : Type := list (jsstring * field_value).

Definition Object_keys (o : js_object) : list jsstring := List.map fst o.

(** The members an object literal inherits from [Object.prototype]:
    the built-in functions, each with the text V8 prints for it (other
    engines lay the same text out with other white space), and
    [__proto__], which reads as [Object.prototype] itself. *)
Definition native_function (name : string) : field_value :=
  VObject (js "function " ++ js name ++ js "() { [native code] }").

Definition Object_prototype : js_object :=
  [ (js "constructor", native_function "Object");
    (js "__defineGetter__", native_function "__defineGetter__");
    (js "__defineSetter__", native_function "__defineSetter__");
    (js "hasOwnProperty", native_function "hasOwnProperty");
    (js "__lookupGetter__", native_function "__lookupGetter__");
    (js "__lookupSetter__", native_function "__lookupSetter__");
    (js "isPrototypeOf", native_function "isPrototypeOf");
    (js "propertyIsEnumerable", native_function "propertyIsEnumerable");
    (js "toString", native_function "toString");
    (js "valueOf", native_function "valueOf");
    (js "__proto__", VObject (js "[object Object]"));
    (js "toLocaleString", native_function "toLocaleString") ].

Definition own_property (o : js_object) (key : jsstring)
    : option field_value :=
  snd <$> List.find (fun p => bool_decide (fst p = key)) o.

(** [row[header]] on an object literal: the property of the object
    itself, else the member inherited from [Object.prototype], else
    [undefined]. *)
Definition Object_get (o : js_object) (key : jsstring) : field_value :=
  match own_property o key with
  | Some value => value
  | None =>
      match own_property Object_prototype key with
      | Some value => value
      | None => VUndefined
      end
  end.

(** [String(value)] *)
Definition String_of (value : field_value) : jsstring :=
  match value with
  | VNull => js "null"
  | VUndefined => js "undefined"
  | VBoolean b => if b then js "true" else js "false"
  | VNumber n => Number_toString n
  | VString s => s
  | VObject text => text
  end.

(** [stringValue.replace(/q/g, qq)], where [q] is the double quote and
    [qq] two of them. *)
Definition double_quotes (s : jsstring) : jsstring :=
  flat_map (fun c => if (c =? 34)%N then [34%N; 34%N] else [c]) s.

(** The callback of [headers.map(header => ...)], on the value read. *)
Definition csv_cell (value : field_value) : jsstring :=
  match value with
  | VNull | VUndefined => []
  | _ =>
      let stringValue := String_of value in
      if String_includes 44 stringValue || String_includes 34 stringValue
         || String_includes 10 stringValue
      then [34%N] ++ double_quotes stringValue ++ [34%N]
      else stringValue
  end.

Definition convertToCSV (data : list js_object) : jsstring :=
  match data with
  | [] => []
  | first :: _ =>
      let headers := Object_keys first in
      let headerRow := Array_join (js ",") headers in
      let dataRows :=
        List.map
          (fun row =>
             Array_join (js ",")
               (List.map (fun header => csv_cell (Object_get row header))
                  headers))
          data in
      Array_join [10%N] (headerRow :: dataRows)
  end.

(** What [downloadCSV] hands to the browser: the content of the blob
    (the text after a byte-order mark) and the [download] attribute of
    the link. *)
Record download : Type := {
  blob : jsstring;
  download_name : jsstring
}.

Definition downloadCSV (csvContent filename : jsstring) : download :=
  let BOM := [65279%N] in
  {| blob := BOM ++ csvContent; download_name := filename |}.

(** ** [src/app/api/ask/route.ts], from the request body

    [POST] above starts from a question and a currency of the type the
    handler casts to.  The handler itself starts from whatever
    [request.json()] returns; the functions below follow it from
    there, with the database reads taken to return as before. *)

(** A JSON value.  The properties of an object are its own, with
    distinct keys. *)
#[warnings="-register-all"] Inductive json : Type :=
| JsonNull
| JsonBoolean (b : bool)
| JsonNumber (n : number)
| JsonString (s : jsstring)
| JsonArray (items : list json)
| JsonObject (properties : list (jsstring * json)).

(** ToString of a JSON value, which a template and a property key
    apply: an array joins the texts of its elements with commas, null
    counting as the empty text; an object literal prints as
    [[object Object]]. *)
Fixpoint json_text (v : json) : jsstring :=
  match v with
  | JsonNull => js "null"
  | JsonBoolean b => if b then js "true" else js "false"
  | JsonNumber n => Number_toString n
  | JsonString s => s
  | JsonArray items =>
      Array_join (js ",")
        (List.map
           (fun item =>
              match item with
              | JsonNull => []
              | _ => json_text item
              end)
           items)
  | JsonObject _ => js "[object Object]"
  end.

(** [body.question] and [body.currency] for a body other than null:
    only an object can have them, as neither is a member of a
    prototype. *)
Definition body_property (body : json) (key : jsstring) : option json :=
  match body with
  | JsonObject properties =>
      snd <$> List.find (fun p => bool_decide (fst p = key)) properties
  | _ => None
  end.

(** [question], as the guard [!question || typeof question !== 'string']
    sees it. *)
Definition requested_question (body : json) : json_value :=
  match body_property body (js "question") with
  | Some (JsonString s) => JString s
  | _ => JOther
  end.

(** [currency = DEFAULT_CURRENCY]: the default stands in for a missing
    property, not for null. *)
Definition requested_currency (body : json) : json :=
  default (JsonString (CurrencyCode_text DEFAULT_CURRENCY))
    (body_property body (js "currency")).

(** [CURRENCIES[currency]] for any key: one of the two configurations,
    a member inherited from [Object.prototype], or undefined. *)
Inductive currency_lookup : Type :=
| Configured (config : CurrencyConfig)
| Inherited
| Missing.

Definition CURRENCIES_get (key : jsstring) : currency_lookup :=
  if String_eqb key (js "GBP") then Configured (CURRENCIES GBP)
  else if String_eqb key (js "EUR") then Configured (CURRENCIES EUR)
  else if existsb (String_eqb key) (Object_keys Object_prototype)
  then Inherited
  else Missing.

(** [CURRENCIES[currency].rateFromGBP], as the multiplication reads it,
    and [CURRENCIES[currency].symbol], as the template prints it: a
    property of undefined throws a TypeError, and a property an
    inherited member does not have is undefined. *)
Definition rate_of (entry : currency_lookup) : result number :=
  match entry with
  | Configured config => Ok (rateFromGBP config)
  | Inherited => Ok nan
  | Missing => Throw
  end.

Definition symbol_of (entry : currency_lookup) : result jsstring :=
  match entry with
  | Configured config => Ok (symbol config)
  | Inherited => Ok (js "undefined")
  | Missing => Throw
  end.

(** Lines 81 to 90, with [currency] as it came. *)
Definition formatAnswer_of (club : Club.t) (year : Z) (currency : json)
    (currentYearData : FinancialMetric.t) : result jsstring :=
  let amount := FinancialMetric.revenue currentYearData in
  let entry := CURRENCIES_get (json_text currency) in
  let same :=
    match currency with
    | JsonString s => String_eqb (js "GBP") s
    | _ => false
    end in
  convertedRevenue ←
    (if same then Ok amount
     else
       let fromRate := rateFromGBP (CURRENCIES GBP) in
       toRate ← rate_of entry;
       Ok ((amount / fromRate) * toRate)%float);
  currencySymbol ← symbol_of entry;
  let revenueFormatted :=
    currencySymbol ++ Number_toLocaleString convertedRevenue ++ js "M" in
  let yoyText :=
    match FinancialMetric.yoy_percentage currentYearData with
    | Some p =>
        (if (0 <? p)%float then js "+" else []) ++ Number_toFixed p 1
        ++ js "%"
    | None => js "N/A (no prior year data)"
    end in
  Ok (Club.name club ++ js "'s revenue in " ++ decimal_of_Z year
      ++ js " was " ++ revenueFormatted ++ js " (" ++ json_text currency
      ++ js "). The year-over-year change was " ++ yoyText ++ js ".").

Definition resolve_request (store : Store) (clubName : jsstring) (year : Z)
    (currency : json) : response :=
  match getClubByName store clubName with
  | None => ClubNotFound clubName
  | Some club =>
      match getClubFinancialByYear store (Club.id club) year with
      | None => YearDataNotFound club year
      | Some financial =>
          match getClubFinancialsWithYoY store (Club.id club) with
          | Throw => InternalError
          | Ok withYoY =>
              match Array_find
                      (fun f => (FinancialMetric.year f =? year)%Z)
                      withYoY with
              | None => YoYCalculationUnavailable
              | Some currentYearData =>
                  match formatAnswer_of club year currency
                          currentYearData with
                  | Ok answer => Answer answer
                  | Throw => InternalError
                  end
              end
          end
      end
  end.

(** The handler on the request: [None] is a body that is not JSON, for
    which [request.json()] rejects; the pattern of line 7 throws on
    null.  Both errors reach the [catch] branch. *)
Definition POST_request (store : Store) (body : option json) : response :=
  match body with
  | None | Some JsonNull => InternalError
  | Some body =>
      let currency := requested_currency body in
      match requested_question body with
      | JOther | JString [] => InvalidQuestion
      | JString question =>
          match extractYear question with
          | None | Some 0%Z => MissingYear
          | Some year =>
              match extractClubName question with
              | None | Some [] => MissingClubName
              | Some clubName => resolve_request store clubName year currency
              end
          end
      end
  end.

(** ** [src/app/api/financials/route.ts]

    The handler, on the [clubId] parameter of the query string
    ([searchParams.get] returns a string or null).  The database read
    [getClubFinancials] is a collaborator; it returns the page of
    seasons or fails. *)
Inductive api_response (A : Type) : Type :=
| Json (body : A)
| ApiError (status : Z) (error : jsstring).
Arguments Json {A} body.
Arguments ApiError {A} status error.

Module FinancialsRoute.
Definition GET {A : Type} (getClubFinancials : number -> result A)
    (clubId : option jsstring) : api_response A :=
  match clubId with
  | None | Some [] =>
      ApiError 400 (js "clubId is required and must be a number")
  | Some clubId =>
      if is_nan (StringToNumber clubId) then
        ApiError 400 (js "clubId is required and must be a number")
      else
        match getClubFinancials (StringToNumber clubId) with
        | Ok financials => Json financials
        | Throw => ApiError 500 (js "Failed to fetch financials")
        end
  end.
End FinancialsRoute.

(** ** [src/components/platform/metrics-table.tsx] *)

Inductive SortField : Type := sort_year | sort_revenue | sort_yoy_percentage.

Inductive SortDirection : Type := asc | desc.

(** The component's state; it starts at ['year'], ['desc']. *)
Record SortState : Type := {
  sortField : SortField;
  sortDirection : SortDirection
}.

Definition initialSortState : SortState :=
  {| sortField := sort_year; sortDirection := desc |}.

Definition SortField_eqb (a b : SortField) : bool :=
  match a, b with
  | sort_year, sort_year | sort_revenue, sort_revenue
  | sort_yoy_percentage, sort_yoy_percentage => true
  | _, _ => false
  end.

(** The comparator of [sortedData], as the sign the sort reads off its
    result.  [year] is an integer, and the difference of two years is
    taken in the integers, as in [by_year]. *)
Definition compareRows (st : SortState) (a b : FinancialMetric.t) : Z :=
  let directed (comparison : Z) :=
    match sortDirection st with
    | asc => comparison
    | desc => (- comparison)%Z
    end in
  let compareValues (aValue bValue : option number) :=
    match aValue, bValue with
    | None, None => 0%Z
    | None, Some _ => 1%Z
    | Some _, None => (-1)%Z
    | Some aValue, Some bValue =>
        directed (comparator_sign (aValue - bValue)%float)
    end in
  match sortField st with
  | sort_year => directed (FinancialMetric.year a - FinancialMetric.year b)%Z
  | sort_revenue =>
      compareValues (Some (FinancialMetric.revenue a))
        (Some (FinancialMetric.revenue b))
  | sort_yoy_percentage =>
      compareValues (FinancialMetric.yoy_percentage a)
        (FinancialMetric.yoy_percentage b)
  end.

(** [[...data].sort(...)] *)
Definition sortedData (st : SortState) (data : list FinancialMetric.t)
    : list FinancialMetric.t :=
  Array_sort (compareRows st) data.

Definition handleSort (st : SortState) (field : SortField) : SortState :=
  if SortField_eqb (sortField st) field then
    {| sortField := sortField st;
       sortDirection :=
         match sortDirection st with asc => desc | desc => asc end |}
  else {| sortField := field; sortDirection := desc |}.

(** [convertValue(v)?.toFixed(digits) ?? 'N/A'] *)
Definition fixed_or_NA (value : option number) (digits : nat) : jsstring :=
  match value with
  | Some v => Number_toFixed v digits
  | None => js "N/A"
  end.

(** The callback of [sortedData.map(row => ...)]: the row handed to
    [convertToCSV]. *)
Definition csvRow (currency : CurrencyCode) (row : FinancialMetric.t)
    : js_object :=
  let currencySymbol := getCurrencySymbol currency in
  let convertValue value := convertCurrency value GBP currency in
  [ (js "Season", VNumber (number_of_Z (FinancialMetric.year row)));
    (js "Revenue (" ++ currencySymbol ++ js "M)",
     VString (fixed_or_NA
                (convertValue (Some (FinancialMetric.revenue row))) 2));
    (js "EBITDA (" ++ currencySymbol ++ js "M)",
     VString (fixed_or_NA
                (convertValue (Some (FinancialMetric.ebitda row))) 2));
    (js "YoY Change (" ++ currencySymbol ++ js "M)",
     VString (fixed_or_NA (convertValue (FinancialMetric.yoy_change row)) 2));
    (js "YoY %",
     VString (fixed_or_NA (FinancialMetric.yoy_percentage row) 1)) ].

Definition csvData (currency : CurrencyCode)
    (rows : list FinancialMetric.t) : list js_object :=
  List.map (csvRow currency) rows.

(** [handleDownloadCSV], from the sorted rows on display; [clubName] is
    an optional property of the component. *)
Definition handleDownloadCSV (currency : CurrencyCode)
    (clubName : option jsstring) (rows : list FinancialMetric.t) : download :=
  let csv := convertToCSV (csvData currency rows) in
  let filename :=
    match clubName with
    | Some (c :: n) =>
        replace_white_space false (c :: n) ++ js "_financials_"
        ++ CurrencyCode_text currency ++ js ".csv"
    | _ => js "financials_" ++ CurrencyCode_text currency ++ js ".csv"
    end in
  downloadCSV csv filename.

(** ** [src/components/platform/revenue-chart.tsx] *)

(** [item ? convertCurrency(item.revenue, 'GBP', currency) : null] *)
Definition chart_value (currency : CurrencyCode)
    (item : option FinancialMetric.t) : field_value :=
  match item with
  | Some item =>
      match convertCurrency (Some (FinancialMetric.revenue item)) GBP currency
      with
      | Some v => VNumber v
      | None => VNull
      end
  | None => VNull
  end.

(** The rows handed to the chart.  [comparisonData] and
    [comparisonClubName] are optional properties of the component; an
    absent name used as a key reads as the text undefined. *)
Definition chartData (data : list FinancialMetric.t) (clubName : jsstring)
    (currency : CurrencyCode)
    (comparisonData : option (list FinancialMetric.t))
    (comparisonClubName : option jsstring) : list js_object :=
  match comparisonData with
  | Some (c :: cs) =>
      let comparisonData := c :: cs in
      let allYears :=
        Set_from (List.map FinancialMetric.year data
                  ++ List.map FinancialMetric.year comparisonData) in
      List.map
        (fun year =>
           let item1 :=
             Array_find (fun d => (FinancialMetric.year d =? year)%Z) data in
           let item2 :=
             Array_find (fun d => (FinancialMetric.year d =? year)%Z)
               comparisonData in
           Object_literal
             [ (js "year", VString (decimal_of_Z year));
               (clubName, chart_value currency item1);
               (default (js "undefined") comparisonClubName,
                chart_value currency item2) ])
        (Array_sort_default allYears)
  | _ =>
      List.map
        (fun item =>
           Object_literal
             [ (js "year", VString (decimal_of_Z (FinancialMetric.year item)));
               (js "revenue", chart_value currency (Some item)) ])
        data
  end.

(** The text of the CAGR badge:
    [{cagr >= 0 ? '+' : ''}{cagr.toFixed(1)}%]. *)
Definition cagrBadge (cagr : number) : jsstring :=
  (if (0 <=? cagr)%float then js "+" else []) ++ Number_toFixed cagr 1
  ++ js "%".

(** ** More notions used in the statements *)

(** A character that does not make [convertToCSV] quote a cell. *)
Definition plain_char (c : N) : bool :=
  negb (c =? 44)%N && negb (c =? 34)%N && negb (c =? 10)%N.

(** The text a cell stands for. *)
Definition cell_text (value : field_value) : jsstring :=
  match value with
  | VNull | VUndefined => []
  | _ => String_of value
  end.

(** A reader of comma-separated values in the sense of RFC 4180, with
    the line feed as the record separator: a field that opens with a
    double quote runs to the closing quote, a doubled quote inside it
    standing for one; any other field runs to the next comma or line
    feed.  [fields] and [rows] hold what has been read, latest first,
    and [current] the characters of the field being read. *)
Inductive reader_mode : Type :=
| FieldStart
| Unquoted
| Quoted
| QuoteSeen.

Fixpoint csv_read (mode : reader_mode) (rows : list (list jsstring))
    (fields : list jsstring) (current : jsstring) (s : jsstring)
    : list (list jsstring) :=
  match s with
  | [] => rev (rev (rev current :: fields) :: rows)
  | c :: s' =>
      let outside :=
        if (c =? 44)%N then
          csv_read FieldStart rows (rev current :: fields) [] s'
        else if (c =? 10)%N then
          csv_read FieldStart (rev (rev current :: fields) :: rows) [] [] s'
        else csv_read Unquoted rows fields (c :: current) s' in
      match mode with
      | FieldStart =>
          if (c =? 34)%N then csv_read Quoted rows fields [] s' else outside
      | Unquoted => outside
      | Quoted =>
          if (c =? 34)%N then csv_read QuoteSeen rows fields current s'
          else csv_read Quoted rows fields (c :: current) s'
      | QuoteSeen =>
          if (c =? 34)%N then csv_read Quoted rows fields (c :: current) s'
          else outside
      end
  end.

Definition read_csv (s : jsstring) : list (list jsstring) :=
  csv_read FieldStart [] [] [] s.

(** What may follow a cell: the end of the text, a comma or a line
    feed. *)
Definition separator_next (rest : jsstring) : Prop :=
  match rest with
  | [] => True
  | c :: _ => c = 44%N \/ c = 10%N
  end.

(** [writes cell text]: read from the start of a field, the characters
    of [cell] give the field [text]. *)
Definition writes (cell text : jsstring) : Prop :=
  forall rows fields rest,
    separator_next rest ->
    csv_read FieldStart rows fields [] (cell ++ rest)
    = csv_read Unquoted rows fields (rev text) rest.

(** The table [convertToCSV] writes: the headers, then for each row the
    text of the value under each header. *)
Definition csv_table (data : list js_object) : list (list jsstring) :=
  match data with
  | [] => []
  | first :: _ =>
      Object_keys first
      :: List.map
           (fun row =>
              List.map (fun header => cell_text (Object_get row header))
                (Object_keys first))
           data
  end.

(** The header line and the lines of the exported table. *)
Definition export_headers (currency : CurrencyCode) : list jsstring :=
  [ js "Season";
    js "Revenue (" ++ getCurrencySymbol currency ++ js "M)";
    js "EBITDA (" ++ getCurrencySymbol currency ++ js "M)";
    js "YoY Change (" ++ getCurrencySymbol currency ++ js "M)";
    js "YoY %" ].

Definition export_line (currency : CurrencyCode) (row : FinancialMetric.t)
    : list jsstring :=
  [ Number_toString (number_of_Z (FinancialMetric.year row));
    fixed_or_NA
      (convertCurrency (Some (FinancialMetric.revenue row)) GBP currency) 2;
    fixed_or_NA
      (convertCurrency (Some (FinancialMetric.ebitda row)) GBP currency) 2;
    fixed_or_NA
      (convertCurrency (FinancialMetric.yoy_change row) GBP currency) 2;
    fixed_or_NA (FinancialMetric.yoy_percentage row) 1 ].
(** [revenue_phrase q]: somewhere in [q] a character other than an
    apostrophe is directly followed by a space and the word revenue, in any letter
    case. *)
Definition revenue_phrase (q : jsstring) : Prop :=
  exists pre c word post,
    q = pre ++ [c] ++ word ++ post /\
    not_apostrophe c = true /\
    List.map (canonicalize true) word
    = List.map (canonicalize true) (js " revenue").

Definition starts_with_white_space (s : jsstring) : bool :=
  match s with c :: _ => is_white_space c | [] => false end.

Definition ends_with_white_space (s : jsstring) : bool :=
  match last s with Some c => is_white_space c | None => false end.

(** A store is coherent when the season it returns for a club and a
    year is among the seasons it lists for that club. *)
Definition coherent (store : Store) : Prop :=
  forall clubId year financial,
    getClubFinancialByYear store clubId year = Some financial ->
    exists r, r ∈ getAllClubFinancials store clubId
              /\ Financial.year r = year.

(** The same question up to letter case. *)
Definition same_up_to_case (s t : jsstring) : Prop :=
  List.map (canonicalize true) s = List.map (canonicalize true) t.

(** [A-Za-z] *)
Definition is_letter (c : N) : bool :=
  ((65 <=? c) && (c <=? 90) || (97 <=? c) && (c <=? 122))%N.

(** A pattern that cannot tell the letter case of the input: it is
    matched ignoring case or has no letter among its pattern
    characters, and its classes hold of a letter in both cases or in
    none. *)
Fixpoint case_blind (ignoreCase : bool) (r : regex) : Prop :=
  match r with
  | REmpty | RWordBoundary => True
  | RChar c => ignoreCase = true \/ is_letter c = false
  | RClass p | RPlus p =>
      forall a b, canonicalize true a = canonicalize true b -> p a = p b
  | RSeq r1 r2 => case_blind ignoreCase r1 /\ case_blind ignoreCase r2
  | RGroup r => case_blind ignoreCase r
  end.

(** Two optional results that are both absent, or both present and
    related. *)
Definition same_outcome {A : Type} (R : A -> A -> Prop) (o1 o2 : option A)
    : Prop :=
  match o1, o2 with
  | Some a, Some b => R a b
  | None, None => True
  | _, _ => False
  end.

Definition same_state (st1 st2 : mstate) : Prop :=
  same_up_to_case (consumed st1) (consumed st2) /\
  same_up_to_case (remaining st1) (remaining st2) /\
  same_outcome same_up_to_case (group1 st1) (group1 st2).

Definition same_match (m1 m2 : match_result) : Prop :=
  match_index m1 = match_index m2 /\
  same_up_to_case (match_0 m1) (match_0 m2) /\
  same_outcome same_up_to_case (match_1 m1) (match_1 m2).

(** ** The real value of a Number

    Used to bound the results of the arithmetic of [calculateCAGR]. *)

Section RealValues.
Import Reals.
Local Open Scope R_scope.

Definition bpow (e : Z) : R := powerRZ 2 e.

(** [C * 2^j], and when it is a binary64 value below the infinities. *)
Definition dyadic (C j : Z) : R := IZR C * bpow j.


(** The value of a finite Number; 0 stands in for NaN and the
    infinities, which [SF_finite] excludes. *)
Definition SF2R (x : spec_float) : R :=
  match x with
  | S754_finite s m e =>
      (if s then - IZR (Z.pos m) else IZR (Z.pos m)) * bpow e
  | _ => 0
  end.

Definition SF_finite (x : spec_float) : Prop :=
  match x with
  | S754_zero _ | S754_finite _ _ _ => True
  | _ => False
  end.


Definition value (x : number) : R := SF2R (Prim2SF x).

Definition finite (x : number) : Prop := SF_finite (Prim2SF x).

End RealValues.




(** The growth between two revenues is in range when their quotient, as
    [calculateCAGR] computes it, lies between 2^-128 and 2^128. *)
Definition growth_in_range (firstRevenue lastRevenue : number) : bool :=
  (0x1p-128 <=? lastRevenue / firstRevenue)%float
  && (lastRevenue / firstRevenue <=? 0x1p128)%float.


(* ===================================================================== *)
(** * Part III.  Properties                                               *)
(* ===================================================================== *)

(** ** The embedding, evaluated

    The library functions on inputs whose results are known, then the
    cases of the repository's test-suite
    ([lib/utils/__tests__/financials.test.ts]) and the documented
    questions of the ask endpoint. *)

Example parseFloat_evaluated :
  parseFloat (js "100000000") = 100000000%float /\
  parseFloat (js "123.456") = 123.456%float /\
  parseFloat (js "  -0.1e0x") = (-0.1)%float /\
  parseFloat (js "5.e-3") = 0.005%float /\
  parseFloat (js ".5") = 0.5%float /\
  parseFloat (js "4.9e-324") = 0x1p-1074%float /\
  parseFloat (js "2.4e-324") = 0%float /\
  parseFloat (js "1.7976931348623157e308") = 0x1.fffffffffffffp+1023%float /\
  parseFloat (js "1.7976931348623159e308") = infinity /\
  parseFloat (js "9007199254740993") = 9007199254740992%float /\
  parseFloat (js "0.30000000000000004") = (0.1 + 0.2)%float /\
  parseFloat (js "-Infinity") = neg_infinity /\
  is_nan (parseFloat (js "abc")) = true /\
  is_nan (parseFloat (js ".")) = true /\
  is_nan (parseFloat (js "")) = true.
Proof. vm_compute. repeat split; reflexivity. Qed.

Example toNumber_evaluated :
  toNumber None = 0%float /\
  toNumber (Some (js "1,234,567.5")) = 1234567.5%float /\
  toNumber (Some (js "100,000,000")) = 100000000%float.
Proof. vm_compute. repeat split; reflexivity. Qed.

Example parseInt_evaluated :
  parseInt (js "2022") = Some 2022%Z /\
  parseInt (js "  -0x1Fz") = Some (-31)%Z /\
  parseInt (js "09a") = Some 9%Z /\
  parseInt (js "undefined") = None.
Proof. vm_compute. repeat split; reflexivity. Qed.

Example Math_pow_evaluated :
  Math_pow infinity 1%float = infinity /\
  Math_pow 0%float 0.5%float = 0%float /\
  Math_pow 2%float 0%float = 1%float /\
  is_nan (Math_pow nan 1%float) = true /\
  is_nan (Math_pow (-8)%float (1 / 3)%float) = true /\
  Math_pow 2%float 10%float = 1024%float /\
  Math_pow 1.21%float 0.5%float = 1.1%float.
Proof. vm_compute. repeat split; reflexivity. Qed.

Example Number_toString_evaluated :
  Number_toString 1e21%float = js "1e+21" /\
  Number_toString 123456789012345680000%float = js "123456789012345680000" /\
  Number_toString 0.000001%float = js "0.000001" /\
  Number_toString 1e-7%float = js "1e-7" /\
  Number_toString 1.5e300%float = js "1.5e+300" /\
  Number_toString (-123.456)%float = js "-123.456" /\
  Number_toString 5e-324%float = js "5e-324" /\
  Number_toString 0x1.fffffffffffffp+1023%float = js "1.7976931348623157e+308" /\
  Number_toString 9.999999999999999e22%float = js "1e+23" /\
  Number_toString (0.1 + 0.2)%float = js "0.30000000000000004" /\
  Number_toString neg_zero = js "0" /\
  Number_toString neg_infinity = js "-Infinity".
Proof. vm_compute. repeat split; reflexivity. Qed.

Example Number_toFixed_evaluated :
  Number_toFixed 18.016194331983804%float 1 = js "18.0" /\
  Number_toFixed 0.05%float 1 = js "0.1" /\
  Number_toFixed 0.25%float 1 = js "0.3" /\
  Number_toFixed 0.35%float 1 = js "0.3" /\
  Number_toFixed (-0.04)%float 1 = js "-0.0" /\
  Number_toFixed (-1.45)%float 1 = js "-1.4" /\
  Number_toFixed 0%float 1 = js "0.0" /\
  Number_toFixed 1234.5678%float 2 = js "1234.57" /\
  Number_toFixed 999999999999999900000%float 1 = js "999999999999999868928.0" /\
  Number_toFixed 1e21%float 1 = js "1e+21" /\
  Number_toFixed (-2.5e24)%float 1 = js "-2.5e+24" /\
  Number_toFixed nan 1 = js "NaN".
Proof. vm_compute. repeat split; reflexivity. Qed.

Example Number_toLocaleString_evaluated :
  Number_toLocaleString 583%float = js "583" /\
  Number_toLocaleString 1000%float = js "1,000" /\
  Number_toLocaleString 100000000%float = js "100,000,000" /\
  Number_toLocaleString 1234567.891%float = js "1,234,567.891" /\
  Number_toLocaleString 0.125%float = js "0.125" /\
  Number_toLocaleString 1.0005%float = js "1.001" /\
  Number_toLocaleString 999.9995%float = js "1,000" /\
  Number_toLocaleString 0.0004%float = js "0" /\
  Number_toLocaleString (-1234.5)%float = js "-1,234.5" /\
  Number_toLocaleString 1e21%float = js "1,000,000,000,000,000,000,000" /\
  Number_toLocaleString nan = js "NaN" /\
  Number_toLocaleString infinity = [8734%N].
Proof. vm_compute. repeat split; reflexivity. Qed.

Example String_match_evaluated :
  (match_1 <$> String_match false yearPattern (js "in 12022 or 2023x, 2024?"))
  = Some (Some (js "2024")) /\
  (match_index <$> String_match false yearPattern (js "in 12022 or 2023x, 2024?"))
  = Some 19%nat /\
  String_match false yearPattern (js "season 2022_23") = None /\
  (match_1 <$> String_match true whatWasPattern
                 (js "So, What WAS Manchester United's REVENUE in 2022?"))
  = Some (Some (js "Manchester United")) /\
  (match_1 <$> String_match true catchAllPattern
                 (js "Arsenal revenue and revenue 2022 revenues"))
  = Some (Some (js "Arsenal revenue and revenue 2022")) /\
  String_match true catchAllPattern (js "revenue of Arsenal") = None.
Proof. vm_compute. repeat split; reflexivity. Qed.

(** describe("calculateYoY") *)
Example test_calculateYoY :
  yoy_columns (calculateYoY
    [createFinancial 1 1 2020 "100000000" "10000000" "50000000" None])
  = [(2020%Z, None, None)] /\
  yoy_columns (calculateYoY
    [createFinancial 1 1 2020 "100000000" "10000000" "50000000" None;
     createFinancial 2 1 2021 "120000000" "12000000" "55000000" (Some "20000000"%string)])
  = [(2020%Z, None, None); (2021%Z, Some 20000000%float, Some 20%float)] /\
  yoy_columns (calculateYoY
    [createFinancial 1 1 2020 "0" "0" "0" None;
     createFinancial 2 1 2021 "100000000" "10000000" "50000000" (Some "100000000"%string)])
  = [(2020%Z, None, None); (2021%Z, Some 100000000%float, None)] /\
  yoy_columns (calculateYoY
    [createFinancial 1 1 2020 "100000000" "10000000" "50000000" None;
     createFinancial 2 1 2021 "80000000" "8000000" "48000000" (Some "-20000000"%string)])
  = [(2020%Z, None, None); (2021%Z, Some (-20000000)%float, Some (-20)%float)] /\
  yoy_columns (calculateYoY
    [createFinancial 2 1 2021 "120000000" "12000000" "55000000" (Some "20000000"%string);
     createFinancial 1 1 2020 "100000000" "10000000" "50000000" None])
  = [(2020%Z, None, None); (2021%Z, Some 20000000%float, Some 20%float)] /\
  yoy_columns (calculateYoY
    [createFinancial 1 1 2020 "100,000,000" "10,000,000" "50,000,000" None;
     createFinancial 2 1 2021 "110,000,000" "11,000,000" "52,000,000" (Some "10,000,000"%string)])
  = [(2020%Z, None, None); (2021%Z, Some 10000000%float, Some 10%float)] /\
  calculateYoY [] = Ok [].
Proof. vm_compute. repeat split; reflexivity. Qed.

(** describe("calculateCAGR") *)
Example test_calculateCAGR :
  calculateCAGR
    [createFinancial 1 1 2020 "100000000" "10000000" "50000000" None]
  = Ok None /\
  calculateCAGR [] = Ok None /\
  toBeCloseTo (calculateCAGR
    [createFinancial 1 1 2020 "100000000" "10000000" "50000000" None;
     createFinancial 2 1 2021 "121000000" "12000000" "55000000" (Some "21000000"%string)])
    21%float = true /\
  toBeCloseTo (calculateCAGR
    [createFinancial 1 1 2020 "100000000" "10000000" "50000000" None;
     createFinancial 2 1 2021 "110000000" "11000000" "52000000" (Some "10000000"%string);
     createFinancial 3 1 2022 "121000000" "12000000" "54000000" (Some "11000000"%string)])
    10%float = true /\
  calculateCAGR
    [createFinancial 1 1 2020 "0" "0" "0" None;
     createFinancial 2 1 2021 "100000000" "10000000" "50000000" (Some "100000000"%string)]
  = Ok None /\
  calculateCAGR
    [createFinancial 1 1 2020 "100000000" "10000000" "50000000" None;
     createFinancial 2 1 2021 "0" "0" "0" (Some "-100000000"%string)]
  = Ok None /\
  calculateCAGR
    [createFinancial 1 1 2020 "-100000000" "-10000000" "50000000" None;
     createFinancial 2 1 2021 "100000000" "10000000" "50000000" (Some "200000000"%string)]
  = Ok None /\
  toBeCloseTo (calculateCAGR
    [createFinancial 1 1 2020 "100000000" "10000000" "50000000" None;
     createFinancial 2 1 2021 "90000000" "9000000" "48000000" (Some "-10000000"%string);
     createFinancial 3 1 2022 "81000000" "8000000" "46000000" (Some "-9000000"%string)])
    (-10)%float = true /\
  toBeCloseTo (calculateCAGR
    [createFinancial 3 1 2022 "121000000" "12000000" "54000000" (Some "11000000"%string);
     createFinancial 1 1 2020 "100000000" "10000000" "50000000" None;
     createFinancial 2 1 2021 "110000000" "11000000" "52000000" (Some "10000000"%string)])
    10%float = true /\
  calculateCAGR
    [createFinancial 1 1 2020 "100000000" "10000000" "50000000" None;
     createFinancial 2 1 2020 "110000000" "11000000" "52000000" (Some "10000000"%string)]
  = Ok None.
Proof. vm_compute. repeat split; reflexivity. Qed.

(** describe("calculateCAGRFromMetrics") *)
Example test_calculateCAGRFromMetrics :
  calculateCAGRFromMetrics [metricOf 1 2020 100000000%float None None] = Ok None /\
  calculateCAGRFromMetrics [] = Ok None /\
  toBeCloseTo (calculateCAGRFromMetrics
    [metricOf 1 2020 100000000%float None None;
     metricOf 2 2021 121000000%float (Some 21000000%float) (Some 21%float)])
    21%float = true /\
  toBeCloseTo (calculateCAGRFromMetrics
    [metricOf 3 2022 121000000%float (Some 11000000%float) (Some 10%float);
     metricOf 1 2020 100000000%float None None;
     metricOf 2 2021 110000000%float (Some 10000000%float) (Some 10%float)])
    10%float = true /\
  calculateCAGRFromMetrics
    [metricOf 1 2020 0%float None None;
     metricOf 2 2021 100000000%float (Some 100000000%float) None]
  = Ok None /\
  calculateCAGRFromMetrics
    [metricOf 1 2020 (-100000000)%float None None;
     metricOf 2 2021 100000000%float (Some 200000000%float) None]
  = Ok None /\
  calculateCAGRFromMetrics
    [metricOf 1 2020 100000000%float None None;
     metricOf 2 2020 110000000%float (Some 10000000%float) (Some 10%float)]
  = Ok None.
Proof. vm_compute. repeat split; reflexivity. Qed.

(** The documented questions. *)
Example test_POST :
  POST sample_store
    (JString (js "What was Manchester United's revenue in 2022?")) GBP
  = Answer (js "Manchester United's revenue in 2022 was " ++ [pound_sign]
            ++ js "583M (GBP). The year-over-year change was +18.0%.") /\
  POST sample_store
    (JString (js "Tell me about Manchester United's revenue in 2021")) EUR
  = Answer (js "Manchester United's revenue in 2021 was " ++ [euro_sign]
            ++ js "577.98M (EUR). The year-over-year change was "
            ++ js "N/A (no prior year data).") /\
  POST sample_store (JString (js "manchester united revenue 2022")) GBP
  = Answer (js "Manchester United's revenue in 2022 was " ++ [pound_sign]
            ++ js "583M (GBP). The year-over-year change was +18.0%.") /\
  POST sample_store (JString (js "What was Manchester United's revenue?")) GBP
  = MissingYear /\
  POST sample_store (JString (js "Anything for 2022?")) GBP
  = MissingClubName /\
  POST sample_store (JString (js "What was Fake FC's revenue in 2022?")) GBP
  = ClubNotFound (js "Fake FC") /\
  POST sample_store
    (JString (js "What was Manchester United's revenue in 2019?")) GBP
  = YearDataNotFound sample_club 2019 /\
  POST sample_store (JString []) GBP = InvalidQuestion /\
  POST sample_store JOther GBP = InvalidQuestion.
Proof. vm_compute. repeat split; reflexivity. Qed.

(** ** The stable sort *)

Section SortFacts.
Context {A : Type} (key : A -> Z).

Local Abbreviation cmp := (by_year key).
Local Abbreviation keys l := (List.map key l).

Lemma sort_insert_length x l :
  length (sort_insert cmp x l) = S (length l).
Proof.
  induction l as [|y l IH]; simpl; [done|].
  destruct (_ <=? _)%Z; simpl; auto.
Qed.

Lemma Array_sort_length l : length (Array_sort cmp l) = length l.
Proof.
  induction l as [|x l IH]; simpl; [done|].
  by rewrite sort_insert_length, IH.
Qed.

Lemma sort_insert_Permutation x l : Permutation (sort_insert cmp x l) (x :: l).
Proof.
  induction l as [|y l IH]; simpl; [done|].
  destruct (_ <=? _)%Z; [done|].
  rewrite IH. apply perm_swap.
Qed.

Lemma Array_sort_Permutation l : Permutation (Array_sort cmp l) l.
Proof.
  induction l as [|x l IH]; simpl; [done|].
  rewrite sort_insert_Permutation. by constructor.
Qed.

Lemma sort_insert_Sorted x l :
  Sorted Z.le (keys l) -> Sorted Z.le (keys (sort_insert cmp x l)).
Proof.
  induction l as [|y l IH]; simpl; intros Hs.
  - repeat constructor.
  - unfold by_year at 1.
    destruct (Z.leb_spec (key x - key y) 0) as [Hle|Hgt]; simpl.
    + constructor; [done|]. constructor. lia.
    + inversion Hs as [|? ? Hs' Hhd]; subst.
      constructor; [by apply IH|].
      destruct l as [|z l]; simpl.
      * constructor. lia.
      * unfold by_year. destruct (Z.leb_spec (key x - key z) 0); simpl.
        -- constructor. lia.
        -- inversion Hhd; subst. by constructor.
Qed.

Lemma Array_sort_Sorted l : Sorted Z.le (keys (Array_sort cmp l)).
Proof.
  induction l as [|x l IH]; simpl; [constructor|].
  by apply sort_insert_Sorted.
Qed.

(** Stability: the elements with a given key come out in input order. *)
Lemma sort_insert_filter y x l :
  List.filter (fun a => (key a =? y)%Z) (sort_insert cmp x l)
  = List.filter (fun a => (key a =? y)%Z) (x :: l).
Proof.
  induction l as [|z l IH]; simpl; [done|].
  unfold by_year at 1.
  destruct (Z.leb_spec (key x - key z) 0) as [Hle|Hgt]; simpl; [done|].
  rewrite IH. simpl.
  destruct (Z.eqb_spec (key z) y), (Z.eqb_spec (key x) y); try done.
  lia.
Qed.

Lemma Array_sort_filter y l :
  List.filter (fun a => (key a =? y)%Z) (Array_sort cmp l)
  = List.filter (fun a => (key a =? y)%Z) l.
Proof.
  induction l as [|x l IH]; simpl; [done|].
  rewrite sort_insert_filter. simpl. by rewrite IH.
Qed.

(** Sorting a list that is already in order returns it. *)
Lemma Array_sort_sorted l :
  Sorted Z.le (keys l) -> Array_sort cmp l = l.
Proof.
  induction l as [|x l IH]; simpl; [done|].
  intros Hs. inversion Hs as [|? ? Hs' Hhd]; subst.
  rewrite IH by done.
  destruct l as [|z l]; simpl; [done|].
  inversion Hhd; subst. unfold by_year.
  destruct (Z.leb_spec (key x - key z) 0); [done|lia].
Qed.
Lemma filter_key_none y l :
  Forall (fun a => key a <> y) l ->
  List.filter (fun a => (key a =? y)%Z) l = [].
Proof.
  induction 1 as [|a l Ha _ IH]; simpl; [done|].
  by destruct (Z.eqb_spec (key a) y).
Qed.

Lemma Sorted_keys_head a l :
  Sorted Z.le (List.map key (a :: l)) ->
  Forall (fun x => (key a <= key x)%Z) l.
Proof.
  intros Hs. apply Sorted_StronglySorted in Hs; [|intros ???; lia].
  inversion Hs as [|? ? _ Hall]; subst.
  clear Hs. induction l as [|x l IHl]; simpl in *; [constructor|].
  inversion Hall; subst. constructor; [done|by apply IHl].
Qed.

(** The result of a stable sort is unique: a list in key order whose
    elements of each key are those of [l], in the order of [l], is
    [Array_sort l].  So every stable sorting algorithm, whichever the
    engine uses, returns what [Array_sort] returns. *)
Lemma stable_sorted_unique l1 :
  forall l2,
    Sorted Z.le (List.map key l1) -> Sorted Z.le (List.map key l2) ->
    (forall y, List.filter (fun a => (key a =? y)%Z) l1
               = List.filter (fun a => (key a =? y)%Z) l2) ->
    l1 = l2.
Proof.
  induction l1 as [|a l1 IH]; intros l2 Hs1 Hs2 Hf.
  - destruct l2 as [|b l2]; [done|].
    specialize (Hf (key b)). simpl in Hf. by rewrite Z.eqb_refl in Hf.
  - destruct l2 as [|b l2].
    { specialize (Hf (key a)). simpl in Hf. by rewrite Z.eqb_refl in Hf. }
    pose proof (Sorted_keys_head _ _ Hs1) as H1.
    pose proof (Sorted_keys_head _ _ Hs2) as H2.
    assert (Hab : key a = key b).
    { destruct (Z.lt_trichotomy (key a) (key b)) as [Hlt|[Heq|Hgt]]; [|done|].
      - specialize (Hf (key a)). simpl in Hf. rewrite Z.eqb_refl in Hf.
        destruct (Z.eqb_spec (key b) (key a)); [lia|].
        rewrite (filter_key_none (key a) l2) in Hf; [done|].
        eapply Forall_impl; [exact H2|]. simpl. intros. lia.
      - specialize (Hf (key b)). simpl in Hf. rewrite Z.eqb_refl in Hf.
        destruct (Z.eqb_spec (key a) (key b)); [lia|].
        rewrite (filter_key_none (key b) l1) in Hf; [done|].
        eapply Forall_impl; [exact H1|]. simpl. intros. lia. }
    assert (a = b) as <-.
    { specialize (Hf (key a)). simpl in Hf.
      rewrite <- Hab, Z.eqb_refl in Hf. by injection Hf. }
    f_equal. apply IH.
    + by inversion Hs1.
    + by inversion Hs2.
    + intros y. specialize (Hf y). simpl in Hf.
      destruct (key a =? y)%Z; [by injection Hf|done].
Qed.

Lemma Array_sort_unique l s :
  Sorted Z.le (List.map key s) ->
  (forall y, List.filter (fun a => (key a =? y)%Z) s
             = List.filter (fun a => (key a =? y)%Z) l) ->
  s = Array_sort (by_year key) l.
Proof.
  intros Hs Hf. apply stable_sorted_unique; [done|apply Array_sort_Sorted|].
  intros y. by rewrite Array_sort_filter.
Qed.
End SortFacts.

(** ** Array.prototype.map with a callback that may throw *)

Lemma Array_map_from_lookup {A B : Type} (f : A -> nat -> result B) l :
  forall k out,
    Array_map_from f k l = Ok out ->
    length out = length l /\
    forall i a b, l !! i = Some a -> out !! i = Some b -> f a (k + i) = Ok b.
Proof.
  induction l as [|x l IH]; simpl; intros k out H.
  - inversion H; subst. split; [done|]. intros i a b Ha. done.
  - destruct (f x k) as [b0|] eqn:Hx; simpl in H; [|done].
    destruct (Array_map_from f (S k) l) as [bs|] eqn:Hl; simpl in H; [|done].
    inversion H; subst. destruct (IH _ _ Hl) as [Hlen Hi].
    split; [simpl; by rewrite Hlen|].
    intros [|i] a b Ha Hb; simpl in *.
    + inversion Ha; inversion Hb; subst. by rewrite Nat.add_0_r.
    + rewrite Nat.add_succ_r. by apply (Hi i).
Qed.

Lemma Array_map_from_total {A B : Type} (f : A -> nat -> result B) l :
  forall k,
    (forall i a, l !! i = Some a -> exists b, f a (k + i) = Ok b) ->
    exists out, Array_map_from f k l = Ok out.
Proof.
  induction l as [|x l IH]; simpl; intros k Hf; [by eexists|].
  destruct (Hf 0 x eq_refl) as [b Hb]. rewrite Nat.add_0_r in Hb.
  destruct (IH (S k)) as [bs Hbs].
  { intros i a Ha. destruct (Hf (S i) a Ha) as [b' Hb'].
    exists b'. by rewrite Nat.add_succ_r in Hb'. }
  exists (b :: bs). by rewrite Hb, Hbs.
Qed.

(** ** calculateYoY *)

Lemma yoy_entry_emitted sorted current index m :
  yoy_entry sorted current index = Ok m -> emitted_for current m.
Proof.
  unfold yoy_entry, emitted_for. destruct (index =? 0)%nat.
  - intros [= <-]. by simpl.
  - destruct (at_index sorted (index - 1)); simpl; [|done].
    intros [= <-]. by simpl.
Qed.

Lemma at_index_lookup {A : Type} (arr : list A) i a :
  arr !! i = Some a -> at_index arr i = Ok a.
Proof. unfold at_index. by intros ->. Qed.

(** [calculateYoY] never throws, and its [i]-th output is the callback
    applied to the [i]-th record in year order. *)
Lemma calculateYoY_entries financials :
  exists out,
    calculateYoY financials = Ok out /\
    length out = length financials /\
    forall i current m,
      Array_sort (by_year Financial.year) financials !! i = Some current ->
      out !! i = Some m ->
      yoy_entry (Array_sort (by_year Financial.year) financials) current i
      = Ok m.
Proof.
  unfold calculateYoY, Array_map.
  set (sorted := Array_sort (by_year Financial.year) financials).
  destruct (Array_map_from_total (yoy_entry sorted) sorted 0) as [out Hout].
  { intros i a Ha. simpl. unfold yoy_entry.
    destruct i as [|i]; simpl; [by eexists|].
    rewrite Nat.sub_0_r.
    assert (is_Some (sorted !! i)) as [prev Hprev].
    { apply lookup_lt_is_Some. apply lookup_lt_Some in Ha. lia. }
    rewrite (at_index_lookup _ _ _ Hprev). simpl. by eexists. }
  exists out. split; [done|].
  destruct (Array_map_from_lookup _ _ _ _ Hout) as [Hlen Hi].
  split.
  - rewrite Hlen. apply Array_sort_length.
  - intros i current m Hc Hm. apply (Hi i current m Hc Hm).
Qed.

Lemma calculateYoY_emitted financials out :
  calculateYoY financials = Ok out ->
  Forall2 emitted_for (Array_sort (by_year Financial.year) financials) out.
Proof.
  intros Hout. destruct (calculateYoY_entries financials) as (out' & H' & Hlen & Hi).
  rewrite Hout in H'. injection H' as <-.
  apply Forall2_same_length_lookup. split.
  - by rewrite Array_sort_length.
  - intros i r m Hr Hm. eapply yoy_entry_emitted, Hi; eauto.
Qed.

Lemma emitted_years sorted out :
  Forall2 emitted_for sorted out ->
  List.map FinancialMetric.year out = List.map Financial.year sorted.
Proof.
  induction 1 as [|r m ? ? Hrm _ IH]; simpl; [done|].
  destruct Hrm as (_ & _ & -> & _). by rewrite IH.
Qed.

Lemma emitted_filter y rs ms :
  Forall2 emitted_for rs ms ->
  Forall2 emitted_for
    (List.filter (fun r => (Financial.year r =? y)%Z) rs)
    (List.filter (fun m => (FinancialMetric.year m =? y)%Z) ms).
Proof.
  induction 1 as [|r m ? ? Hrm _ IH]; simpl; [constructor|].
  assert (FinancialMetric.year m = Financial.year r) as -> by apply Hrm.
  destruct (_ =? _)%Z; [by constructor|done].
Qed.

Lemma calculateYoY_sorted financials out :
  calculateYoY financials = Ok out ->
  Sorted Z.le (List.map FinancialMetric.year out).
Proof.
  intros Hout. rewrite (emitted_years _ _ (calculateYoY_emitted _ _ Hout)).
  apply Array_sort_Sorted.
Qed.

(** C1: calculateYoY returns one element for each input record, the
    i-th carrying the fields of the i-th record in year order.  In this
    sequence the first element has yoy_change = null and
    yoy_percentage = null; every later element's yoy_change is its
    revenue minus the revenue of the element just before it (whatever
    the gap between the two years); its yoy_percentage is null exactly
    when that previous revenue is 0 and otherwise is yoy_change /
    previous revenue * 100. *)
Theorem calculateYoY_yoy_fields (financials : list Financial.t) :
  exists out,
    calculateYoY financials = Ok out /\
    length out = length financials /\
    Forall2 emitted_for (Array_sort (by_year Financial.year) financials) out /\
    Sorted Z.le (List.map FinancialMetric.year out) /\
    (forall first, out !! 0%nat = Some first ->
       FinancialMetric.yoy_change first = None /\
       FinancialMetric.yoy_percentage first = None) /\
    (forall i previous current,
       out !! i = Some previous -> out !! (S i) = Some current ->
       let change :=
         (FinancialMetric.revenue current - FinancialMetric.revenue previous)%float in
       FinancialMetric.yoy_change current = Some change /\
       (FinancialMetric.yoy_percentage current = None <->
        (FinancialMetric.revenue previous =? 0)%float = true) /\
       ((FinancialMetric.revenue previous =? 0)%float = false ->
        FinancialMetric.yoy_percentage current
        = Some (change / FinancialMetric.revenue previous * 100)%float)).
Proof.
  destruct (calculateYoY_entries financials) as (out & Hout & Hlen & Hi).
  exists out. split; [done|]. split; [done|].
  split; [by apply calculateYoY_emitted|].
  split; [by eapply calculateYoY_sorted|].
  set (sorted := Array_sort (by_year Financial.year) financials) in *.
  assert (length sorted = length out) as Hls
    by (unfold sorted; by rewrite Array_sort_length).
  split.
  - intros first H0.
    assert (is_Some (sorted !! 0%nat)) as [r Hr].
    { apply lookup_lt_is_Some. apply lookup_lt_Some in H0. lia. }
    specialize (Hi _ _ _ Hr H0). unfold yoy_entry in Hi. simpl in Hi.
    injection Hi as <-. by simpl.
  - intros i previous current Hp Hc.
    assert (is_Some (sorted !! i)) as [rp Hrp].
    { apply lookup_lt_is_Some. apply lookup_lt_Some in Hp. lia. }
    assert (is_Some (sorted !! S i)) as [rc Hrc].
    { apply lookup_lt_is_Some. apply lookup_lt_Some in Hc. lia. }
    pose proof (yoy_entry_emitted _ _ _ _ (Hi _ _ _ Hrp Hp)) as (_ & _ & _ & Hrev & _).
    specialize (Hi _ _ _ Hrc Hc). unfold yoy_entry in Hi. simpl in Hi.
    rewrite Nat.sub_0_r, (at_index_lookup _ _ _ Hrp) in Hi. simpl in Hi.
    injection Hi as <-. simpl. rewrite Hrev.
    destruct (toNumber (Financial.revenue rp) =? 0)%float; simpl.
    + split; [done|]. split; [done|]. done.
    + split; [done|]. split; [|done]. split; done.
Qed.

(** C3: the output of calculateYoY has the length of the input, is
    sorted ascending by year, and for every year the metrics of that
    year are those of the input records of that year, in input order. *)
Theorem calculateYoY_length_sorted_stable (financials : list Financial.t) :
  exists out,
    calculateYoY financials = Ok out /\
    length out = length financials /\
    StronglySorted Z.le (List.map FinancialMetric.year out) /\
    forall y,
      Forall2 emitted_for
        (List.filter (fun r => (Financial.year r =? y)%Z) financials)
        (List.filter (fun m => (FinancialMetric.year m =? y)%Z) out).
Proof.
  destruct (calculateYoY_entries financials) as (out & Hout & Hlen & _).
  exists out. split; [done|]. split; [done|]. split.
  - apply Sorted_StronglySorted; [intros ???; lia|].
    by eapply calculateYoY_sorted.
  - intros y.
    rewrite <- (Array_sort_filter Financial.year y financials).
    by apply emitted_filter, calculateYoY_emitted.
Qed.

(** C4 as stated fails: a record whose wages field is null is emitted
    with wages = 0, not null. *)
Lemma null_wages_emitted_as_zero :
  let r := {| Financial.id := 1; Financial.clubId := 1; Financial.year := 2020;
              Financial.revenue := Some (js "100"); Financial.revenueYoy := None;
              Financial.ebitda := None; Financial.wages := None;
              Financial.amortization := None; Financial.otherExpenses := None;
              Financial.matchdayRevenue := None;
              Financial.commercialRevenue := None;
              Financial.broadcastingRevenue := None |} in
  Financial.wages r = None /\
  (List.map FinancialMetric.wages <$> calculateYoY [r]) = Ok [Some 0%float] /\
  (List.map FinancialMetric.wages <$> calculateYoY [r]) <> Ok [None].
Proof. vm_compute. repeat split; congruence. Qed.

(** C4, amended: every metric emitted by calculateYoY reports
    revenue, EBITDA and wages as numbers; a null revenue, EBITDA or wages
    field of the record is emitted as 0, and wages is never null. *)
Theorem calculateYoY_null_fields (financials : list Financial.t) :
  exists out,
    calculateYoY financials = Ok out /\
    Permutation (Array_sort (by_year Financial.year) financials) financials /\
    Forall2
      (fun r m =>
         (Financial.revenue r = None -> FinancialMetric.revenue m = 0%float) /\
         (Financial.ebitda r = None -> FinancialMetric.ebitda m = 0%float) /\
         (Financial.wages r = None -> FinancialMetric.wages m = Some 0%float) /\
         FinancialMetric.wages m <> None)
      (Array_sort (by_year Financial.year) financials) out.
Proof.
  destruct (calculateYoY_entries financials) as (out & Hout & _ & _).
  exists out. split; [done|]. split; [apply Array_sort_Permutation|].
  eapply Forall2_impl; [by apply calculateYoY_emitted|].
  intros r m (_ & _ & _ & Hrev & Heb & Hw). rewrite Hrev, Heb, Hw.
  repeat split; try (intros ->; reflexivity). done.
Qed.

(** ** CAGR *)

Lemma cagr_of_sorted_unfold {A : Type} (year : A -> Z) (revenue : A -> number)
    (sorted : list A) first last_ :
  sorted !! 0%nat = Some first -> last sorted = Some last_ ->
  cagr_of_sorted year revenue sorted =
    if (revenue first <=? 0)%float || (revenue last_ <=? 0)%float then Ok None
    else if (year last_ - year first <=? 0)%Z then Ok None
    else Ok (Some ((Math_pow (revenue last_ / revenue first)
                      (1 / number_of_Z (year last_ - year first)) - 1)
                   * 100)%float).
Proof.
  intros Hf Hl. unfold cagr_of_sorted.
  rewrite last_lookup in Hl.
  rewrite (at_index_lookup _ _ _ Hf). simpl.
  replace (length sorted - 1)%nat with (pred (length sorted)) by lia.
  by rewrite (at_index_lookup _ _ _ Hl).
Qed.

Lemma cagr_of_sorted_ext {A B : Type} (ya : A -> Z) (ra : A -> number)
    (yb : B -> Z) (rb : B -> number) la lb :
  Forall2 (fun a b => ya a = yb b /\ ra a = rb b) la lb ->
  cagr_of_sorted ya ra la = cagr_of_sorted yb rb lb.
Proof.
  intros HF. unfold cagr_of_sorted, at_index.
  rewrite <- (Forall2_length _ _ _ HF).
  destruct (la !! 0%nat) as [a|] eqn:Ha.
  - destruct (Forall2_lookup_l _ _ _ _ _ HF Ha) as (b & -> & Hy & Hr). simpl.
    destruct (la !! (length la - 1)%nat) as [a'|] eqn:Ha'.
    + destruct (Forall2_lookup_l _ _ _ _ _ HF Ha') as (b' & -> & Hy' & Hr').
      simpl. by rewrite Hy, Hr, Hy', Hr'.
    + apply lookup_ge_None_1 in Ha'.
      rewrite (lookup_ge_None_2 lb); [done|].
      by rewrite <- (Forall2_length _ _ _ HF).
  - apply lookup_ge_None_1 in Ha.
    rewrite (lookup_ge_None_2 lb 0); [done|].
    by rewrite <- (Forall2_length _ _ _ HF).
Qed.

Lemma Sorted_lookup_le (ks : list Z) i j a b :
  Sorted Z.le ks -> ks !! i = Some a -> ks !! j = Some b -> (i <= j)%nat ->
  (a <= b)%Z.
Proof.
  intros Hs. apply Sorted_StronglySorted in Hs; [|intros ???; lia].
  revert i j. induction Hs as [|k ks Hs IH Hall]; intros i j Hi Hj Hij; [done|].
  destruct i as [|i], j as [|j]; simpl in *; try lia.
  - inversion Hi; inversion Hj; lia.
  - inversion Hi; subst. rewrite Forall_forall in Hall.
    apply Hall. by eapply list_elem_of_lookup_2.
  - eapply IH; eauto. lia.
Qed.

Lemma sorted_ends {A : Type} (year : A -> Z) (sorted : list A) first last_ :
  Sorted Z.le (List.map year sorted) ->
  sorted !! 0%nat = Some first -> last sorted = Some last_ ->
  (year first <= year last_)%Z.
Proof.
  intros Hs Hf Hl. rewrite last_lookup in Hl.
  eapply (Sorted_lookup_le _ 0 (pred (length sorted))); eauto.
  - change (List.map year sorted) with (year <$> sorted).
    by rewrite list_lookup_fmap, Hf.
  - change (List.map year sorted) with (year <$> sorted).
    by rewrite list_lookup_fmap, Hl.
  - lia.
Qed.

Lemma ends_exist {A : Type} (l : list A) :
  (1 <= length l)%nat -> exists first last_, l !! 0%nat = Some first /\ last l = Some last_.
Proof.
  intros Hlen. destruct l as [|a l]; simpl in *; [lia|].
  exists a. destruct (last (a :: l)) as [b|] eqn:Hb; [by eauto|].
  by apply last_None in Hb.
Qed.

(** When the result is null, and what it is when it is not, for both
    entry points at once. *)
Lemma cagr_null_iff {A : Type} (year : A -> Z) (revenue : A -> number)
    (l : list A) :
  let sorted := Array_sort (by_year year) l in
  let cagr := if (length l <? 2)%nat then Ok None
              else cagr_of_sorted year revenue sorted in
  (cagr = Ok None <->
   (length l < 2)%nat \/
   exists first last_,
     sorted !! 0%nat = Some first /\ last sorted = Some last_ /\
     ((revenue first <=? 0)%float = true \/
      (revenue last_ <=? 0)%float = true \/
      year first = year last_)) /\
  (forall first last_,
     (2 <= length l)%nat ->
     sorted !! 0%nat = Some first -> last sorted = Some last_ ->
     (revenue first <=? 0)%float = false ->
     (revenue last_ <=? 0)%float = false ->
     year first <> year last_ ->
     cagr =
       Ok (Some ((Math_pow (revenue last_ / revenue first)
                    (1 / number_of_Z (year last_ - year first)) - 1)
                 * 100)%float)).
Proof.
  intros sorted cagr.
  assert (Hord : forall first last_, sorted !! 0%nat = Some first ->
             last sorted = Some last_ -> (year first <= year last_)%Z).
  { intros. eapply sorted_ends; eauto. apply Array_sort_Sorted. }
  unfold cagr.
  destruct (Nat.ltb_spec (length l) 2) as [Hlt|Hge].
  - split; [split; auto|]. intros; lia.
  - destruct (ends_exist sorted) as (f & la & Hf & Hl).
    { unfold sorted. rewrite Array_sort_length. lia. }
    rewrite (cagr_of_sorted_unfold _ _ _ _ _ Hf Hl).
    specialize (Hord _ _ Hf Hl).
    split.
    + split.
      * intros H. right. exists f, la. split; [done|]. split; [done|].
        destruct (_ <=? _)%float; [by left|].
        destruct (_ <=? _)%float; [by right; left|]. simpl in H.
        destruct (Z.leb_spec (year la - year f) 0); [right; right; lia|done].
      * intros [?|(f' & l' & Hf' & Hl' & Hc)]; [lia|].
        rewrite Hf in Hf'. rewrite Hl in Hl'.
        injection Hf' as <-. injection Hl' as <-.
        destruct Hc as [->|[->| Hy]]; [done|by rewrite orb_true_r|].
        destruct (_ || _); [done|].
        rewrite Hy, Z.sub_diag. done.
    + intros f' l' _ Hf' Hl' H1 H2 Hy.
      rewrite Hf in Hf'. rewrite Hl in Hl'.
      injection Hf' as <-. injection Hl' as <-.
      rewrite H1, H2. simpl.
      destruct (Z.leb_spec (year la - year f) 0); [lia|done].
Qed.

(** C2: calculateCAGR returns null exactly when there are fewer than
    two records, or the first or last revenue in year order is <= 0, or
    the first and last years are equal; otherwise it returns
    ((lastRevenue / firstRevenue)^(1 / (lastYear - firstYear)) - 1) * 100. *)
Theorem calculateCAGR_null_iff (financials : list Financial.t) :
  let sorted := Array_sort (by_year Financial.year) financials in
  (calculateCAGR financials = Ok None <->
   (length financials < 2)%nat \/
   exists first last_,
     sorted !! 0%nat = Some first /\ last sorted = Some last_ /\
     ((toNumber (Financial.revenue first) <=? 0)%float = true \/
      (toNumber (Financial.revenue last_) <=? 0)%float = true \/
      Financial.year first = Financial.year last_)) /\
  (forall first last_,
     (2 <= length financials)%nat ->
     sorted !! 0%nat = Some first -> last sorted = Some last_ ->
     (toNumber (Financial.revenue first) <=? 0)%float = false ->
     (toNumber (Financial.revenue last_) <=? 0)%float = false ->
     Financial.year first <> Financial.year last_ ->
     calculateCAGR financials =
       Ok (Some ((Math_pow
                    (toNumber (Financial.revenue last_)
                     / toNumber (Financial.revenue first))
                    (1 / number_of_Z (Financial.year last_ - Financial.year first))
                  - 1) * 100)%float)).
Proof.
  exact (cagr_null_iff Financial.year
           (fun r => toNumber (Financial.revenue r)) financials).
Qed.

Lemma cagr_of_sorted_total {A : Type} (year : A -> Z) (revenue : A -> number)
    (sorted : list A) :
  (1 <= length sorted)%nat ->
  exists r, cagr_of_sorted year revenue sorted = Ok r.
Proof.
  intros Hlen. destruct (ends_exist sorted Hlen) as (f & l & Hf & Hl).
  rewrite (cagr_of_sorted_unfold _ _ _ _ _ Hf Hl).
  destruct (_ || _); [by eexists|]. destruct (_ <=? _)%Z; by eexists.
Qed.

Lemma calculateCAGR_total financials :
  exists r, calculateCAGR financials = Ok r.
Proof.
  unfold calculateCAGR.
  destruct (Nat.ltb_spec (length financials) 2); [by eexists|].
  apply cagr_of_sorted_total. rewrite Array_sort_length. lia.
Qed.

(** C5: calculateCAGRFromMetrics applied to the output of calculateYoY
    yields the same number, or the same null, as calculateCAGR applied
    to the raw records (and none of the three calls throws). *)
Theorem cagr_from_metrics_parity (financials : list Financial.t) :
  exists metrics r,
    calculateYoY financials = Ok metrics /\
    calculateCAGRFromMetrics metrics = Ok r /\
    calculateCAGR financials = Ok r.
Proof.
  destruct (calculateYoY_entries financials) as (out & Hout & Hlen & _).
  destruct (calculateCAGR_total financials) as [r Hr].
  exists out, r. split; [done|]. split; [|done].
  rewrite <- Hr. unfold calculateCAGRFromMetrics, calculateCAGR. rewrite Hlen.
  destruct (_ <? _)%nat; [done|].
  rewrite (Array_sort_sorted FinancialMetric.year out)
    by (by eapply calculateYoY_sorted).
  symmetry. apply cagr_of_sorted_ext.
  eapply Forall2_impl; [by apply calculateYoY_emitted|].
  intros r0 m (_ & _ & Hy & Hrev & _). by rewrite Hy, Hrev.
Qed.

(** ** Frame: the caller's array *)

(** Sorting a spread copy: the sorted elements are those of [Array_sort],
    and every array that existed before is as it was. *)
Lemma sort_of_copy {A : Type} (compareFn : A -> A -> Z) (h : heap A) a elems :
  h !! a = Some elems ->
  exists copy h',
    (Array_spread h a ≫= fun '(c, h1) => Array_sort_in_place compareFn h1 c)
    = Ok (copy, h') /\
    Array_elements h' copy = Ok (Array_sort compareFn elems) /\
    forall a0, is_Some (h !! a0) -> h' !! a0 = h !! a0.
Proof.
  intros Ha. unfold Array_spread. rewrite Ha. simpl.
  set (c := fresh (dom h)).
  unfold Array_sort_in_place. rewrite lookup_insert_eq.
  eexists _, _. split; [done|]. split.
  - unfold Array_elements. by rewrite lookup_insert_eq.
  - intros a0 Ha0.
    assert (c <> a0).
    { intros <-. apply (is_fresh (dom h)). by apply elem_of_dom. }
    by rewrite !lookup_insert_ne.
Qed.

Lemma cagr_heap_frame {A : Type} (year : A -> Z) (revenue : A -> number)
    (h : heap A) a elems :
  h !! a = Some elems ->
  exists r h',
    (elems0 ← Array_elements h a;
     if (length elems0 <? 2)%nat then Ok (None, h)
     else
       '(copy, h) ← Array_spread h a;
       '(sorted, h) ← Array_sort_in_place (by_year year) h copy;
       elems1 ← Array_elements h sorted;
       cagr ← cagr_of_sorted year revenue elems1;
       Ok (cagr, h)) = Ok (r, h') /\
    (if (length elems <? 2)%nat then Ok None
     else cagr_of_sorted year revenue (Array_sort (by_year year) elems)) = Ok r /\
    forall a0, is_Some (h !! a0) -> h' !! a0 = h !! a0.
Proof.
  intros Ha.
  destruct (length elems <? 2)%nat eqn:Hlen.
  - exists None, h. unfold Array_elements. rewrite Ha. simpl. by rewrite Hlen.
  - apply Nat.ltb_ge in Hlen as Hge.
    destruct (sort_of_copy (by_year year) h a elems Ha)
      as (c & h' & Hrun & Hel & Hfr).
    destruct (cagr_of_sorted_total year revenue (Array_sort (by_year year) elems))
      as [r Hr].
    { rewrite Array_sort_length. lia. }
    exists r, h'. split; [|done].
    unfold Array_elements in Hel. unfold Array_elements, Array_spread in *.
    rewrite Ha in Hrun |- *. cbn [mbind result_bind] in Hrun |- *.
    rewrite Hlen, Hrun. cbn [mbind result_bind].
    destruct (h' !! c); [|done]. injection Hel as ->.
    cbn [mbind result_bind]. by rewrite Hr.
Qed.

(** C10: each of calculateYoY, calculateCAGR and
    calculateCAGRFromMetrics leaves the array it is given (and every
    other array of the heap) with the same elements in the same order:
    the sort runs on a spread copy.  The value returned is the one of
    the function on the elements. *)
Theorem input_array_unchanged
    (h : heap Financial.t) (hm : heap FinancialMetric.t)
    (financials metrics : positive) (fs : list Financial.t)
    (ms : list FinancialMetric.t) :
  h !! financials = Some fs ->
  hm !! metrics = Some ms ->
  (exists out h',
     calculateYoY_heap h financials = Ok (out, h') /\
     calculateYoY fs = Ok out /\
     h' !! financials = Some fs /\
     forall a, is_Some (h !! a) -> h' !! a = h !! a) /\
  (exists r h',
     calculateCAGR_heap h financials = Ok (r, h') /\
     calculateCAGR fs = Ok r /\
     h' !! financials = Some fs /\
     forall a, is_Some (h !! a) -> h' !! a = h !! a) /\
  (exists r hm',
     calculateCAGRFromMetrics_heap hm metrics = Ok (r, hm') /\
     calculateCAGRFromMetrics ms = Ok r /\
     hm' !! metrics = Some ms /\
     forall a, is_Some (hm !! a) -> hm' !! a = hm !! a).
Proof.
  intros Hf Hm. split; [|split].
  - destruct (sort_of_copy (by_year Financial.year) h financials fs Hf)
      as (c & h' & Hrun & Hel & Hfr).
    destruct (calculateYoY_entries fs) as (out & Hout & _).
    exists out, h'. unfold calculateYoY_heap.
    unfold Array_spread in *. rewrite Hf in *. simpl in *.
    rewrite Hrun. simpl. rewrite Hel. simpl.
    unfold calculateYoY in Hout. rewrite Hout. simpl.
    split; [done|]. split; [done|]. split; [|done].
    rewrite Hfr; [done|by eexists].
  - destruct (cagr_heap_frame Financial.year
                (fun r => toNumber (Financial.revenue r)) h financials fs Hf)
      as (r & h' & Hrun & Hval & Hfr).
    exists r, h'. split; [done|]. split; [done|]. split; [|done].
    rewrite Hfr; [done|by eexists].
  - destruct (cagr_heap_frame FinancialMetric.year FinancialMetric.revenue
                hm metrics ms Hm) as (r & h' & Hrun & Hval & Hfr).
    exists r, h'. split; [done|]. split; [done|]. split; [|done].
    rewrite Hfr; [done|by eexists].
Qed.

Lemma input_array_unchanged_witness :
  let fs := [createFinancial 2 1 2021 "120" "0" "0" None;
             createFinancial 1 1 2020 "100" "0" "0" None] in
  let ms := [FinancialMetric.mk 2 1 2021 120%float 0%float None None None;
             FinancialMetric.mk 1 1 2020 100%float 0%float None None None] in
  let h : heap Financial.t := {[ 1%positive := fs ]} in
  let hm : heap FinancialMetric.t := {[ 1%positive := ms ]} in
  h !! 1%positive = Some fs /\
  hm !! 1%positive = Some ms /\
  (exists out h',
     calculateYoY_heap h 1 = Ok (out, h') /\
     calculateYoY fs = Ok out /\
     h' !! 1%positive = Some fs /\
     forall a, is_Some (h !! a) -> h' !! a = h !! a) /\
  (exists r h',
     calculateCAGR_heap h 1 = Ok (r, h') /\
     calculateCAGR fs = Ok r /\
     h' !! 1%positive = Some fs /\
     forall a, is_Some (h !! a) -> h' !! a = h !! a) /\
  (exists r hm',
     calculateCAGRFromMetrics_heap hm 1 = Ok (r, hm') /\
     calculateCAGRFromMetrics ms = Ok r /\
     hm' !! 1%positive = Some ms /\
     forall a, is_Some (hm !! a) -> hm' !! a = hm !! a).
Proof.
  intros fs ms h hm.
  assert (Hf : h !! 1%positive = Some fs) by reflexivity.
  assert (Hm : hm !! 1%positive = Some ms) by reflexivity.
  split; [exact Hf|]. split; [exact Hm|].
  exact (input_array_unchanged h hm 1 1 fs ms Hf Hm).
Defined.





(** ** The matcher *)

Lemma text_between_app st st' t :
  consumed st' = rev t ++ consumed st -> text_between st st' = t.
Proof.
  intros H. unfold text_between. rewrite H.
  rewrite length_app, length_rev.
  replace (length t + length (consumed st) - length (consumed st))%nat
    with (length (rev t)) by (rewrite length_rev; lia).
  by rewrite take_app_length, rev_involutive.
Qed.

Lemma step_char_Some p k st res :
  step_char p k st = Some res ->
  exists c rest,
    remaining st = c :: rest /\ p c = true /\
    k {| consumed := c :: consumed st; remaining := rest;
         group1 := group1 st |} = Some res.
Proof.
  unfold step_char. destruct (remaining st) as [|c rest]; [done|].
  destruct (p c) eqn:Hp; [|done]. intros H. by exists c, rest.
Qed.

Lemma star_loop_Some p k after :
  forall before g res,
    star_loop p k before after g = Some res ->
    exists t rest,
      after = t ++ rest /\
      k {| consumed := rev t ++ before; remaining := rest; group1 := g |}
      = Some res.
Proof.
  induction after as [|c after IH]; simpl; intros before g res H.
  - by exists [], [].
  - destruct (p c).
    + destruct (star_loop p k (c :: before) after g) as [r|] eqn:Hr.
      * destruct (IH _ _ _ Hr) as (t & rest & -> & Hk).
        exists (c :: t), rest. split; [done|].
        simpl. rewrite <- app_assoc. simpl. congruence.
      * by exists [], (c :: after).
    + by exists [], (c :: after).
Qed.

(** Every successful match continues from a later position of the same
    input; a pattern without the group leaves the capture as it was. *)
Lemma rmatch_sound ignoreCase r :
  forall k st res,
    rmatch ignoreCase r k st = Some res ->
    exists st1 t,
      k st1 = Some res /\
      consumed st1 = rev t ++ consumed st /\
      remaining st = t ++ remaining st1 /\
      (has_group r = false -> group1 st1 = group1 st).
Proof.
  induction r as [|c|p|p|r1 IH1 r2 IH2|r IH|]; simpl; intros k st res H.
  - by exists st, [].
  - apply step_char_Some in H as (a & rest & Hrem & _ & Hk).
    eexists _, [a]. by split; [exact Hk|].
  - apply step_char_Some in H as (a & rest & Hrem & _ & Hk).
    eexists _, [a]. by split; [exact Hk|].
  - apply step_char_Some in H as (a & rest & Hrem & _ & Hk). simpl in Hk.
    apply star_loop_Some in Hk as (t & rest' & -> & Hk).
    eexists _, (a :: t). split; [exact Hk|]. simpl.
    split; [by rewrite <- app_assoc|]. by split.
  - apply IH1 in H as (st1 & t1 & Hk1 & Hc1 & Hr1 & Hg1).
    apply IH2 in Hk1 as (st2 & t2 & Hk2 & Hc2 & Hr2 & Hg2).
    exists st2, (t1 ++ t2). split; [done|].
    split; [by rewrite Hc2, Hc1, rev_app_distr, app_assoc|].
    split; [by rewrite Hr1, Hr2, app_assoc|].
    intros Hg. apply orb_false_iff in Hg as [Ha Hb].
    by rewrite Hg2, Hg1.
  - apply IH in H as (st1 & t & Hk & Hc & Hr & _).
    eexists _, t. by split; [exact Hk|].
  - destruct (xorb _ _); [|done]. by exists st, [].
Qed.

(** The group [([^']+)] always captures at least one character. *)
Lemma rmatch_group_plus ignoreCase p k st res :
  rmatch ignoreCase (RGroup (RPlus p)) k st = Some res ->
  exists st1 c g, k st1 = Some res /\ group1 st1 = Some (c :: g).
Proof.
  simpl. intros H.
  apply step_char_Some in H as (a & rest & Hrem & _ & Hk). simpl in Hk.
  apply star_loop_Some in Hk as (t & rest' & -> & Hk). simpl in Hk.
  eexists _, a, t. split; [exact Hk|]. simpl. f_equal.
  apply text_between_app. simpl. by rewrite <- app_assoc.
Qed.

Lemma has_group_literal s : has_group (literal s) = false.
Proof. unfold literal. induction (js s) as [|c l IH]; simpl; done. Qed.

Lemma exec_from_Some ignoreCase r after :
  forall before m,
    exec_from ignoreCase r before after = Some m ->
    exists a1 a2 st',
      after = a1 ++ a2 /\
      rmatch ignoreCase r Some
        {| consumed := rev a1 ++ before; remaining := a2; group1 := None |}
      = Some st' /\
      match_1 m = group1 st' /\
      forall b1 b2, after = b1 ++ b2 -> (length b1 < length a1)%nat ->
        rmatch ignoreCase r Some
          {| consumed := rev b1 ++ before; remaining := b2; group1 := None |}
        = None.
Proof.
  induction after as [|c after IH]; intros before m; simpl.
  - destruct (rmatch _ _ _ _) as [st'|] eqn:Hm; [|done].
    intros [= <-]. exists [], [], st'. split; [done|]. split; [done|].
    split; [done|]. intros b1 b2 _ Hlt. simpl in Hlt. lia.
  - destruct (rmatch _ _ _ _) as [st'|] eqn:Hm.
    + intros [= <-]. exists [], (c :: after), st'. split; [done|].
      split; [done|]. split; [done|]. intros b1 b2 _ Hlt. simpl in Hlt. lia.
    + intros H. apply IH in H as (a1 & a2 & st' & -> & Hr & Hm1 & Hmin).
      exists (c :: a1), a2, st'. split; [done|]. simpl.
      rewrite <- app_assoc. split; [done|]. split; [done|].
      intros [|b b1] b2 Hb Hlt; simpl in *.
      * by subst b2.
      * injection Hb as Hcb Hab. subst b. rewrite <- app_assoc.
        apply Hmin; [done|lia].
Qed.

Lemma exec_from_None ignoreCase r after :
  forall before,
    exec_from ignoreCase r before after = None ->
    forall a1 a2, after = a1 ++ a2 ->
      rmatch ignoreCase r Some
        {| consumed := rev a1 ++ before; remaining := a2; group1 := None |}
      = None.
Proof.
  induction after as [|c after IH]; intros before; simpl.
  - destruct (rmatch _ _ _ _) eqn:Hm; [done|]. intros _ a1 a2 Ha.
    symmetry in Ha. apply app_eq_nil in Ha as [-> ->]. done.
  - destruct (rmatch _ _ _ _) eqn:Hm; [done|]. intros H [|a a1] a2 Ha.
    + simpl in *. by subst a2.
    + simpl in Ha. injection Ha as -> ->. simpl. rewrite <- app_assoc.
      by apply IH.
Qed.

Lemma exec_from_complete ignoreCase r after :
  forall before a1 a2 st',
    after = a1 ++ a2 ->
    rmatch ignoreCase r Some
      {| consumed := rev a1 ++ before; remaining := a2; group1 := None |}
    = Some st' ->
    exists m, exec_from ignoreCase r before after = Some m.
Proof.
  intros before a1 a2 st' Ha Hm.
  destruct (exec_from ignoreCase r before after) as [m|] eqn:He; [by eexists|].
  rewrite (exec_from_None _ _ _ _ He a1 a2 Ha) in Hm. done.
Qed.

(** ** Year extraction *)

Lemma is_digit_word c : is_digit c = true -> is_word_char c = true.
Proof.
  unfold is_digit, is_word_char. intros ->.
  by rewrite orb_true_r.
Qed.

Lemma is_digit_cases c :
  is_digit c = true ->
  In c [48; 49; 50; 51; 52; 53; 54; 55; 56; 57]%N.
Proof.
  unfold is_digit. intros H. apply andb_true_iff in H as [H1 H2].
  apply N.leb_le in H1, H2. simpl.
  assert (c = 48 \/ c = 49 \/ c = 50 \/ c = 51 \/ c = 52 \/ c = 53 \/ c = 54
          \/ c = 55 \/ c = 56 \/ c = 57)%N by lia.
  intuition.
Qed.

Lemma parseInt_year d1 d2 :
  is_digit d1 = true -> is_digit d2 = true ->
  parseInt [50; 48; d1; d2]%N
  = Some (2000 + 10 * digit_value d1 + digit_value d2)%Z.
Proof.
  intros H1 H2. apply is_digit_cases in H1, H2. simpl in H1, H2.
  repeat (destruct H1 as [<-|H1]); try done;
    repeat (destruct H2 as [<-|H2]); try done; reflexivity.
Qed.

Lemma starts_with_word_rev a :
  starts_with_word (rev a ++ []) = ends_with_word a.
Proof.
  rewrite app_nil_r. unfold starts_with_word, ends_with_word.
  destruct a as [|x a _] using rev_ind; [done|].
  by rewrite rev_app_distr, last_snoc.
Qed.

Lemma year_rmatch_Some before after st' :
  rmatch false yearPattern Some
    {| consumed := before; remaining := after; group1 := None |} = Some st' ->
  exists d1 d2 post,
    after = 50%N :: 48%N :: d1 :: d2 :: post /\
    is_digit d1 = true /\ is_digit d2 = true /\
    starts_with_word before = false /\ starts_with_word post = false /\
    group1 st' = Some [50; 48; d1; d2]%N.
Proof.
  unfold yearPattern. cbn [rmatch]. intros H.
  destruct (xorb _ _) eqn:Hx in H; [|done].
  apply step_char_Some in H as (c1 & r1 & Hr1 & Hc1 & H).
  apply step_char_Some in H as (c2 & r2 & Hr2 & Hc2 & H).
  apply step_char_Some in H as (d1 & r3 & Hr3 & Hd1 & H).
  apply step_char_Some in H as (d2 & post & Hr4 & Hd2 & H).
  simpl in *. subst after r1 r2 r3.
  apply N.eqb_eq in Hc1, Hc2. unfold canonicalize in Hc1, Hc2.
  simpl in Hc1, Hc2. subst c1 c2.
  unfold word_before, word_after in *. simpl in *.
  rewrite (is_digit_word _ Hd2) in H.
  exists d1, d2, post. split; [done|]. split; [done|]. split; [done|].
  fold (starts_with_word before) in Hx. fold (starts_with_word post) in H.
  destruct (starts_with_word before); [done|].
  destruct (starts_with_word post); [done|]. simpl in H.
  injection H as <-. simpl. repeat split. f_equal.
  by apply text_between_app.
Qed.

Lemma year_rmatch_complete before d1 d2 post :
  is_digit d1 = true -> is_digit d2 = true ->
  starts_with_word before = false -> starts_with_word post = false ->
  exists st',
    rmatch false yearPattern Some
      {| consumed := before; remaining := 50%N :: 48%N :: d1 :: d2 :: post;
         group1 := None |} = Some st'.
Proof.
  intros Hd1 Hd2 Hb Hp. unfold yearPattern. cbn [rmatch].
  unfold word_before at 1, word_after at 1. simpl consumed. simpl remaining.
  fold (starts_with_word before). rewrite Hb. simpl xorb. cbv iota.
  unfold step_char. simpl. rewrite Hd1, Hd2.
  unfold word_before, word_after. simpl.
  rewrite (is_digit_word _ Hd2). fold (starts_with_word post). rewrite Hp.
  simpl. by eexists.
Qed.

Lemma year_token_unique q i y y' :
  year_token_at q i y -> year_token_at q i y' -> y = y'.
Proof.
  intros (pre & d1 & d2 & post & Hq & Hi & _ & _ & _ & _ & ->)
         (pre' & d1' & d2' & post' & Hq' & Hi' & _ & _ & _ & _ & ->).
  rewrite Hq in Hq'. apply app_inj_1 in Hq' as [_ Hq']; [|congruence].
  by injection Hq' as -> -> _.
Qed.

(** [extractYear] returns the year of the leftmost standalone token. *)
Lemma extractYear_Some question y :
  extractYear question = Some y <->
  exists i, year_token_at question i y /\
            forall j y', year_token_at question j y' -> (i <= j)%nat.
Proof.
  assert (Hfwd : forall m, String_match false yearPattern question = Some m ->
    exists i y0, parseInt (default (js "undefined") (match_1 m)) = Some y0 /\
      year_token_at question i y0 /\
      forall j y', year_token_at question j y' -> (i <= j)%nat).
  { intros m Hm. apply exec_from_Some in Hm as (a1 & a2 & st' & Hq & Hr & Hm1 & Hmin).
    apply year_rmatch_Some in Hr as (d1 & d2 & post & -> & Hd1 & Hd2 & Hb & Hp & Hg).
    rewrite starts_with_word_rev in Hb.
    exists (length a1), (2000 + 10 * digit_value d1 + digit_value d2)%Z.
    split; [rewrite Hm1, Hg; by apply parseInt_year|]. split.
    - by exists a1, d1, d2, post.
    - intros j y' (pre & e1 & e2 & post' & Hq' & Hj & He1 & He2 & Hb' & Hp' & _).
      destruct (Nat.le_gt_cases (length a1) j) as [|Hlt]; [done|].
      rewrite <- starts_with_word_rev in Hb'.
      destruct (year_rmatch_complete _ e1 e2 post' He1 He2 Hb' Hp') as [st2 Hst2].
      rewrite (Hmin pre (50 :: 48 :: e1 :: e2 :: post')%N) in Hst2;
        [done|exact Hq'|lia]. }
  unfold extractYear. split.
  - destruct (String_match false yearPattern question) as [m|] eqn:Hm; [|done].
    destruct (Hfwd m eq_refl) as (i & y0 & Hp & Htok & Hmin).
    rewrite Hp. intros [= <-]. by exists i.
  - intros (i & (pre & d1 & d2 & post & Hq & Hi & Hd1 & Hd2 & Hb & Hp & Hy) & Hmin).
    assert (Htok : year_token_at question i y)
      by (by exists pre, d1, d2, post).
    rewrite <- starts_with_word_rev in Hb.
    destruct (year_rmatch_complete _ d1 d2 post Hd1 Hd2 Hb Hp) as [st2 Hst2].
    destruct (exec_from_complete false yearPattern question [] pre
                (50 :: 48 :: d1 :: d2 :: post)%N st2 Hq Hst2) as [m Hm].
    unfold String_match. rewrite Hm.
    destruct (Hfwd m Hm) as (i0 & y0 & Hpi & Htok0 & Hmin0).
    rewrite Hpi. f_equal.
    assert (i0 = i) as -> by (apply Nat.le_antisymm; eauto).
    by eapply year_token_unique.
Qed.

Lemma extractYear_None question :
  extractYear question = None <-> ~ exists i y, year_token_at question i y.
Proof.
  split.
  - intros Hn (i & y & pre & d1 & d2 & post & Hq & Hi & Hd1 & Hd2 & Hb & Hp & Hy).
    unfold extractYear in Hn.
    rewrite <- starts_with_word_rev in Hb.
    destruct (year_rmatch_complete _ d1 d2 post Hd1 Hd2 Hb Hp) as [st2 Hst2].
    destruct (exec_from_complete false yearPattern question [] pre
                (50 :: 48 :: d1 :: d2 :: post)%N st2 Hq Hst2) as [m Hm].
    unfold String_match in Hn. rewrite Hm in Hn.
    apply exec_from_Some in Hm as (a1 & a2 & st' & _ & Hr & Hm1 & _).
    apply year_rmatch_Some in Hr as (e1 & e2 & ? & _ & He1 & He2 & _ & _ & Hg).
    rewrite Hm1, Hg in Hn. simpl default in Hn.
    by rewrite parseInt_year in Hn.
  - intros Hno. destruct (extractYear question) as [y|] eqn:Hy; [|done].
    apply extractYear_Some in Hy as (i & Htok & _). destruct Hno. eauto.
Qed.

Lemma year_token_range q i y : year_token_at q i y -> (2000 <= y <= 2099)%Z.
Proof.
  intros (pre & d1 & d2 & post & _ & _ & Hd1 & Hd2 & _ & _ & ->).
  apply is_digit_cases in Hd1, Hd2. unfold digit_value. simpl in Hd1, Hd2.
  repeat (destruct Hd1 as [<-|Hd1]); try done;
    repeat (destruct Hd2 as [<-|Hd2]); try done; lia.
Qed.

Lemma POST_MissingYear store question currency :
  question <> [] ->
  POST store (JString question) currency = MissingYear <->
  extractYear question = None \/ extractYear question = Some 0%Z.
Proof.
  intros Hne. destruct question as [|c q]; [done|]. unfold POST, resolve.
  destruct (extractYear (c :: q)) as [[|y|y]|]; [tauto| | |tauto].
  all: split; [|by intros [?|?]].
  all: repeat case_match; try discriminate.
  all: intros [= H]; vm_compute in H; discriminate.
Qed.

Lemma POST_with_year store question currency year :
  extractYear question = Some year ->
  POST store (JString question) currency =
    match extractClubName question with
    | None | Some [] => MissingClubName
    | Some clubName => resolve store clubName year currency
    end.
Proof.
  intros Hy.
  assert (year <> 0%Z) as Hy0.
  { apply extractYear_Some in Hy as (i & Htok & _).
    apply year_token_range in Htok. lia. }
  unfold POST. destruct question as [|c q]; [done|].
  rewrite Hy. by destruct year.
Qed.

(** C6: for a question the endpoint accepts (a non-empty string), the
    pipeline fails with MissingYear if and only if the question has no
    standalone token "20dd"; and when there are such tokens the year
    extracted, with which the rest of the pipeline runs, is the one of
    the leftmost. *)
Theorem year_extraction_first_token
    (store : Store) (question : jsstring) (currency : CurrencyCode) :
  question <> [] ->
  (POST store (JString question) currency = MissingYear <->
   ~ exists i y, year_token_at question i y) /\
  (forall i y,
     year_token_at question i y ->
     (forall j y', year_token_at question j y' -> (i <= j)%nat) ->
     extractYear question = Some y /\
     POST store (JString question) currency =
       match extractClubName question with
       | None | Some [] => MissingClubName
       | Some clubName => resolve store clubName y currency
       end).
Proof.
  intros Hne. split.
  - rewrite (POST_MissingYear _ _ _ Hne), <- extractYear_None.
    split; [|by left]. intros [H|H]; [done|].
    apply extractYear_Some in H as (i & Htok & _).
    apply year_token_range in Htok. lia.
  - intros i y Htok Hmin.
    assert (Hy : extractYear question = Some y)
      by (apply extractYear_Some; by exists i).
    split; [done|]. by apply POST_with_year.
Qed.

Lemma year_extraction_first_token_witness :
  let question := js "Compare 12022, 2021 and 2022 revenue" in
  question <> [] /\
  (POST sample_store (JString question) GBP = MissingYear <->
   ~ exists i y, year_token_at question i y) /\
  (forall i y,
     year_token_at question i y ->
     (forall j y', year_token_at question j y' -> (i <= j)%nat) ->
     extractYear question = Some y /\
     POST sample_store (JString question) GBP =
       match extractClubName question with
       | None | Some [] => MissingClubName
       | Some clubName => resolve sample_store clubName y GBP
       end).
Proof.
  intros question.
  assert (H : question <> []) by discriminate.
  split; [exact H|].
  exact (year_extraction_first_token sample_store question GBP H).
Defined.

Example leftmost_year_token :
  let question := js "Compare 12022, 2021 and 2022 revenue" in
  year_token_at question 15 2021 /\
  year_token_at question 24 2022 /\
  extractYear question = Some 2021%Z.
Proof.
  split; [|split; [|vm_compute; reflexivity]].
  - exists (js "Compare 12022, "), 50%N, 49%N, (js " and 2022 revenue").
    vm_compute. repeat split; reflexivity.
  - exists (js "Compare 12022, 2021 and "), 50%N, 50%N, (js " revenue").
    vm_compute. repeat split; reflexivity.
Qed.

(** ** Club-name extraction *)

Lemma capture_nonempty ignoreCase p post k st res :
  has_group post = false ->
  rmatch ignoreCase (RSeq (RGroup (RPlus p)) post) k st = Some res ->
  exists st1 c g, k st1 = Some res /\ group1 st1 = Some (c :: g).
Proof.
  intros Hpost H. change (rmatch ignoreCase (RGroup (RPlus p))
                            (rmatch ignoreCase post k) st = Some res) in H.
  apply rmatch_group_plus in H as (st1 & c & g & H & Hg).
  apply rmatch_sound in H as (st2 & t & Hk & _ & _ & Hg2).
  exists st2, c, g. split; [done|]. by rewrite Hg2.
Qed.

Lemma capture_nonempty_after ignoreCase pre p post st res :
  has_group post = false ->
  rmatch ignoreCase (RSeq pre (RSeq (RGroup (RPlus p)) post)) Some st
  = Some res ->
  exists c g, group1 res = Some (c :: g).
Proof.
  intros Hpost H.
  change (rmatch ignoreCase pre
            (rmatch ignoreCase (RSeq (RGroup (RPlus p)) post) Some) st
          = Some res) in H.
  apply rmatch_sound in H as (st1 & t & H & _).
  apply capture_nonempty in H as (st2 & c & g & [= ->] & Hg); [|done].
  by exists c, g.
Qed.

Lemma clubPatterns_capture pattern question m :
  In pattern clubPatterns ->
  String_match true pattern question = Some m ->
  exists c g, match_1 m = Some (c :: g).
Proof.
  intros Hin Hm.
  apply exec_from_Some in Hm as (a1 & a2 & st' & _ & Hr & -> & _).
  simpl in Hin. destruct Hin as [<-|[<-|[<-|[]]]].
  - eapply capture_nonempty_after; [|exact Hr]. apply has_group_literal.
  - eapply capture_nonempty_after; [|exact Hr]. apply has_group_literal.
  - apply capture_nonempty in Hr as (st2 & c & g & [= ->] & Hg);
      [by exists c, g|apply has_group_literal].
Qed.

(** C7: the three patterns are tried in the order "what was <name>'s
    revenue", "tell me about <name>'s revenue", "<name> revenue", all
    case-insensitive; a pattern that matches always captures a non-empty
    fragment, and the first one that matches gives the name, trimmed --
    in particular rule 1 whenever it matches, whatever rule 3 does; when
    none matches the name stays null and the pipeline, once it has a
    year, fails with MissingClubName; a non-empty name goes on to the
    club lookup. *)
Theorem club_name_first_pattern_wins (question : jsstring) :
  clubPatterns = [whatWasPattern; tellMeAboutPattern; catchAllPattern] /\
  (forall pattern m,
     In pattern clubPatterns ->
     String_match true pattern question = Some m ->
     exists c g, match_1 m = Some (c :: g)) /\
  (forall m,
     String_match true whatWasPattern question = Some m ->
     extractClubName question = trim <$> match_1 m) /\
  (String_match true whatWasPattern question = None ->
   forall m,
     String_match true tellMeAboutPattern question = Some m ->
     extractClubName question = trim <$> match_1 m) /\
  (String_match true whatWasPattern question = None ->
   String_match true tellMeAboutPattern question = None ->
   forall m,
     String_match true catchAllPattern question = Some m ->
     extractClubName question = trim <$> match_1 m) /\
  (String_match true whatWasPattern question = None ->
   String_match true tellMeAboutPattern question = None ->
   String_match true catchAllPattern question = None ->
   extractClubName question = None /\
   forall store currency year,
     extractYear question = Some year ->
     POST store (JString question) currency = MissingClubName) /\
  (forall store currency year c name,
     extractYear question = Some year ->
     extractClubName question = Some (c :: name) ->
     POST store (JString question) currency
     = resolve store (c :: name) year currency).
Proof.
  split; [done|]. split; [intros; by eapply clubPatterns_capture|].
  assert (Hloop : extractClubName question =
            extractClubName_from
              [whatWasPattern; tellMeAboutPattern; catchAllPattern] question)
    by done.
  split; [|split; [|split; [|split]]].
  - intros m Hm. rewrite Hloop. simpl. rewrite Hm.
    destruct (clubPatterns_capture whatWasPattern question m) as (c & g & ->);
      [simpl; tauto|done|done].
  - intros H1 m Hm. rewrite Hloop. simpl. rewrite H1, Hm.
    destruct (clubPatterns_capture tellMeAboutPattern question m) as (c & g & ->);
      [simpl; tauto|done|done].
  - intros H1 H2 m Hm. rewrite Hloop. simpl. rewrite H1, H2, Hm.
    destruct (clubPatterns_capture catchAllPattern question m) as (c & g & ->);
      [simpl; tauto|done|done].
  - intros H1 H2 H3.
    assert (Hnone : extractClubName question = None)
      by (rewrite Hloop; simpl; by rewrite H1, H2, H3).
    split; [done|]. intros store currency year Hy.
    by rewrite (POST_with_year _ _ _ _ Hy), Hnone.
  - intros store currency year c name Hy Hn.
    by rewrite (POST_with_year _ _ _ _ Hy), Hn.
Qed.

Example what_was_beats_catch_all :
  let question := js "So what was West Ham's revenue, not Spurs revenue, in 2022?" in
  (match_1 <$> String_match true whatWasPattern question)
    = Some (Some (js "West Ham")) /\
  (match_1 <$> String_match true catchAllPattern question)
    = Some (Some (js "s revenue, not Spurs")) /\
  extractClubName question = Some (js "West Ham").
Proof. vm_compute. done. Qed.

(** ** Formatting *)

Lemma uint_digits_digit u : forallb is_digit (uint_digits u) = true.
Proof. induction u; simpl; by rewrite ?IHu. Qed.

Lemma decimal_of_N_digit n : forallb is_digit (decimal_of_N n) = true.
Proof. apply uint_digits_digit. Qed.

Lemma decimal_of_N_nonempty n : decimal_of_N n <> [].
Proof.
  unfold decimal_of_N. destruct n as [|p]; [done|]. simpl.
  pose proof (DecimalPos.Unsigned.to_uint_nonnil p) as Hp.
  by destruct (Pos.to_uint p).
Qed.

Lemma decimal_of_N_small n : (n < 1000)%N -> (length (decimal_of_N n) <= 3)%nat.
Proof.
  intros Hn.
  assert (H : forallb (fun k => (length (decimal_of_N (N.of_nat k)) <=? 3)%nat)
                (seq 0 1000) = true) by (vm_compute; reflexivity).
  rewrite forallb_forall in H.
  specialize (H (N.to_nat n)). rewrite N2Nat.id in H.
  apply Nat.leb_le, H, in_seq. lia.
Qed.

Lemma forallb_rev {A : Type} (p : A -> bool) l :
  forallb p (rev l) = forallb p l.
Proof.
  induction l as [|a l IH]; simpl; [done|].
  rewrite forallb_app, IH. simpl. rewrite andb_true_r. apply andb_comm.
Qed.

Lemma drop_zeros_cons c s :
  drop_zeros (c :: s) = drop_zeros s \/ drop_zeros (c :: s) = c :: s.
Proof.
  destruct c as [|p]; [by right|].
  repeat (destruct p as [p|p|]; try (by right)). by left.
Qed.

Lemma drop_zeros_digit s :
  forallb is_digit s = true -> forallb is_digit (drop_zeros s) = true.
Proof.
  induction s as [|c s IH]; [done|]. intros H.
  destruct (drop_zeros_cons c s) as [-> | ->]; [|done].
  simpl in H. apply andb_true_iff in H as [_ H]. by apply IH.
Qed.

Lemma drop_zeros_length s : (length (drop_zeros s) <= length s)%nat.
Proof.
  induction s as [|c s IH]; [done|].
  destruct (drop_zeros_cons c s) as [-> | ->]; simpl; lia.
Qed.

Lemma zeros_digit n : forallb is_digit (zeros n) = true.
Proof. induction n; simpl; done. Qed.

(** *** Thousands separators *)

Lemma group_rev_short r : (length r <= 3)%nat -> group_rev r 0 = r.
Proof. destruct r as [|a [|b [|c [|d r]]]]; simpl; try done. lia. Qed.

Lemma group_rev_long a b c d r :
  group_rev (a :: b :: c :: d :: r) 0
  = a :: b :: c :: 44%N :: group_rev (d :: r) 0.
Proof. reflexivity. Qed.

Lemma group_thousands_grouped ds :
  ds <> [] -> forallb is_digit ds = true ->
  thousands_grouped (group_thousands ds).
Proof.
  unfold group_thousands. intros Hne Hd.
  assert (Hr : rev ds <> []).
  { intros H. apply (f_equal (@rev N)) in H. by rewrite rev_involutive in H. }
  rewrite <- forallb_rev in Hd. clear Hne.
  remember (length (rev ds)) as n eqn:Hn.
  assert (Hle : (length (rev ds) <= n)%nat) by lia. clear Hn.
  revert Hr Hd Hle. generalize (rev ds) as r. clear ds.
  induction n as [n IH] using lt_wf_ind. intros r Hr Hd Hle.
  destruct r as [|a [|b [|c [|d r]]]]; [done| | | |].
  - apply grouped_first; [simpl; lia|]. by rewrite forallb_rev.
  - apply grouped_first; [simpl; lia|]. by rewrite forallb_rev.
  - apply grouped_first; [simpl; lia|]. by rewrite forallb_rev.
  - rewrite group_rev_long.
    replace (rev (a :: b :: c :: 44%N :: group_rev (d :: r) 0))
      with (rev (group_rev (d :: r) 0) ++ [44%N; c; b; a])
      by (simpl; by rewrite <- !app_assoc).
    simpl in Hd. apply andb_true_iff in Hd as [Ha Hd].
    apply andb_true_iff in Hd as [Hb Hd].
    apply andb_true_iff in Hd as [Hc Hd].
    apply grouped_next.
    + apply (IH (n - 3)%nat); [simpl in Hle; lia|done|done|simpl in *; lia].
    + simpl. by rewrite Ha, Hb, Hc.
Qed.

Lemma thousands_grouped_no_point s :
  thousands_grouped s -> forallb not_point s = true.
Proof.
  assert (Hd : forall l, forallb is_digit l = true -> forallb not_point l = true).
  { induction l as [|c l IHl]; simpl; [done|]. intros H.
    apply andb_true_iff in H as [Hc Hl]. rewrite (IHl Hl), andb_true_r.
    unfold is_digit in Hc. unfold not_point.
    apply andb_true_iff in Hc as [H1 H2]. apply N.leb_le in H1, H2.
    apply negb_true_iff, N.eqb_neq. lia. }
  induction 1 as [ds _ H|s d1 d2 d3 _ IH H]; [by apply Hd|].
  rewrite forallb_app, IH. pose proof (Hd _ H) as H'.
  change (forallb not_point [44%N; d1; d2; d3])
    with (forallb not_point [d1; d2; d3]). by rewrite H'.
Qed.

Lemma span_all p s : forallb p s = true -> span p s = (s, []).
Proof.
  induction s as [|c s IH]; simpl; [done|]. intros H.
  apply andb_true_iff in H as [-> Hs]. by rewrite (IH Hs).
Qed.

Lemma span_until p a c b :
  forallb p a = true -> p c = false -> span p (a ++ c :: b) = (a, c :: b).
Proof.
  induction a as [|x a IH]; simpl; intros Ha Hc; [by rewrite Hc|].
  apply andb_true_iff in Ha as [-> Ha]. by rewrite (IH Ha Hc).
Qed.

(** The shape of a formatted finite amount. *)
Lemma toLocaleString_finite x :
  is_finite x = true ->
  exists ip fp,
    Number_toLocaleString x
    = (if get_sign x then [45%N] else []) ++ group_thousands ip
      ++ match fp with [] => [] | _ => 46%N :: fp end /\
    ip <> [] /\ forallb is_digit ip = true /\
    forallb is_digit fp = true /\ (length fp <= 3)%nat.
Proof.
  unfold is_finite. intros Hf. apply negb_true_iff, orb_false_iff in Hf as [Hn Hi].
  unfold Number_toLocaleString. rewrite Hn, Hi.
  set (t := match shortest_decimal (abs x) with
            | Some (ds, n) => thousandths ds n | None => 0%Z end).
  eexists _, _. split; [reflexivity|].
  split; [apply decimal_of_N_nonempty|]. split; [apply decimal_of_N_digit|].
  assert (Hlen : (length (decimal_of_N (Z.to_N (t mod 1000))) <= 3)%nat).
  { apply decimal_of_N_small.
    pose proof (Z.mod_pos_bound t 1000 ltac:(lia)). lia. }
  split.
  - rewrite forallb_rev. apply drop_zeros_digit. rewrite forallb_rev.
    rewrite forallb_app. by rewrite zeros_digit, decimal_of_N_digit.
  - rewrite length_rev. etransitivity; [apply drop_zeros_length|].
    rewrite length_rev, length_app. unfold zeros. rewrite length_replicate.
    lia.
Qed.

Lemma amount_parts sign ip fp :
  (sign = [] \/ sign = [45%N]) ->
  ip <> [] -> forallb is_digit ip = true -> forallb is_digit fp = true ->
  let s := sign ++ group_thousands ip
           ++ match fp with [] => [] | _ => 46%N :: fp end in
  integer_part s = sign ++ group_thousands ip /\ fraction_part s = fp.
Proof.
  intros Hs Hne Hip Hfp s.
  assert (Hnp : forallb not_point (sign ++ group_thousands ip) = true).
  { rewrite forallb_app.
    rewrite (thousands_grouped_no_point _ (group_thousands_grouped _ Hne Hip)).
    by destruct Hs as [->| ->]. }
  unfold integer_part, fraction_part, s. destruct fp as [|d fp].
  - rewrite app_nil_r. by rewrite (span_all _ _ Hnp).
  - rewrite app_assoc. by rewrite (span_until _ _ _ _ Hnp).
Qed.

(** toFixed(1) of a finite number below 10^21 in magnitude: a sign,
    digits, the point and exactly one digit. *)
Lemma toFixed_one_decimal x :
  is_finite x = true -> (1e21 <=? abs x)%float = false ->
  exists ip d,
    Number_toFixed x 1
    = (if (x <? 0)%float then [45%N] else []) ++ ip ++ [46%N; d] /\
    ip <> [] /\ forallb is_digit ip = true /\ is_digit d = true.
Proof.
  intros Hf Hlt. unfold Number_toFixed. rewrite Hf, Hlt. simpl negb. cbv iota.
  set (n := match magnitude (abs x) with
            | Some (num, den) => round_half_up (num * 10 ^ Z.of_nat 1) den
            | None => 0%Z end).
  simpl Nat.eqb. cbv iota.
  set (m0 := decimal_of_N (Z.to_N n)).
  set (m := zeros (1 + 1 - length m0) ++ m0).
  assert (Hm : forallb is_digit m = true).
  { unfold m. rewrite forallb_app, zeros_digit. apply decimal_of_N_digit. }
  assert (Hlen : (2 <= length m)%nat).
  { unfold m. rewrite length_app. unfold zeros. rewrite length_replicate.
    pose proof (decimal_of_N_nonempty (Z.to_N n)). fold m0 in H.
    destruct m0; [done|simpl; lia]. }
  clearbody m. destruct m as [|d m _] using rev_ind; [simpl in Hlen; lia|].
  rewrite length_app in *. simpl in *.
  replace (length m + 1 - 1)%nat with (length m) by lia.
  rewrite take_app_length, drop_app_length.
  rewrite forallb_app in Hm. apply andb_true_iff in Hm as [Hm Hd].
  simpl in Hd. rewrite andb_true_r in Hd.
  exists m, d. split; [done|]. split; [|done].
  destruct m; [simpl in Hlen; lia|done].
Qed.

Lemma POST_Answer store question currency answer :
  POST store question currency = Answer answer ->
  exists q year clubName club withYoY data,
    question = JString q /\
    extractYear q = Some year /\
    extractClubName q = Some clubName /\
    getClubByName store clubName = Some club /\
    getClubFinancialsWithYoY store (Club.id club) = Ok withYoY /\
    Array_find (fun f => (FinancialMetric.year f =? year)%Z) withYoY
    = Some data /\
    answer = formatAnswer club year currency data.
Proof.
  unfold POST, resolve, InvalidQuestion, MissingYear, MissingClubName,
    ClubNotFound,
    YearDataNotFound, YoYCalculationUnavailable, InternalError.
  repeat case_match; try discriminate; intros [= <-]; subst;
    by eexists _, _, _, _, _, _.
Qed.

(** C8 as stated fails: the amount of a successful answer can have
    three decimal places; and a percentage of 10^21 or more is written
    by toFixed in exponent notation, with no decimal place. *)
Lemma answer_amount_three_decimals :
  POST sample_store
    (JString (js "What was Manchester United's revenue in 2023?")) GBP
  = Answer (js "Manchester United's revenue in 2023 was " ++ [pound_sign]
            ++ js "648.375M (GBP). The year-over-year change was +11.2%.") /\
  fraction_part (Number_toLocaleString 648.375%float) = js "375" /\
  ~ (length (fraction_part (Number_toLocaleString 648.375%float)) <= 2)%nat /\
  POST steep_store (JString (js "What was Tiny FC's revenue in 2022?")) GBP
  = Answer (js "Tiny FC's revenue in 2022 was " ++ [pound_sign]
            ++ js "1M (GBP). The year-over-year change was +1e+24%.").
Proof.
  split; [vm_compute; reflexivity|]. split; [vm_compute; reflexivity|].
  split; [vm_compute; lia|]. vm_compute. reflexivity.
Qed.

(** C8, amended: a successful answer is the sentence
    "<Club>'s revenue in <Year> was <Symbol><Amount>M (<CurrencyCode>).
    The year-over-year change was <YoY>."  The amount is the revenue of
    the requested year, converted, in the default en-US format: when it
    is finite, a thousands-grouped integer part and at most 3 decimal
    places.  <YoY> is "N/A (no prior year data)" when yoy_percentage is
    null; otherwise it is the percentage by toFixed(1), with a leading
    "+" when positive, followed by "%", and has exactly one decimal place
    whenever the percentage is finite and below 10^21 in magnitude. *)
Theorem answer_sentence_shape (store : Store) (question : json_value)
    (currency : CurrencyCode) (answer : jsstring) :
  POST store question currency = Answer answer ->
  exists q clubName club year withYoY data amount yoy,
    question = JString q /\
    extractYear q = Some year /\
    extractClubName q = Some clubName /\
    getClubByName store clubName = Some club /\
    getClubFinancialsWithYoY store (Club.id club) = Ok withYoY /\
    Array_find (fun f => (FinancialMetric.year f =? year)%Z) withYoY
    = Some data /\
    answer
    = Club.name club ++ js "'s revenue in " ++ decimal_of_Z year ++ js " was "
      ++ (getCurrencySymbol currency ++ amount ++ js "M")
      ++ js " (" ++ CurrencyCode_text currency
      ++ js "). The year-over-year change was " ++ yoy ++ js "." /\
    (exists v,
       convertCurrency (Some (FinancialMetric.revenue data)) GBP currency
       = Some v /\
       amount = Number_toLocaleString v /\
       (is_finite v = true ->
        (exists ip,
           integer_part amount = (if get_sign v then [45%N] else []) ++ ip /\
           thousands_grouped ip) /\
        forallb is_digit (fraction_part amount) = true /\
        (length (fraction_part amount) <= 3)%nat)) /\
    match FinancialMetric.yoy_percentage data with
    | None => yoy = js "N/A (no prior year data)"
    | Some p =>
        yoy = (if (0 <? p)%float then js "+" else []) ++ Number_toFixed p 1
              ++ js "%" /\
        (is_finite p = true -> (1e21 <=? abs p)%float = false ->
         exists ip d,
           Number_toFixed p 1
           = (if (p <? 0)%float then [45%N] else []) ++ ip ++ [46%N; d] /\
           ip <> [] /\ forallb is_digit ip = true /\ is_digit d = true)
    end.
Proof.
  intros H.
  apply POST_Answer in H
    as (q & year & clubName & club & withYoY & data & -> & Hy & Hc & Hclub
        & Hser & Hfind & ->).
  set (v := if CurrencyCode_eqb GBP currency
            then FinancialMetric.revenue data
            else (FinancialMetric.revenue data / rateFromGBP (CURRENCIES GBP)
                  * rateFromGBP (CURRENCIES currency))%float).
  assert (Hv : convertCurrency (Some (FinancialMetric.revenue data)) GBP currency
               = Some v).
  { unfold convertCurrency, v. by destruct (CurrencyCode_eqb GBP currency). }
  exists q, clubName, club, year, withYoY, data, (Number_toLocaleString v).
  exists (match FinancialMetric.yoy_percentage data with
          | Some p => (if (0 <? p)%float then js "+" else [])
                      ++ Number_toFixed p 1 ++ js "%"
          | None => js "N/A (no prior year data)"
          end).
  repeat (split; [done|]). split; [|split].
  - unfold formatAnswer. by rewrite Hv.
  - exists v. split; [done|]. split; [done|]. intros Hfin.
    destruct (toLocaleString_finite v Hfin) as (ip & fp & -> & Hne & Hip & Hfp & Hlen).
    destruct (amount_parts (if get_sign v then [45%N] else []) ip fp)
      as [-> ->]; try done.
    { destruct (get_sign v); auto. }
    split; [|done]. eexists. split; [done|].
    by apply group_thousands_grouped.
  - destruct (FinancialMetric.yoy_percentage data) as [p|]; [|done].
    split; [done|]. intros Hfin Hlt. by apply toFixed_one_decimal.
Qed.

Lemma answer_sentence_shape_witness :
  let question := JString (js "Tell me about MANCHESTER united's revenue in 2022") in
  let answer := js "Manchester United's revenue in 2022 was " ++ [euro_sign]
                ++ js "682.11M (EUR). The year-over-year change was +18.0%." in
  POST sample_store question EUR = Answer answer /\
  exists q clubName club year withYoY data amount yoy,
    question = JString q /\
    extractYear q = Some year /\
    extractClubName q = Some clubName /\
    getClubByName sample_store clubName = Some club /\
    getClubFinancialsWithYoY sample_store (Club.id club) = Ok withYoY /\
    Array_find (fun f => (FinancialMetric.year f =? year)%Z) withYoY
    = Some data /\
    answer
    = Club.name club ++ js "'s revenue in " ++ decimal_of_Z year ++ js " was "
      ++ (getCurrencySymbol EUR ++ amount ++ js "M")
      ++ js " (" ++ CurrencyCode_text EUR
      ++ js "). The year-over-year change was " ++ yoy ++ js "." /\
    (exists v,
       convertCurrency (Some (FinancialMetric.revenue data)) GBP EUR
       = Some v /\
       amount = Number_toLocaleString v /\
       (is_finite v = true ->
        (exists ip,
           integer_part amount = (if get_sign v then [45%N] else []) ++ ip /\
           thousands_grouped ip) /\
        forallb is_digit (fraction_part amount) = true /\
        (length (fraction_part amount) <= 3)%nat)) /\
    match FinancialMetric.yoy_percentage data with
    | None => yoy = js "N/A (no prior year data)"
    | Some p =>
        yoy = (if (0 <? p)%float then js "+" else []) ++ Number_toFixed p 1
              ++ js "%" /\
        (is_finite p = true -> (1e21 <=? abs p)%float = false ->
         exists ip d,
           Number_toFixed p 1
           = (if (p <? 0)%float then [45%N] else []) ++ ip ++ [46%N; d] /\
           ip <> [] /\ forallb is_digit ip = true /\ is_digit d = true)
    end.
Proof.
  intros question answer.
  assert (H : POST sample_store question EUR = Answer answer)
    by (vm_compute; reflexivity).
  split; [exact H|].
  exact (answer_sentence_shape sample_store question EUR answer H).
Defined.



(* ===================================================================== *)
(** * Part IV.  Further properties                                        *)
(* ===================================================================== *)

(** ** The order of the input records *)

Section OrderFacts.
Context {A : Type} (key : A -> Z).

Lemma filter_key_at_most_one y l :
  NoDup (List.map key l) ->
  (length (List.filter (fun a => (key a =? y)%Z) l) <= 1)%nat.
Proof.
  induction l as [|a l IH]; simpl; [lia|].
  rewrite NoDup_cons. intros [Ha Hnd].
  destruct (Z.eqb_spec (key a) y) as [<-|]; [|by apply IH].
  rewrite filter_key_none; [simpl; lia|].
  apply Forall_forall. intros x Hx Heq. apply Ha. rewrite <- Heq.
  apply list_elem_of_In, in_map, list_elem_of_In, Hx.
Qed.

Lemma filter_Permutation_key (f : A -> bool) l1 l2 :
  Permutation l1 l2 -> Permutation (List.filter f l1) (List.filter f l2).
Proof.
  induction 1 as [|x l l' _ IH|x y l|l l' l'' _ IH1 _ IH2]; simpl.
  - constructor.
  - destruct (f x); [by constructor|done].
  - destruct (f x), (f y); try done; by constructor.
  - by etrans.
Qed.

(** With distinct keys, the sort forgets the order of its input. *)
Lemma Array_sort_order_independent l1 l2 :
  Permutation l1 l2 -> NoDup (List.map key l1) ->
  Array_sort (by_year key) l1 = Array_sort (by_year key) l2.
Proof.
  intros Hp Hnd. apply Array_sort_unique; [apply Array_sort_Sorted|].
  intros y. rewrite Array_sort_filter.
  pose proof (filter_key_at_most_one y l1 Hnd) as Hlen.
  pose proof (filter_Permutation_key (fun a => (key a =? y)%Z) _ _ Hp) as Hf.
  destruct (List.filter _ l1) as [|a [|b t]]; simpl in Hlen; [| |lia].
  - by apply Permutation_nil in Hf.
  - by apply Permutation_length_1_inv in Hf.
Qed.
End OrderFacts.

(** X1: when no two records have the same year, calculateYoY returns
    the same metrics for every order in which the records are given. *)
Theorem calculateYoY_order_independent (fs1 fs2 : list Financial.t) :
  Permutation fs1 fs2 -> NoDup (List.map Financial.year fs1) ->
  calculateYoY fs1 = calculateYoY fs2.
Proof.
  intros Hp Hnd. unfold calculateYoY.
  by rewrite (Array_sort_order_independent Financial.year fs1 fs2 Hp Hnd).
Qed.

Lemma calculateYoY_order_independent_witness :
  let fs1 := sample_financials in
  let fs2 := rev sample_financials in
  Permutation fs1 fs2 /\ NoDup (List.map Financial.year fs1) /\
  calculateYoY fs1 = calculateYoY fs2.
Proof.
  intros fs1 fs2.
  assert (Hp : Permutation fs1 fs2) by apply Permutation_rev.
  assert (Hnd : NoDup (List.map Financial.year fs1))
    by (apply (bool_decide_unpack _); vm_compute; exact I).
  split; [exact Hp|]. split; [exact Hnd|].
  exact (calculateYoY_order_independent fs1 fs2 Hp Hnd).
Defined.

(** Records of the same year keep their input order, so with a repeated
    year the order of the input shows in the result. *)
Example calculateYoY_repeated_year :
  let a := createFinancial 1 1 2021 "100" "0" "0" None in
  let b := createFinancial 2 1 2021 "200" "0" "0" None in
  Permutation [a; b] [b; a] /\
  yoy_columns (calculateYoY [a; b]) <> yoy_columns (calculateYoY [b; a]).
Proof. split; [apply perm_swap|by vm_compute]. Qed.

(** X2: when no two records have the same year, calculateCAGR and
    calculateCAGRFromMetrics return the same result for every order in
    which the records are given. *)
Theorem calculateCAGR_order_independent :
  (forall fs1 fs2 : list Financial.t,
     Permutation fs1 fs2 -> NoDup (List.map Financial.year fs1) ->
     calculateCAGR fs1 = calculateCAGR fs2) /\
  (forall ms1 ms2 : list FinancialMetric.t,
     Permutation ms1 ms2 -> NoDup (List.map FinancialMetric.year ms1) ->
     calculateCAGRFromMetrics ms1 = calculateCAGRFromMetrics ms2).
Proof.
  split; intros l1 l2 Hp Hnd.
  - unfold calculateCAGR. rewrite (Permutation_length Hp).
    by rewrite (Array_sort_order_independent Financial.year l1 l2 Hp Hnd).
  - unfold calculateCAGRFromMetrics. rewrite (Permutation_length Hp).
    by rewrite (Array_sort_order_independent FinancialMetric.year l1 l2 Hp Hnd).
Qed.

(** X3: the CAGR is computed from the first and the last record in year
    order alone: with at least two records, calculateCAGR returns what it
    returns on those two records. *)
Theorem calculateCAGR_ends_only (financials : list Financial.t)
    (first last_ : Financial.t) :
  (2 <= length financials)%nat ->
  Array_sort (by_year Financial.year) financials !! 0%nat = Some first ->
  last (Array_sort (by_year Financial.year) financials) = Some last_ ->
  calculateCAGR financials = calculateCAGR [first; last_].
Proof.
  intros Hlen Hf Hl. unfold calculateCAGR.
  destruct (Nat.ltb_spec (length financials) 2) as [|_]; [lia|].
  rewrite (cagr_of_sorted_unfold _ _ _ _ _ Hf Hl).
  pose proof (sorted_ends Financial.year _ _ _
                (Array_sort_Sorted Financial.year financials) Hf Hl) as Hle.
  rewrite (Array_sort_sorted Financial.year [first; last_]).
  - by rewrite (cagr_of_sorted_unfold _ _ [first; last_] first last_).
  - simpl. repeat constructor. done.
Qed.

Lemma calculateCAGR_ends_only_witness :
  let first := createFinancial 10 1 2021 "494.0" "0" "0" None in
  let last_ := createFinancial 12 1 2023 "648.375" "0" "0" None in
  (2 <= length sample_financials)%nat /\
  Array_sort (by_year Financial.year) sample_financials !! 0%nat = Some first /\
  last (Array_sort (by_year Financial.year) sample_financials) = Some last_ /\
  calculateCAGR sample_financials = calculateCAGR [first; last_].
Proof.
  intros first last_.
  assert (H1 : (2 <= length sample_financials)%nat) by (simpl; lia).
  assert (H2 : Array_sort (by_year Financial.year) sample_financials !! 0%nat
               = Some first) by reflexivity.
  assert (H3 : last (Array_sort (by_year Financial.year) sample_financials)
               = Some last_) by reflexivity.
  split; [exact H1|]. split; [exact H2|]. split; [exact H3|].
  exact (calculateCAGR_ends_only sample_financials first last_ H1 H2 H3).
Defined.

(** ** Records that arrive in year order

    [getAllClubFinancials] asks the database for the seasons of a club
    ordered by year ([orderBy(asc(financials.year))]). *)

(** X4: on records that are already in year order, as the query
    returns them, calculateYoY emits the metrics in the order of the
    input: the i-th metric carries the fields of the i-th record, and
    from the second on its yoy_change is the revenue of the i-th record
    minus that of the record before it in the input. *)
Theorem calculateYoY_of_ordered (financials : list Financial.t) :
  Sorted Z.le (List.map Financial.year financials) ->
  exists out,
    calculateYoY financials = Ok out /\
    Forall2 emitted_for financials out /\
    forall i previous current m,
      financials !! i = Some previous ->
      financials !! S i = Some current ->
      out !! S i = Some m ->
      FinancialMetric.yoy_change m
      = Some (toNumber (Financial.revenue current)
              - toNumber (Financial.revenue previous))%float.
Proof.
  intros Hs.
  destruct (calculateYoY_entries financials) as (out & Hout & Hlen & Hi).
  rewrite (Array_sort_sorted Financial.year financials Hs) in Hi.
  exists out. split; [done|]. split.
  - pose proof (calculateYoY_emitted _ _ Hout) as HF.
    by rewrite (Array_sort_sorted Financial.year financials Hs) in HF.
  - intros i previous current m Hp Hc Hm.
    specialize (Hi (S i) current m Hc Hm).
    unfold yoy_entry in Hi. simpl in Hi. rewrite Nat.sub_0_r in Hi.
    rewrite (at_index_lookup _ _ _ Hp) in Hi. simpl in Hi.
    by injection Hi as <-.
Qed.

Lemma calculateYoY_of_ordered_witness :
  let financials := Array_sort (by_year Financial.year) sample_financials in
  Sorted Z.le (List.map Financial.year financials) /\
  exists out,
    calculateYoY financials = Ok out /\
    Forall2 emitted_for financials out /\
    forall i previous current m,
      financials !! i = Some previous ->
      financials !! S i = Some current ->
      out !! S i = Some m ->
      FinancialMetric.yoy_change m
      = Some (toNumber (Financial.revenue current)
              - toNumber (Financial.revenue previous))%float.
Proof.
  intros financials.
  assert (H : Sorted Z.le (List.map Financial.year financials))
    by apply Array_sort_Sorted.
  split; [exact H|].
  exact (calculateYoY_of_ordered financials H).
Defined.


(** ** Reading numbers from text *)

Lemma of_uint_acc_digits u :
  forall acc,
    Z.pos (Pos.of_uint_acc u acc)
    = fold_left (fun a c => (a * 10 + digit_value c)%Z) (uint_digits u)
        (Z.pos acc).
Proof.
  induction u as [|u IH|u IH|u IH|u IH|u IH|u IH|u IH|u IH|u IH|u IH];
    intros acc; simpl; [done|..];
    rewrite IH; f_equal; unfold digit_value; lia.
Qed.

Lemma of_uint_digits u :
  Z.of_N (Pos.of_uint u) = digits_value (uint_digits u).
Proof.
  unfold digits_value.
  induction u as [|u IH|u IH|u IH|u IH|u IH|u IH|u IH|u IH|u IH|u IH];
    simpl; [done|exact IH|..];
    rewrite of_uint_acc_digits; f_equal.
Qed.

(** The decimal digits of a natural number denote it. *)
Lemma digits_value_decimal_of_N n : digits_value (decimal_of_N n) = Z.of_N n.
Proof.
  unfold decimal_of_N. rewrite <- of_uint_digits.
  destruct n as [|p]; [done|]. simpl.
  by rewrite DecimalPos.Unsigned.of_to.
Qed.

Lemma remove_commas_group_rev r :
  forallb is_digit r = true ->
  forall i, remove_commas (group_rev r i) = r.
Proof.
  unfold remove_commas.
  induction r as [|d r IH]; simpl; intros Hd i; [done|].
  apply andb_true_iff in Hd as [Hd Hr].
  assert (Hk : negb (d =? 44)%N = true).
  { unfold is_digit in Hd. apply andb_true_iff in Hd as [H1 H2].
    apply N.leb_le in H1. apply negb_true_iff, N.eqb_neq. lia. }
  destruct (i =? 3)%nat; simpl; rewrite Hk; by rewrite (IH Hr).
Qed.

Lemma remove_commas_digits ds :
  forallb is_digit ds = true -> remove_commas ds = ds.
Proof.
  unfold remove_commas. induction ds as [|d ds IH]; simpl; [done|].
  intros Hd. apply andb_true_iff in Hd as [Hd Hds]. rewrite (IH Hds).
  unfold is_digit in Hd. apply andb_true_iff in Hd as [H1 H2].
  apply N.leb_le in H1.
  by destruct (N.eqb_spec d 44); [lia|].
Qed.

Lemma remove_commas_rev s : remove_commas (rev s) = rev (remove_commas s).
Proof.
  unfold remove_commas. induction s as [|c s IH]; simpl; [done|].
  rewrite List.filter_app, IH. simpl.
  destruct (negb _); simpl; [done|by rewrite app_nil_r].
Qed.

(** Removing the commas undoes the grouping of digits. *)
Lemma remove_commas_group_thousands ds :
  forallb is_digit ds = true -> remove_commas (group_thousands ds) = ds.
Proof.
  intros Hd. unfold group_thousands.
  rewrite remove_commas_rev, remove_commas_group_rev, ?rev_involutive; [done|].
  by rewrite forallb_rev.
Qed.

Lemma is_digit_not_white_space c : is_digit c = true -> is_white_space c = false.
Proof.
  intros H. apply is_digit_cases in H. simpl in H.
  repeat (destruct H as [<-|H]; [reflexivity|]). done.
Qed.

(** [parseFloat] on a run of digits. *)
Lemma parseFloat_digits ds :
  ds <> [] -> forallb is_digit ds = true ->
  parseFloat ds = decimal_to_number false (digits_value ds) 0.
Proof.
  destruct ds as [|d ds]; [done|]. intros _ Hd.
  pose proof (span_all _ _ Hd) as Hspan.
  simpl in Hd. apply andb_true_iff in Hd as [Hd Hds].
  unfold parseFloat.
  assert (Ht : trim_start (d :: ds) = d :: ds).
  { simpl. by rewrite (is_digit_not_white_space d Hd). }
  rewrite Ht. clear Ht.
  assert (Hsign : match d :: ds with
                  | 43%N :: r | 45%N :: r => (false, r)
                  | _ => (false, d :: ds)
                  end = (false, d :: ds)).
  { apply is_digit_cases in Hd. simpl in Hd.
    repeat (destruct Hd as [<-|Hd]; [reflexivity|]). done. }
  assert (Hinf : starts_with (js "Infinity") (d :: ds) = false).
  { apply is_digit_cases in Hd. simpl in Hd.
    repeat (destruct Hd as [<-|Hd]; [reflexivity|]). done. }
  apply is_digit_cases in Hd. simpl in Hd.
  repeat (destruct Hd as [<-|Hd];
          [rewrite Hinf, Hspan; simpl; by rewrite app_nil_r|]).
  done.
Qed.

Lemma decimal_to_number_integer n :
  decimal_to_number false (Z.of_N n) 0 = number_of_Z (Z.of_N n).
Proof.
  unfold decimal_to_number, number_of_Z. destruct n as [|p]; [done|].
  simpl Z.of_N. cbv iota. f_equal. simpl. by rewrite Pos.mul_1_r.
Qed.

(** X5: the decimal text of a natural number reads back as that number,
    with thousands separators (as in 1,234,567) or without them. *)
Theorem toNumber_reads_grouped_integers (n : N) :
  toNumber (Some (group_thousands (decimal_of_N n))) = number_of_Z (Z.of_N n)
  /\ toNumber (Some (decimal_of_N n)) = number_of_Z (Z.of_N n).
Proof.
  assert (H : parseFloat (decimal_of_N n) = number_of_Z (Z.of_N n)).
  { rewrite parseFloat_digits;
      [|apply decimal_of_N_nonempty|apply decimal_of_N_digit].
    by rewrite digits_value_decimal_of_N, decimal_to_number_integer. }
  unfold toNumber. split.
  - by rewrite remove_commas_group_thousands by apply decimal_of_N_digit.
  - by rewrite remove_commas_digits by apply decimal_of_N_digit.
Qed.

Example toNumber_reads_grouped_integers_evaluated :
  group_thousands (decimal_of_N 1234567) = js "1,234,567" /\
  toNumber (Some (js "1,234,567")) = 1234567%float.
Proof. split; reflexivity. Qed.

(** ** Comparisons of a Number with zero *)

Lemma Prim2SF_zero : Prim2SF 0%float = S754_zero false.
Proof. reflexivity. Qed.

Lemma ltb_zero_exclusive v : (0 <? v)%float = true -> (v <? 0)%float = false.
Proof.
  rewrite !FloatAxioms.ltb_spec, Prim2SF_zero.
  destruct (Prim2SF v) as [s|s| |s m e]; try destruct s; done.
Qed.

Lemma ltb_zero_not_zero v : (0 <? v)%float = true -> (v =? 0)%float = false.
Proof.
  rewrite FloatAxioms.ltb_spec, FloatAxioms.eqb_spec, Prim2SF_zero.
  destruct (Prim2SF v) as [s|s| |s m e]; try destruct s; done.
Qed.

Lemma leb_zero_cases v :
  (0 <=? v)%float = (0 <? v)%float || (v =? 0)%float.
Proof.
  rewrite FloatAxioms.leb_spec, FloatAxioms.ltb_spec, FloatAxioms.eqb_spec,
    Prim2SF_zero.
  destruct (Prim2SF v) as [s|s| |s m e]; try destruct s; done.
Qed.

(** ** formatCurrency and formatPercentage *)

(** With three fraction digits the en-GB text is the text of the
    endpoint's [toLocaleString()]. *)
Lemma toLocaleString_enGB_three x :
  Number_toLocaleString_enGB x 3 = Number_toLocaleString x.
Proof. reflexivity. Qed.

Lemma decimal_of_N_two_digits n :
  (n < 100)%N -> (length (decimal_of_N n) <= 2)%nat.
Proof.
  intros Hn.
  assert (H : forallb (fun k => (length (decimal_of_N (N.of_nat k)) <=? 2)%nat)
                (seq 0 100) = true) by (vm_compute; reflexivity).
  rewrite forallb_forall in H.
  specialize (H (N.to_nat n)). rewrite N2Nat.id in H.
  apply Nat.leb_le, H, in_seq. lia.
Qed.

Lemma drop_zeros_head s : head (drop_zeros s) <> Some 48%N.
Proof.
  induction s as [|c s IH]; [done|].
  destruct (N.eq_dec c 48%N) as [->|Hc]; [exact IH|].
  destruct (drop_zeros_cons c s) as [-> | ->]; [exact IH|].
  simpl. congruence.
Qed.

Lemma last_rev_head {A : Type} (l : list A) : last (rev l) = head l.
Proof.
  destruct l as [|a l]; [done|]. simpl. by rewrite last_snoc.
Qed.

(** X6: formatCurrency(null) is the text N/A.  For a finite amount the
    text is the currency symbol, then a minus sign if the amount is
    negative, the integer digits in groups of three separated by
    commas, at most two fraction digits after a point (no point when
    there is none, and never a trailing zero), and the letter M. *)
Theorem formatCurrency_shape (currency : CurrencyCode) :
  formatCurrency None currency = js "N/A" /\
  forall amount,
    is_finite amount = true ->
    exists ip fp,
      formatCurrency (Some amount) currency
      = getCurrencySymbol currency
        ++ (if get_sign amount then [45%N] else [])
        ++ ip ++ (match fp with [] => [] | _ => 46%N :: fp end) ++ js "M" /\
      thousands_grouped ip /\
      forallb is_digit fp = true /\ (length fp <= 2)%nat /\
      last fp <> Some 48%N.
Proof.
  split; [reflexivity|]. intros amount Hf.
  unfold is_finite in Hf.
  apply negb_true_iff, orb_false_iff in Hf as [Hn Hi].
  unfold formatCurrency, Number_toLocaleString_enGB, getCurrencySymbol.
  cbv zeta. rewrite Hn, Hi.
  set (t := match shortest_decimal (abs amount) with
            | Some (ds, n) => scaled_decimal ds n 2 | None => 0%Z end).
  change (10 ^ Z.of_nat 2)%Z with 100%Z.
  set (f := decimal_of_N (Z.to_N (t mod 100))).
  exists (group_thousands (decimal_of_N (Z.to_N (t / 100)))),
    (rev (drop_zeros (rev (zeros (2 - length f) ++ f)))).
  split; [by rewrite <- !app_assoc|].
  split.
  { apply group_thousands_grouped;
      [apply decimal_of_N_nonempty|apply decimal_of_N_digit]. }
  assert (Hlen : (length f <= 2)%nat).
  { apply decimal_of_N_two_digits.
    pose proof (Z.mod_pos_bound t 100 ltac:(lia)). lia. }
  split; [|split].
  - rewrite forallb_rev. apply drop_zeros_digit. rewrite forallb_rev.
    rewrite forallb_app. unfold f. by rewrite zeros_digit, decimal_of_N_digit.
  - rewrite length_rev. etransitivity; [apply drop_zeros_length|].
    rewrite length_rev, length_app. unfold zeros. rewrite length_replicate.
    lia.
  - rewrite last_rev_head. apply drop_zeros_head.
Qed.

Example formatCurrency_evaluated :
  formatCurrency (Some 1234567.891%float) GBP
  = pound_sign :: js "1,234,567.89M" /\
  formatCurrency (Some (-648.375)%float) EUR
  = euro_sign :: js "-648.38M" /\
  formatCurrency (Some 583%float) GBP = pound_sign :: js "583M" /\
  formatCurrency (Some 0.5%float) GBP = pound_sign :: js "0.5M".
Proof. repeat apply conj; vm_compute; reflexivity. Qed.

(** X7: formatPercentage(null) is the text N/A.  For a finite value
    below 10^21 in magnitude the text is a plus sign if the value is
    above zero or a minus sign if it is below zero, then digits, a
    point, exactly one digit and the percent sign. *)
Theorem formatPercentage_shape :
  formatPercentage None = js "N/A" /\
  forall value,
    is_finite value = true -> (1e21 <=? abs value)%float = false ->
    exists ip d,
      formatPercentage (Some value)
      = (if (0 <? value)%float then js "+"
         else if (value <? 0)%float then js "-" else [])
        ++ ip ++ [46%N; d] ++ js "%" /\
      ip <> [] /\ forallb is_digit ip = true /\ is_digit d = true.
Proof.
  split; [reflexivity|]. intros value Hf Hlt.
  destruct (toFixed_one_decimal value Hf Hlt) as (ip & d & Hfix & Hne & Hip & Hd).
  exists ip, d. split; [|done].
  unfold formatPercentage. rewrite Hfix.
  destruct (0 <? value)%float eqn:Hpos.
  - rewrite (ltb_zero_exclusive _ Hpos). simpl. by rewrite <- !app_assoc.
  - simpl. by rewrite <- !app_assoc.
Qed.

Example formatPercentage_evaluated :
  formatPercentage (Some 18.016194331983804%float) = js "+18.0%" /\
  formatPercentage (Some (-3.25)%float) = js "-3.3%" /\
  formatPercentage (Some 0%float) = js "0.0%" /\
  formatPercentage (Some (-0.01)%float) = js "-0.0%".
Proof. repeat apply conj; vm_compute; reflexivity. Qed.

(** X8: the CAGR badge shows the text formatPercentage gives for
    the same number, except at zero, where the badge has a plus sign
    and formatPercentage has none. *)
Theorem cagrBadge_vs_formatPercentage (cagr : number) :
  cagrBadge cagr
  = (if (cagr =? 0)%float then js "+" else [])
    ++ formatPercentage (Some cagr).
Proof.
  unfold cagrBadge, formatPercentage. rewrite leb_zero_cases.
  destruct (0 <? cagr)%float eqn:Hpos; simpl orb; cbv iota.
  - by rewrite (ltb_zero_not_zero _ Hpos).
  - by destruct (cagr =? 0)%float.
Qed.


(** ** More on the matcher *)

Lemma star_loop_Some_class p k after :
  forall before g res,
    star_loop p k before after g = Some res ->
    exists t rest,
      after = t ++ rest /\ forallb p t = true /\
      k {| consumed := rev t ++ before; remaining := rest; group1 := g |}
      = Some res.
Proof.
  induction after as [|c after IH]; simpl; intros before g res H.
  - by exists [], [].
  - destruct (p c) eqn:Hp.
    + destruct (star_loop p k (c :: before) after g) as [r|] eqn:Hr.
      * destruct (IH _ _ _ Hr) as (t & rest & -> & Ht & Hk).
        exists (c :: t), rest. split; [done|].
        split; [simpl; by rewrite Hp|].
        simpl. rewrite <- app_assoc. simpl. congruence.
      * by exists [], (c :: after).
    + by exists [], (c :: after).
Qed.

(** The loop succeeds whenever the continuation accepts the position
    it starts from. *)
Lemma star_loop_complete p k after before g res :
  k {| consumed := before; remaining := after; group1 := g |} = Some res ->
  is_Some (star_loop p k before after g).
Proof.
  destruct after as [|c after]; simpl; intros H; [by eexists|].
  destruct (p c); [|by eexists].
  destruct (star_loop p k (c :: before) after g); by eexists.
Qed.

(** A match of the group [(p+)]: the capture is the text consumed, it is
    not empty and all its characters are in the class. *)
Lemma group_plus_Some ignoreCase p k st res :
  rmatch ignoreCase (RGroup (RPlus p)) k st = Some res ->
  exists c g rest,
    remaining st = (c :: g) ++ rest /\ forallb p (c :: g) = true /\
    k {| consumed := rev (c :: g) ++ consumed st; remaining := rest;
         group1 := Some (c :: g) |} = Some res.
Proof.
  simpl. intros H.
  apply step_char_Some in H as (a & rest & Hrem & Hp & Hk). simpl in Hk.
  apply star_loop_Some_class in Hk as (t & rest' & -> & Ht & Hk).
  simpl in Hk. exists a, t, rest'. split; [done|].
  split; [simpl; by rewrite Hp|].
  rewrite (text_between_app st _ (a :: t)) in Hk
    by (simpl; by rewrite <- app_assoc).
  simpl. rewrite <- app_assoc. exact Hk.
Qed.

(** A run of pattern characters matches the text that equals it after
    canonicalization, and nothing else. *)
Lemma literal_Some ignoreCase l :
  forall k st res,
    rmatch ignoreCase (fold_right (fun c r => RSeq (RChar c) r) REmpty l) k st
    = Some res ->
    exists w rest,
      remaining st = w ++ rest /\
      List.map (canonicalize ignoreCase) w
      = List.map (canonicalize ignoreCase) l /\
      k {| consumed := rev w ++ consumed st; remaining := rest;
           group1 := group1 st |} = Some res.
Proof.
  induction l as [|a l IH]; simpl; intros k st res H.
  - exists [], (remaining st). destruct st. by simpl in *.
  - apply step_char_Some in H as (x & rest & Hrem & Hx & Hk).
    apply IH in Hk as (w & rest' & Hr' & Hw & Hk'). simpl in *.
    exists (x :: w), rest'. split; [by rewrite Hrem, Hr'|].
    apply N.eqb_eq in Hx. split; [simpl; by rewrite Hx, Hw|].
    simpl. by rewrite <- app_assoc.
Qed.

Lemma literal_complete ignoreCase l :
  forall k st w rest,
    remaining st = w ++ rest ->
    List.map (canonicalize ignoreCase) w
    = List.map (canonicalize ignoreCase) l ->
    rmatch ignoreCase (fold_right (fun c r => RSeq (RChar c) r) REmpty l) k st
    = k {| consumed := rev w ++ consumed st; remaining := rest;
           group1 := group1 st |}.
Proof.
  induction l as [|a l IH]; intros k st [|x w] rest Hrem Hw; try done.
  - destruct st. simpl in *. by subst.
  - simpl in Hw. injection Hw as Hx Hw.
    simpl. unfold step_char. rewrite Hrem. simpl. rewrite Hx, N.eqb_refl.
    erewrite IH; [|simpl; reflexivity|exact Hw].
    simpl. by rewrite <- app_assoc.
Qed.

(** ** White space at the ends *)

Lemma trim_start_suffix s : exists pre, s = pre ++ trim_start s.
Proof.
  induction s as [|c s [pre IH]]; simpl; [by exists []|].
  destruct (is_white_space c); [|by exists []].
  exists (c :: pre). simpl. by rewrite <- IH.
Qed.

Lemma trim_start_head s : starts_with_white_space (trim_start s) = false.
Proof.
  induction s as [|c s IH]; simpl; [done|].
  destruct (is_white_space c) eqn:Hc; [done|]. simpl. exact Hc.
Qed.

Lemma forallb_trim_start p s :
  forallb p s = true -> forallb p (trim_start s) = true.
Proof.
  intros H. destruct (trim_start_suffix s) as [pre Hs].
  rewrite Hs, forallb_app in H. by apply andb_true_iff in H as [_ H].
Qed.

Lemma forallb_trim p s : forallb p s = true -> forallb p (trim s) = true.
Proof.
  intros H. unfold trim. rewrite forallb_rev. apply forallb_trim_start.
  rewrite forallb_rev. by apply forallb_trim_start.
Qed.

Lemma trim_ends s :
  starts_with_white_space (trim s) = false /\
  ends_with_white_space (trim s) = false.
Proof.
  unfold trim. set (t := trim_start s).
  pose proof (trim_start_head s) as Ht. fold t in Ht.
  pose proof (trim_start_head (rev t)) as Hu.
  destruct (trim_start_suffix (rev t)) as [pre Hpre].
  set (u := trim_start (rev t)) in *.
  split.
  - unfold starts_with_white_space in *.
    destruct (rev u) as [|c r] eqn:Hr; [done|].
    assert (Hc : head t = Some c).
    { rewrite <- (rev_involutive t), Hpre, rev_app_distr, Hr. done. }
    destruct t as [|c' t']; [done|]. simpl in Hc. by injection Hc as ->.
  - unfold ends_with_white_space, starts_with_white_space in *.
    rewrite last_rev_head. by destruct u.
Qed.

(** ** The club name *)

(** What a match of one of the three patterns looks like in the
    question. *)
Lemma clubPatterns_anatomy pattern question m :
  In pattern clubPatterns ->
  String_match true pattern question = Some m ->
  exists pre c g word post,
    question = pre ++ (c :: g) ++ word ++ post /\
    forallb not_apostrophe (c :: g) = true /\
    match_1 m = Some (c :: g) /\
    (List.map (canonicalize true) word
     = List.map (canonicalize true) (js " revenue")
     \/ List.map (canonicalize true) word
        = List.map (canonicalize true) (js "'s revenue")).
Proof.
  intros Hin Hm.
  apply exec_from_Some in Hm as (a1 & a2 & st' & Hq & Hr & -> & _).
  simpl in Hq. subst question.
  assert (Hlead : forall l,
    rmatch true (fold_right (fun c r => RSeq (RChar c) r) REmpty l)
      (rmatch true (RGroup (RPlus not_apostrophe))
         (rmatch true
            (fold_right (fun c r => RSeq (RChar c) r) REmpty
               (js "'s revenue")) Some))
      {| consumed := rev a1 ++ []; remaining := a2; group1 := None |}
    = Some st' ->
    exists pre c g word post,
      a1 ++ a2 = pre ++ (c :: g) ++ word ++ post /\
      forallb not_apostrophe (c :: g) = true /\
      group1 st' = Some (c :: g) /\
      (List.map (canonicalize true) word
       = List.map (canonicalize true) (js " revenue")
       \/ List.map (canonicalize true) word
          = List.map (canonicalize true) (js "'s revenue"))).
  { intros l H.
    apply (literal_Some true) in H as (w1 & rest1 & Hrem1 & _ & H).
    apply (group_plus_Some true) in H as (c & g & rest2 & Hrem2 & Hp & H).
    apply (literal_Some true) in H as (w2 & rest3 & Hrem3 & Hw2 & H).
    simpl in Hrem1, Hrem2, Hrem3. injection H as <-.
    exists (a1 ++ w1), c, g, w2, rest3.
    split; [by rewrite Hrem1, Hrem2, Hrem3, <- !app_assoc|].
    split; [done|]. split; [done|]. by right. }
  simpl in Hin. destruct Hin as [<-|[<-|[<-|[]]]].
  - exact (Hlead (js "what was ") Hr).
  - exact (Hlead (js "tell me about ") Hr).
  - change (rmatch true (RGroup (RPlus not_apostrophe))
              (rmatch true
                 (fold_right (fun c r => RSeq (RChar c) r) REmpty
                    (js " revenue")) Some)
              {| consumed := rev a1 ++ []; remaining := a2; group1 := None |}
            = Some st') in Hr.
    apply (group_plus_Some true) in Hr as (c & g & rest2 & Hrem2 & Hp & H).
    apply (literal_Some true) in H as (w2 & rest3 & Hrem3 & Hw2 & H).
    simpl in Hrem2, Hrem3. injection H as <-.
    exists a1, c, g, w2, rest3.
    split; [by rewrite Hrem2, Hrem3|].
    split; [done|]. split; [done|]. by left.
Qed.

(** The name comes from the first pattern that matches. *)
Lemma extractClubName_Some question name :
  extractClubName question = Some name ->
  exists pattern m c g,
    In pattern clubPatterns /\
    String_match true pattern question = Some m /\
    match_1 m = Some (c :: g) /\ name = trim (c :: g).
Proof.
  unfold extractClubName.
  assert (H : forall patterns,
    extractClubName_from patterns question = Some name ->
    exists pattern m c g,
      In pattern patterns /\
      String_match true pattern question = Some m /\
      match_1 m = Some (c :: g) /\ name = trim (c :: g)).
  { induction patterns as [|p ps IH]; simpl; [done|].
    destruct (String_match true p question) as [m|] eqn:Hm.
    - destruct (match_1 m) as [[|c g]|] eqn:Hg.
      + intros H. destruct (IH H) as (p' & m' & c' & g' & Hin & ?).
        exists p', m', c', g'. by split; [right|].
      + intros [= <-]. exists p, m, c, g. by split; [left|].
      + intros H. destruct (IH H) as (p' & m' & c' & g' & Hin & ?).
        exists p', m', c', g'. by split; [right|].
    - intros H. destruct (IH H) as (p' & m' & c' & g' & Hin & ?).
      exists p', m', c', g'. by split; [right|]. }
  apply H.
Qed.

(** X9: a club name taken from a question never contains an apostrophe
    and neither starts nor ends with white space. *)
Theorem extracted_club_name_is_clean (question name : jsstring) :
  extractClubName question = Some name ->
  forallb not_apostrophe name = true /\
  starts_with_white_space name = false /\
  ends_with_white_space name = false.
Proof.
  intros H.
  apply extractClubName_Some in H as (p & m & c & g & Hin & Hm & Hg & ->).
  destruct (clubPatterns_anatomy p question m Hin Hm)
    as (pre & c' & g' & word & post & _ & Hp & Hg' & _).
  rewrite Hg in Hg'. injection Hg' as <- <-.
  split; [by apply forallb_trim|]. apply trim_ends.
Qed.

Lemma extracted_club_name_is_clean_witness :
  let question := js "Tell me about  Queen's Park Rangers  revenue in 2022" in
  let name := js "s Park Rangers" in
  extractClubName question = Some name /\
  forallb not_apostrophe name = true /\
  starts_with_white_space name = false /\
  ends_with_white_space name = false.
Proof.
  intros question name.
  assert (H : extractClubName question = Some name) by (vm_compute; reflexivity).
  split; [exact H|].
  exact (extracted_club_name_is_clean question name H).
Defined.

Lemma catchAll_complete before c word post :
  not_apostrophe c = true ->
  List.map (canonicalize true) word
  = List.map (canonicalize true) (js " revenue") ->
  is_Some (rmatch true catchAllPattern Some
             {| consumed := before; remaining := c :: word ++ post;
                group1 := None |}).
Proof.
  intros Hc Hw. unfold catchAllPattern. cbn [rmatch].
  unfold step_char. cbn [remaining consumed group1]. rewrite Hc.
  eapply star_loop_complete. unfold literal.
  erewrite literal_complete; [reflexivity|simpl; reflexivity|exact Hw].
Qed.

(** X10: the club name is found (the result of the extraction is not
    null) exactly for the questions in which some character other than
    an apostrophe is directly followed by a space and the word revenue,
    in any letter case. *)
Theorem club_name_found_iff_revenue_phrase (question : jsstring) :
  (exists name, extractClubName question = Some name)
  <-> revenue_phrase question.
Proof.
  split.
  - intros [name H].
    apply extractClubName_Some in H as (p & m & c & g & Hin & Hm & Hg & _).
    destruct (clubPatterns_anatomy p question m Hin Hm)
      as (pre & c' & g' & word & post & Hq & Hp & _ & Hw).
    destruct Hw as [Hw|Hw].
    + destruct (exists_last (l := c' :: g')) as (l & x & Hl); [done|].
      rewrite Hl in Hq, Hp.
      rewrite forallb_app in Hp. apply andb_true_iff in Hp as [_ Hx].
      simpl in Hx. rewrite andb_true_r in Hx.
      exists (pre ++ l), x, word, post.
      split; [by rewrite Hq, <- !app_assoc|]. by split.
    + destruct word as [|x0 [|x1 word]]; [done|done|].
      change (js "'s revenue") with (39%N :: 115%N :: js " revenue") in Hw.
      simpl List.map in Hw. injection Hw as _ H1 Hw.
      exists (pre ++ (c' :: g') ++ [x0]), x1, word, post.
      split; [rewrite Hq; by rewrite <- !app_assoc|].
      split; [|exact Hw].
      unfold not_apostrophe. apply negb_true_iff, N.eqb_neq. intros ->.
      by vm_compute in H1.
  - intros (pre & c & word & post & Hq & Hc & Hw).
    destruct (catchAll_complete (rev pre ++ []) c word post Hc Hw) as [st' Hst].
    destruct (exec_from_complete true catchAllPattern question [] pre
                (c :: word ++ post) st' Hq Hst) as [m3 Hm3].
    fold (String_match true catchAllPattern question) in Hm3.
    assert (Hcap : forall pattern m,
      In pattern clubPatterns ->
      String_match true pattern question = Some m ->
      exists c g, match_1 m = Some (c :: g))
      by (intros; by eapply clubPatterns_capture).
    unfold extractClubName, clubPatterns. simpl.
    destruct (String_match true whatWasPattern question) as [m1|] eqn:H1.
    { destruct (Hcap whatWasPattern _ ltac:(simpl; tauto) H1) as (c1 & g1 & ->).
      by eexists. }
    destruct (String_match true tellMeAboutPattern question) as [m2|] eqn:H2.
    { destruct (Hcap tellMeAboutPattern _ ltac:(simpl; tauto) H2)
        as (c1 & g1 & ->).
      by eexists. }
    rewrite Hm3.
    destruct (Hcap catchAllPattern _ ltac:(simpl; tauto) Hm3) as (c1 & g1 & ->).
    by eexists.
Qed.

Example club_name_found_evaluated :
  extractClubName (js "Arsenal REVENUE 2022") = Some (js "Arsenal") /\
  extractClubName (js "Arsenal's revenue 2022") = Some (js "s") /\
  extractClubName (js "Arsenal income 2022") = None /\
  extractClubName (js "  revenue 2022") = Some [].
Proof. vm_compute. done. Qed.

(** ** The responses of the endpoint *)

Lemma store_of_coherent club financials : coherent (store_of club financials).
Proof.
  intros clubId year financial H. simpl in *.
  destruct (clubId =? Club.id club)%Z; [|done].
  apply find_some in H as [Hin Hy]. exists financial.
  split; [by apply list_elem_of_In|by apply Z.eqb_eq].
Qed.

(** Every year among the records has a metric in the result. *)
Lemma calculateYoY_covers_years financials out r :
  calculateYoY financials = Ok out ->
  r ∈ financials ->
  exists m, m ∈ out /\ FinancialMetric.year m = Financial.year r.
Proof.
  intros Hout Hr.
  pose proof (calculateYoY_emitted _ _ Hout) as HF.
  rewrite <- (Array_sort_Permutation Financial.year financials) in Hr.
  apply list_elem_of_lookup in Hr as [i Hi].
  destruct (Forall2_lookup_l _ _ _ _ _ HF Hi) as (m & Hm & He).
  exists m. split; [by eapply list_elem_of_lookup_2|]. apply He.
Qed.

(** With a coherent store the lookups never end with status 500:
    calculateYoY does not throw, and the metric of the year is
    found. *)
Lemma resolve_coherent (store : Store) clubName year
    (currency : CurrencyCode) :
  coherent store ->
  forall status error,
    resolve store clubName year currency = Error status error ->
    status <> 500%Z.
Proof.
  intros Hco status error H. unfold resolve in H.
  destruct (getClubByName store clubName) as [club|];
    [|by injection H as <- _].
  destruct (getClubFinancialByYear store (Club.id club) _)
    as [financial|] eqn:Hfin; [|by injection H as <- _].
  unfold getClubFinancialsWithYoY in H.
  destruct (calculateYoY_entries (getAllClubFinancials store (Club.id club)))
    as (out & Hout & _); rewrite Hout in H.
  destruct (Hco _ _ _ Hfin) as (r & Hr & Hy).
  destruct (calculateYoY_covers_years _ _ _ Hout Hr) as (m & Hm & Hmy).
  destruct (Array_find _ out) as [data|] eqn:Hfind; [done|].
  unfold Array_find in Hfind.
  pose proof (find_none _ _ Hfind m ltac:(by apply list_elem_of_In)) as Hne.
  apply Z.eqb_neq in Hne; congruence.
Qed.

Lemma POST_coherent (store : Store) (question : json_value)
    (currency : CurrencyCode) :
  coherent store ->
  forall status error,
    POST store question currency = Error status error -> status <> 500%Z.
Proof.
  intros Hco status error H. unfold POST in H.
  destruct question as [[|c q]|]; [by injection H as <- _| |by injection H as <- _].
  destruct (extractYear (c :: q)) as [[|y|y]|]; try (by injection H as <- _).
  all: destruct (extractClubName (c :: q)) as [[|c' n]|];
    try (by injection H as <- _).
  all: by eapply resolve_coherent.
Qed.

(** A store that lists no season for the year it returns a record for
    makes the endpoint answer 500. *)
Example incoherent_store_answers_500 :
  let store :=
    {| getClubByName := getClubByName sample_store;
       getClubFinancialByYear := getClubFinancialByYear sample_store;
       getAllClubFinancials := fun _ => [] |} in
  POST store (JString (js "What was Manchester United's revenue in 2022?")) GBP
  = YoYCalculationUnavailable.
Proof. vm_compute. reflexivity. Qed.

(** ** The endpoint on the request body *)

Lemma String_eqb_eq (a b : jsstring) : String_eqb a b = true <-> a = b.
Proof.
  unfold String_eqb. revert b.
  induction a as [|x a IH]; intros [|y b]; simpl; try done.
  - specialize (IH b). rewrite !andb_true_iff in *. rewrite N.eqb_eq.
    split.
    + intros (Hl & -> & Hs). f_equal. apply IH. done.
    + intros H. injection H as -> ->. split; [by apply Nat.eqb_eq|].
      split; [done|]. apply IH. done.
Qed.

(** Once the question has resolved to a season, the request handler
    differs from the handler on a currency code in the last step
    alone. *)
Lemma resolve_request_cases (store : Store) clubName year currency code :
  match resolve store clubName year code with
  | Answer _ =>
      exists club currentYearData,
        resolve_request store clubName year currency
        = match formatAnswer_of club year currency currentYearData with
          | Ok answer => Answer answer
          | Throw => InternalError
          end /\
        resolve store clubName year code
        = Answer (formatAnswer club year code currentYearData)
  | other => resolve_request store clubName year currency = other
  end.
Proof.
  unfold resolve, resolve_request.
  destruct (getClubByName store clubName) as [club|]; [|done].
  destruct (getClubFinancialByYear store (Club.id club) year); [|done].
  destruct (getClubFinancialsWithYoY store (Club.id club)) as [withYoY|];
    [|done].
  destruct (Array_find _ withYoY) as [data|]; [|done].
  by exists club, data.
Qed.

Lemma formatAnswer_of_throws club year currency data :
  formatAnswer_of club year currency data = Throw
  <-> CURRENCIES_get (json_text currency) = Missing.
Proof.
  unfold formatAnswer_of.
  destruct (CURRENCIES_get (json_text currency)) as [config| |] eqn:Hget.
  - split; [|done]. by destruct (match currency with JsonString _ => _ | _ => _ end).
  - split; [|done]. by destruct (match currency with JsonString _ => _ | _ => _ end).
  - split; [done|intros _].
    destruct currency as [| | |s| |]; try done.
    destruct (String_eqb (js "GBP") s) eqn:Hs; [|done].
    apply String_eqb_eq in Hs as <-. by vm_compute in Hget.
Qed.

(** For GBP, EUR and no currency at all, the request handler is the
    handler on the currency code. *)
Lemma formatAnswer_of_code club year code data :
  formatAnswer_of club year (JsonString (CurrencyCode_text code)) data
  = Ok (formatAnswer club year code data).
Proof. by destruct code. Qed.

Lemma POST_request_body (store : Store) (body : json) :
  body <> JsonNull ->
  POST_request store (Some body)
  = match requested_question body with
    | JString (c :: q) =>
        match extractYear (c :: q) with
        | None | Some 0%Z => MissingYear
        | Some year =>
            match extractClubName (c :: q) with
            | None | Some [] => MissingClubName
            | Some clubName =>
                resolve_request store clubName year (requested_currency body)
            end
        end
    | _ => InvalidQuestion
    end.
Proof.
  intros Hnull. unfold POST_request.
  destruct body; try done; by destruct (requested_question _) as [[|??]|].
Qed.

Lemma resolve_request_code (store : Store) clubName year code :
  resolve_request store clubName year (JsonString (CurrencyCode_text code))
  = resolve store clubName year code.
Proof.
  pose proof (resolve_request_cases store clubName year
                (JsonString (CurrencyCode_text code)) code) as H.
  destruct (resolve store clubName year code) eqn:Hr; [|done].
  destruct H as (club & data & -> & Heq).
  by rewrite formatAnswer_of_code, Heq.
Qed.

Lemma POST_request_code (store : Store) (body : json) (code : CurrencyCode) :
  body <> JsonNull ->
  requested_currency body = JsonString (CurrencyCode_text code) ->
  POST_request store (Some body) = POST store (requested_question body) code.
Proof.
  intros Hnull Hcur. rewrite (POST_request_body store body Hnull), Hcur.
  unfold POST.
  destruct (requested_question body) as [[|c q]|]; try done.
  destruct (extractYear (c :: q)) as [[|y|y]|]; try done.
  all: destruct (extractClubName (c :: q)) as [[|c' n]|]; try done.
  all: apply resolve_request_code.
Qed.

Lemma resolve_request_500 (store : Store) clubName year currency :
  coherent store ->
  (exists error,
     resolve_request store clubName year currency = Error 500 error)
  <-> CURRENCIES_get (json_text currency) = Missing /\
      exists answer,
        resolve store clubName year DEFAULT_CURRENCY = Answer answer.
Proof.
  intros Hco.
  pose proof (resolve_request_cases store clubName year currency
                DEFAULT_CURRENCY) as Hcases.
  pose proof (resolve_coherent store clubName year DEFAULT_CURRENCY Hco)
    as Hnever.
  destruct (resolve store clubName year DEFAULT_CURRENCY) as [a|st e].
  - destruct Hcases as (club & data & -> & _).
    rewrite <- (formatAnswer_of_throws club year currency data).
    destruct (formatAnswer_of club year currency data).
    + split; [intros [e He]; discriminate He|intros [Hm _]; discriminate Hm].
    + split; [intros _; split; [done|by eexists]|intros _; by eexists].
  - rewrite Hcases. split.
    + intros [e' He']. injection He' as -> _. by destruct (Hnever _ _ eq_refl).
    + intros [_ [a Ha]]. discriminate Ha.
Qed.

(** X11: with database reads that return and a coherent store, the
    ask endpoint answers with status 500 in these cases only: the
    body of the request is not JSON or is null, or the question
    resolves to a season and the currency asked for, read as a
    property key, names nothing in CURRENCIES (neither GBP or EUR nor
    a member inherited from Object.prototype).  With GBP, EUR or no
    currency it answers as the handler on the currency code does, and
    so never with 500 on a body that is not null. *)
Theorem POST_request_status_500 (store : Store) (body : option json) :
  coherent store ->
  ((exists error, POST_request store body = Error 500 error) <->
   match body with
   | None | Some JsonNull => True
   | Some body =>
       CURRENCIES_get (json_text (requested_currency body)) = Missing /\
       exists answer,
         POST store (requested_question body) DEFAULT_CURRENCY
         = Answer answer
   end) /\
  (forall body' code,
     body = Some body' -> body' <> JsonNull ->
     requested_currency body' = JsonString (CurrencyCode_text code) ->
     POST_request store body = POST store (requested_question body') code /\
     forall error, POST_request store body <> Error 500 error).
Proof.
  intros Hco. split.
  - destruct body as [body|]; [|split; [done|intros _; by eexists]].
    assert (body = JsonNull \/ body <> JsonNull) as [->|Hnull]
      by (destruct body; (by left) || (by right)).
    { split; [done|intros _; by eexists]. }
    transitivity
      (CURRENCIES_get (json_text (requested_currency body)) = Missing /\
       exists answer,
         POST store (requested_question body) DEFAULT_CURRENCY
         = Answer answer); [|by destruct body].
    rewrite (POST_request_body store body Hnull). unfold POST.
    destruct (requested_question body) as [[|c q]|].
    1,3: split; [intros [e He]; discriminate He|intros [_ [a Ha]]; discriminate Ha].
    destruct (extractYear (c :: q)) as [[|y|y]|].
    1,4: split; [intros [e He]; discriminate He|intros [_ [a Ha]]; discriminate Ha].
    all: destruct (extractClubName (c :: q)) as [[|c' n]|].
    1,3,4,6: split; [intros [e He]; discriminate He|intros [_ [a Ha]]; discriminate Ha].
    all: by apply resolve_request_500.
  - intros body' code -> Hnull Hcur.
    pose proof (POST_request_code store body' code Hnull Hcur) as Heq.
    split; [done|]. intros error He. rewrite Heq in He.
    by destruct (POST_coherent store _ code Hco _ _ He).
Qed.

Lemma POST_request_status_500_witness :
  let body :=
    Some (JsonObject
            [ (js "question",
               JsonString (js "What was Manchester United's revenue in 2022?"));
              (js "currency", JsonString (js "USD")) ]) in
  coherent sample_store /\
  ((exists error, POST_request sample_store body = Error 500 error) <->
   match body with
   | None | Some JsonNull => True
   | Some body =>
       CURRENCIES_get (json_text (requested_currency body)) = Missing /\
       exists answer,
         POST sample_store (requested_question body) DEFAULT_CURRENCY
         = Answer answer
   end) /\
  (forall body' code,
     body = Some body' -> body' <> JsonNull ->
     requested_currency body' = JsonString (CurrencyCode_text code) ->
     POST_request sample_store body
     = POST sample_store (requested_question body') code /\
     forall error, POST_request sample_store body <> Error 500 error).
Proof.
  intros body.
  assert (H : coherent sample_store) by apply store_of_coherent.
  split; [exact H|].
  exact (POST_request_status_500 sample_store body H).
Defined.

(** The endpoint on some request bodies: an unsupported code and a null
    currency reach the catch branch once the season is found, and not
    before; a currency that names an inherited member of CURRENCIES
    gives an answer with undefined for the symbol and NaN for the
    amount; an array holding a code reads as that code. *)
Example POST_request_evaluated :
  let ask (question : string) currency :=
    POST_request sample_store
      (Some (JsonObject [ (js "question", JsonString (js question));
                          (js "currency", currency) ])) in
  let found := "What was Manchester United's revenue in 2022?"%string in
  ask found (JsonString (js "USD")) = InternalError /\
  ask found JsonNull = InternalError /\
  ask found (JsonNumber 1%float) = InternalError /\
  ask found (JsonObject []) = InternalError /\
  ask "What was Chelsea's revenue in 2022?"%string (JsonString (js "USD"))
  = ClubNotFound (js "Chelsea") /\
  ask "no year"%string (JsonString (js "USD")) = MissingYear /\
  POST_request sample_store None = InternalError /\
  POST_request sample_store (Some JsonNull) = InternalError /\
  POST_request sample_store (Some (JsonArray [])) = InvalidQuestion /\
  POST_request sample_store (Some (JsonString (js found))) = InvalidQuestion /\
  POST_request sample_store
    (Some (JsonObject [ (js "question", JsonString (js found)) ]))
  = Answer (js "Manchester United's revenue in 2022 was " ++ [pound_sign]
            ++ js "583M (GBP). The year-over-year change was +18.0%.") /\
  ask found (JsonArray [JsonString (js "EUR")])
  = Answer (js "Manchester United's revenue in 2022 was " ++ [euro_sign]
            ++ js "682.11M (EUR). The year-over-year change was +18.0%.") /\
  ask found (JsonString (js "constructor"))
  = Answer (js "Manchester United's revenue in 2022 was undefinedNaNM"
            ++ js " (constructor). The year-over-year change was +18.0%.").
Proof. repeat apply conj; vm_compute; reflexivity. Qed.

(** X12: the endpoint answers with status 400 exactly when the question
    is not a non-empty string, or has no year token, or gives no club
    name (no pattern matches, or the fragment captured is white space
    only); the store plays no part in it. *)
Theorem POST_bad_request (store : Store) (question : json_value)
    (currency : CurrencyCode) :
  (exists error, POST store question currency = Error 400 error) <->
  match question with
  | JString (c :: q) =>
      extractYear (c :: q) = None \/ extractClubName (c :: q) = None
      \/ extractClubName (c :: q) = Some []
  | _ => True
  end.
Proof.
  destruct question as [[|c q]|]; [by split; [|eexists]| |by split; [|eexists]].
  destruct (extractYear (c :: q)) as [y|] eqn:Hy.
  - rewrite (POST_with_year _ _ _ _ Hy).
    destruct (extractClubName (c :: q)) as [[|c' n]|] eqn:Hn.
    + split; [tauto|by eexists].
    + split; [|by intros [|[|]]].
      intros [error H]. unfold resolve in H.
      repeat case_match; discriminate.
    + split; [tauto|by eexists].
  - unfold POST. rewrite Hy. split; [tauto|by eexists].
Qed.

Lemma year_token_digits d1 d2 :
  is_digit d1 = true -> is_digit d2 = true ->
  decimal_of_Z (2000 + 10 * digit_value d1 + digit_value d2)
  = [50; 48; d1; d2]%N.
Proof.
  intros H1 H2. apply is_digit_cases in H1, H2. simpl in H1, H2.
  repeat (destruct H1 as [<-|H1]); try done;
    repeat (destruct H2 as [<-|H2]); try done; reflexivity.
Qed.

(** X13: a year taken from a question is a year from 2000 to 2099, and
    its four digits stand in the question. *)
Theorem extracted_year_range (question : jsstring) (year : Z) :
  extractYear question = Some year ->
  (2000 <= year <= 2099)%Z /\
  exists pre post, question = pre ++ decimal_of_Z year ++ post.
Proof.
  intros H. apply extractYear_Some in H as (i & Htok & _).
  split; [by eapply year_token_range|].
  destruct Htok as (pre & d1 & d2 & post & Hq & _ & Hd1 & Hd2 & _ & _ & ->).
  exists pre, post. by rewrite year_token_digits.
Qed.

Lemma extracted_year_range_witness :
  let question := js "Revenue of Leeds in 1999 and 2021" in
  extractYear question = Some 2021%Z /\
  (2000 <= 2021 <= 2099)%Z /\
  exists pre post, question = pre ++ decimal_of_Z 2021 ++ post.
Proof.
  intros question.
  assert (H : extractYear question = Some 2021%Z) by (vm_compute; reflexivity).
  split; [exact H|].
  exact (extracted_year_range question 2021 H).
Defined.


(** ** Comma-separated values *)

Lemma plain_char_neq c :
  plain_char c = true ->
  (c =? 44)%N = false /\ (c =? 34)%N = false /\ (c =? 10)%N = false.
Proof.
  unfold plain_char. intros H.
  apply andb_true_iff in H as [H H3]. apply andb_true_iff in H as [H1 H2].
  apply negb_true_iff in H1, H2, H3. done.
Qed.

(** A cell is quoted exactly when its text has a character that is not
    plain. *)
Lemma includes_plain s :
  String_includes 44 s || String_includes 34 s || String_includes 10 s
  = negb (forallb plain_char s).
Proof.
  unfold String_includes, plain_char.
  induction s as [|c s IH]; [done|]. cbn [existsb forallb].
  rewrite negb_andb, <- IH.
  rewrite (N.eqb_sym 44 c), (N.eqb_sym 34 c), (N.eqb_sym 10 c).
  destruct (c =? 44)%N, (c =? 34)%N, (c =? 10)%N,
    (existsb (N.eqb 44) s), (existsb (N.eqb 34) s), (existsb (N.eqb 10) s);
    reflexivity.
Qed.

Lemma csv_read_plain_run s :
  forallb plain_char s = true ->
  forall rows fields current rest,
    csv_read Unquoted rows fields current (s ++ rest)
    = csv_read Unquoted rows fields (rev s ++ current) rest.
Proof.
  induction s as [|c s IH]; simpl; intros Hs rows fields current rest; [done|].
  apply andb_true_iff in Hs as [Hc Hs].
  destruct (plain_char_neq c Hc) as (-> & _ & ->).
  rewrite (IH Hs). by rewrite <- app_assoc.
Qed.

Lemma csv_read_quoted_run s :
  forall rows fields current rest,
    csv_read Quoted rows fields current (double_quotes s ++ rest)
    = csv_read Quoted rows fields (rev s ++ current) rest.
Proof.
  induction s as [|c s IH]; simpl; intros rows fields current rest; [done|].
  destruct (N.eqb_spec c 34) as [->|Hc]; simpl.
  - rewrite IH. by rewrite <- app_assoc.
  - apply N.eqb_neq in Hc. rewrite Hc, IH. by rewrite <- app_assoc.
Qed.

Lemma csv_read_after_field mode rows fields current rest :
  separator_next rest -> mode <> Quoted ->
  csv_read mode rows fields current rest
  = csv_read Unquoted rows fields current rest.
Proof.
  destruct rest as [|c rest]; simpl; [done|].
  intros [-> | ->] Hm; by destruct mode.
Qed.

Lemma writes_plain s : forallb plain_char s = true -> writes s s.
Proof.
  intros Hs rows fields rest Hrest. destruct s as [|c s].
  - by apply csv_read_after_field.
  - simpl in Hs. apply andb_true_iff in Hs as [Hc Hs].
    destruct (plain_char_neq c Hc) as (H44 & H34 & H10).
    simpl. rewrite H34, H44, H10.
    by rewrite (csv_read_plain_run s Hs).
Qed.

Lemma writes_quoted s : writes ([34%N] ++ double_quotes s ++ [34%N]) s.
Proof.
  intros rows fields rest Hrest. simpl.
  rewrite <- app_assoc, csv_read_quoted_run, app_nil_r. simpl.
  by apply csv_read_after_field.
Qed.

Lemma writes_cell value : writes (csv_cell value) (cell_text value).
Proof.
  assert (H : forall s,
    writes (if String_includes 44 s || String_includes 34 s
               || String_includes 10 s
            then [34%N] ++ double_quotes s ++ [34%N] else s) s).
  { intros s. rewrite includes_plain.
    destruct (forallb plain_char s) eqn:Hs; simpl negb; cbv iota.
    - by apply writes_plain.
    - apply writes_quoted. }
  destruct value; try apply H. all: by apply writes_plain.
Qed.

(** A line of cells, followed by the end of the text or by a line
    feed. *)
Lemma csv_read_line items :
  items <> [] ->
  Forall (fun item => writes (fst item) (snd item)) items ->
  forall rows fields,
    csv_read FieldStart rows fields []
      (Array_join (js ",") (List.map fst items))
    = rev (rev (rev (List.map snd items) ++ fields) :: rows)
    /\
    forall rest,
      csv_read FieldStart rows fields []
        (Array_join (js ",") (List.map fst items) ++ 10%N :: rest)
      = csv_read FieldStart
          (rev (rev (List.map snd items) ++ fields) :: rows) [] [] rest.
Proof.
  induction items as [|[cell text] items IH]; [done|].
  intros _ Hall rows fields. inversion Hall as [|? ? Hw Hall']; subst.
  simpl in Hw. destruct items as [|item items].
  - simpl. split.
    + rewrite <- (app_nil_r cell), (Hw rows fields []) by done.
      simpl. by rewrite rev_involutive.
    + intros rest. rewrite (Hw rows fields (10%N :: rest)) by (by right).
      simpl. by rewrite rev_involutive.
  - destruct (IH ltac:(done) Hall' rows (text :: fields)) as [IH1 IH2].
    assert (Hstep : forall rest,
      csv_read FieldStart rows fields []
        (cell ++ js "," ++ rest)
      = csv_read FieldStart rows (text :: fields) [] rest).
    { intros rest. rewrite (Hw rows fields) by (by left).
      simpl. by rewrite rev_involutive. }
    change (Array_join (js ",") (List.map fst ((cell, text) :: item :: items)))
      with (cell ++ js "," ++ Array_join (js ",") (List.map fst (item :: items))).
    change (List.map snd ((cell, text) :: item :: items))
      with (text :: List.map snd (item :: items)).
    replace (rev (text :: List.map snd (item :: items)) ++ fields)
      with (rev (List.map snd (item :: items)) ++ text :: fields)
      by (simpl; by rewrite <- !app_assoc).
    split.
    + by rewrite Hstep.
    + intros rest. rewrite <- !app_assoc, Hstep. apply IH2.
Qed.

(** Lines of cells separated by line feeds. *)
Lemma csv_read_lines lines :
  lines <> [] ->
  Forall (fun items =>
            items <> [] /\
            Forall (fun item => writes (fst item) (snd item)) items) lines ->
  forall rows,
    csv_read FieldStart rows [] []
      (Array_join [10%N]
         (List.map (fun items => Array_join (js ",") (List.map fst items))
            lines))
    = rev rows ++ List.map (List.map snd) lines.
Proof.
  induction lines as [|items lines IH]; [done|].
  intros _ Hall rows. inversion Hall as [|? ? [Hne Hw] Hall']; subst.
  destruct (csv_read_line items Hne Hw rows []) as [H1 H2].
  rewrite app_nil_r, rev_involutive in H1, H2.
  destruct lines as [|items' lines].
  - simpl. rewrite H1. done.
  - change (Array_join [10%N]
              (List.map
                 (fun items => Array_join (js ",") (List.map fst items))
                 (items :: items' :: lines)))
      with (Array_join (js ",") (List.map fst items) ++ [10%N]
            ++ Array_join [10%N]
                 (List.map
                    (fun items => Array_join (js ",") (List.map fst items))
                    (items' :: lines))).
    simpl app at 2. rewrite H2, (IH ltac:(done) Hall').
    simpl. by rewrite <- app_assoc.
Qed.

(** X14: what convertToCSV writes reads back, by the rules of RFC 4180,
    as the table it was given: the headers of the first row, then for
    each row the text of the value that row[header] reads under each
    header (the property of the row itself, else the member inherited
    from Object.prototype; the empty text for null and undefined).
    This needs at least one row and one header, and headers without
    comma, double quote and line feed: the header line is written
    without quoting. *)
Theorem convertToCSV_reads_back (data : list js_object) (first : js_object) :
  head data = Some first ->
  Object_keys first <> [] ->
  Forall (fun header => forallb plain_char header = true) (Object_keys first) ->
  read_csv (convertToCSV data) = csv_table data.
Proof.
  intros Hfirst Hne Hplain.
  destruct data as [|first' data']; [done|]. injection Hfirst as ->.
  unfold read_csv, convertToCSV, csv_table. cbv iota zeta.
  set (headers := Object_keys first) in *.
  generalize (first :: data'). intros data.
  pose (lines :=
    List.map (fun h => (h, h)) headers
    :: List.map
         (fun row =>
            List.map (fun h => (csv_cell (Object_get row h),
                                cell_text (Object_get row h))) headers)
         data).
  assert (Hcells :
    Array_join (js ",") headers
    :: List.map
         (fun row =>
            Array_join (js ",")
              (List.map (fun header => csv_cell (Object_get row header))
                 headers)) data
    = List.map (fun items => Array_join (js ",") (List.map fst items)) lines).
  { unfold lines. rewrite List.map_cons. f_equal.
    - f_equal. rewrite List.map_map. simpl. by rewrite List.map_id.
    - rewrite List.map_map. apply List.map_ext. intros row. f_equal.
      rewrite List.map_map. by apply List.map_ext. }
  assert (Htexts :
    headers
    :: List.map
         (fun row => List.map (fun header => cell_text (Object_get row header))
                       headers) data
    = List.map (List.map snd) lines).
  { unfold lines. rewrite List.map_cons. f_equal.
    - rewrite List.map_map. simpl. by rewrite List.map_id.
    - rewrite List.map_map. apply List.map_ext. intros row.
      rewrite List.map_map. by apply List.map_ext. }
  rewrite Hcells, Htexts.
  apply (csv_read_lines lines ltac:(done)).
  unfold lines. constructor.
  - split; [by destruct headers|].
    apply Forall_forall. intros item Hin.
    apply list_elem_of_In, in_map_iff in Hin as (h & <- & Hh). simpl.
    apply writes_plain. rewrite Forall_forall in Hplain.
    by apply Hplain, list_elem_of_In.
  - apply Forall_forall. intros items Hin.
    apply list_elem_of_In, in_map_iff in Hin as (row & <- & _).
    split; [by destruct headers|].
    apply Forall_forall. intros item Hin.
    apply list_elem_of_In, in_map_iff in Hin as (h & <- & _). simpl.
    apply writes_cell.
Qed.

Lemma convertToCSV_reads_back_witness :
  let first :=
    [ (js "Club", VString (js "Brighton & Hove Albion"));
      (js "Note", VString (js "said 'up', then " ++ [34%N] ++ js "down"
                          ++ [34%N; 10%N] ++ js "next line"));
      (js "Revenue", VNumber 204.5%float) ] in
  let data := [ first; [ (js "Club", VNull); (js "Revenue", VBoolean true) ] ] in
  head data = Some first /\
  Object_keys first <> [] /\
  Forall (fun header => forallb plain_char header = true) (Object_keys first)
  /\ read_csv (convertToCSV data) = csv_table data.
Proof.
  intros first data.
  assert (H1 : head data = Some first) by reflexivity.
  assert (H2 : Object_keys first <> []) by discriminate.
  assert (H3 : Forall (fun header => forallb plain_char header = true)
                 (Object_keys first))
    by (repeat constructor).
  split; [exact H1|]. split; [exact H2|]. split; [exact H3|].
  exact (convertToCSV_reads_back data first H1 H2 H3).
Defined.

(** The header line is written as it is: a header with a comma reads
    back as two. *)
Example convertToCSV_header_with_comma :
  let data := [ [ (js "Revenue, GBP", VNumber 1%float) ] ] in
  convertToCSV data = js "Revenue, GBP" ++ [10%N] ++ js "1" /\
  read_csv (convertToCSV data) = [ [js "Revenue"; js " GBP"]; [js "1"] ].
Proof. vm_compute. done. Qed.

(** A header that names a member of Object.prototype: a row without
    that property gets the text of the inherited member, not an empty
    cell. *)
Example convertToCSV_inherited_member :
  let data := [ [ (js "constructor", VString (js "x")) ]; [] ] in
  convertToCSV data
  = js "constructor" ++ [10%N] ++ js "x" ++ [10%N]
    ++ js "function Object() { [native code] }" /\
  read_csv (convertToCSV data)
  = [ [js "constructor"]; [js "x"];
      [js "function Object() { [native code] }"] ] /\
  Object_get [] (js "toString")
  = VObject (js "function toString() { [native code] }") /\
  Object_get [] (js "__proto__") = VObject (js "[object Object]") /\
  Object_get [] (js "Revenue") = VUndefined.
Proof. vm_compute. done. Qed.

Example convertToCSV_evaluated :
  convertToCSV [] = [] /\
  convertToCSV
    [ [ (js "Club", VString (js "Leeds, United")); (js "Year", VNumber 2022%float) ];
      [ (js "Club", VNull); (js "Year", VUndefined) ] ]
  = js "Club,Year" ++ [10%N; 34%N] ++ js "Leeds, United" ++ [34%N]
    ++ js ",2022" ++ [10%N] ++ js ",".
Proof. vm_compute. done. Qed.


(** ** The characters of a number's text *)

Lemma forallb_weaken {A : Type} (p q : A -> bool) l :
  (forall a, p a = true -> q a = true) ->
  forallb p l = true -> forallb q l = true.
Proof.
  intros Hpq. induction l as [|a l IH]; simpl; [done|]. intros H.
  apply andb_true_iff in H as [Ha Hl]. by rewrite (Hpq a Ha), (IH Hl).
Qed.

Lemma digits_plain ds : forallb is_digit ds = true -> forallb plain_char ds = true.
Proof.
  apply forallb_weaken. intros c Hc. apply is_digit_cases in Hc. simpl in Hc.
  repeat (destruct Hc as [<-|Hc]; [reflexivity|]). done.
Qed.

Lemma forallb_take_drop {A : Type} (p : A -> bool) n l :
  forallb p l = true ->
  forallb p (take n l) = true /\ forallb p (drop n l) = true.
Proof.
  intros H. rewrite <- (take_drop n l), forallb_app in H.
  by apply andb_true_iff in H.
Qed.

Lemma shortest_decimal_digits x ds n :
  shortest_decimal x = Some (ds, n) -> forallb is_digit ds = true.
Proof.
  unfold shortest_decimal. destruct (magnitude x) as [[num den]|]; [|done].
  destruct (shortest_from _ _ _ _ _ _) as [[c e]|]; [|done].
  destruct (strip_zeros 17 c e) as [c' e']. intros [= <- _].
  apply decimal_of_N_digit.
Qed.

(** The text of a number has no comma, no double quote and no line
    feed. *)
Lemma Number_toString_plain x : forallb plain_char (Number_toString x) = true.
Proof.
  unfold Number_toString.
  destruct (is_nan x); [done|]. destruct (is_zero x); [done|].
  destruct (is_infinity x); [by destruct (get_sign x)|].
  destruct (shortest_decimal (abs x)) as [[ds n]|] eqn:Hs; [|done].
  apply shortest_decimal_digits, digits_plain in Hs.
  rewrite forallb_app. apply andb_true_iff.
  split; [by destruct (get_sign x)|].
  destruct (_ && _)%Z.
  { rewrite forallb_app, Hs. apply digits_plain, zeros_digit. }
  destruct (_ && _)%Z.
  { destruct (forallb_take_drop plain_char (Z.to_nat n) ds Hs) as [Ht Hd].
    by rewrite !forallb_app, Ht, Hd. }
  destruct (_ && _)%Z.
  { rewrite !forallb_app, Hs, (digits_plain _ (zeros_digit _)). done. }
  assert (He : forall e,
    forallb plain_char
      ([101%N] ++ (if (e <? 0)%Z then [45%N] else [43%N])
       ++ decimal_of_N (Z.to_N (Z.abs e))) = true).
  { intros e. rewrite !forallb_app, (digits_plain _ (decimal_of_N_digit _)).
    by destruct (e <? 0)%Z. }
  destruct ds as [|d [|d' rest]].
  - apply He.
  - simpl in Hs. apply andb_true_iff in Hs as [Hd _].
    change (forallb plain_char ([d] ++ [101%N]
              ++ (if (n - 1 <? 0)%Z then [45%N] else [43%N])
              ++ decimal_of_N (Z.to_N (Z.abs (n - 1)))) = true).
    rewrite forallb_app. apply andb_true_iff. split; [|apply He].
    simpl. by rewrite Hd.
  - simpl in Hs. apply andb_true_iff in Hs as [Hd Hs].
    change (forallb plain_char ([d; 46%N] ++ (d' :: rest) ++ [101%N]
              ++ (if (n - 1 <? 0)%Z then [45%N] else [43%N])
              ++ decimal_of_N (Z.to_N (Z.abs (n - 1)))) = true).
    rewrite forallb_app. apply andb_true_iff. split; [simpl; by rewrite Hd|].
    rewrite forallb_app. apply andb_true_iff. split; [exact Hs|apply He].
Qed.

Lemma Number_toFixed_plain x digits :
  forallb plain_char (Number_toFixed x digits) = true.
Proof.
  unfold Number_toFixed.
  destruct (negb (is_finite x)); [apply Number_toString_plain|]. cbv zeta.
  destruct (1e21 <=? abs x)%float.
  { rewrite forallb_app, Number_toString_plain. by destruct (x <? 0)%float. }
  rewrite forallb_app. apply andb_true_iff.
  split; [by destruct (x <? 0)%float|].
  set (m := decimal_of_N _).
  assert (Hm : forallb plain_char m = true)
    by apply digits_plain, decimal_of_N_digit.
  destruct (digits =? 0)%nat; [done|].
  set (m' := zeros _ ++ m).
  assert (Hm' : forallb plain_char m' = true).
  { unfold m'. rewrite forallb_app, Hm.
    by rewrite (digits_plain _ (zeros_digit _)). }
  destruct (forallb_take_drop plain_char (length m' - digits) m' Hm')
    as [Ht Hd].
  by rewrite !forallb_app, Ht, Hd.
Qed.

Lemma fixed_or_NA_plain value digits :
  forallb plain_char (fixed_or_NA value digits) = true.
Proof. destruct value; [apply Number_toFixed_plain|done]. Qed.

(** A plain text is written as it is. *)
Lemma csv_cell_plain value :
  forallb plain_char (String_of value) = true ->
  value <> VNull -> value <> VUndefined ->
  csv_cell value = String_of value /\ cell_text value = String_of value.
Proof.
  intros Hp Hn Hu. unfold csv_cell, cell_text.
  rewrite includes_plain, Hp. by destruct value.
Qed.

Lemma forallb_Array_join (p : N -> bool) separator parts :
  forallb p separator = true ->
  Forall (fun part => forallb p part = true) parts ->
  forallb p (Array_join separator parts) = true.
Proof.
  intros Hsep. induction 1 as [|a parts Ha Hparts IH]; [done|].
  destruct parts as [|b parts]; [done|].
  change (Array_join separator (a :: b :: parts))
    with (a ++ separator ++ Array_join separator (b :: parts)).
  by rewrite !forallb_app, Ha, Hsep, IH.
Qed.

Lemma not_included c s :
  forallb (fun x => negb (c =? x)%N) s = true -> String_includes c s = false.
Proof.
  unfold String_includes. induction s as [|x s IH]; simpl; [done|].
  intros H. apply andb_true_iff in H as [Hx Hs].
  apply negb_true_iff in Hx. by rewrite Hx, IH.
Qed.

(** ** The table's download *)

Lemma csvRow_keys currency row :
  Object_keys (csvRow currency row) = export_headers currency.
Proof. reflexivity. Qed.

(** Reading the five properties of a row under the five headers. *)
Lemma csvRow_get currency (v1 : number) (v2 v3 v4 v5 : jsstring) :
  List.map
    (Object_get
       [ (js "Season", VNumber v1);
         (js "Revenue (" ++ getCurrencySymbol currency ++ js "M)", VString v2);
         (js "EBITDA (" ++ getCurrencySymbol currency ++ js "M)", VString v3);
         (js "YoY Change (" ++ getCurrencySymbol currency ++ js "M)",
          VString v4);
         (js "YoY %", VString v5) ])
    (export_headers currency)
  = [VNumber v1; VString v2; VString v3; VString v4; VString v5].
Proof. destruct currency; vm_compute; reflexivity. Qed.

Lemma plain_cells (v1 : number) (v2 v3 v4 v5 : jsstring) :
  forallb plain_char v2 = true -> forallb plain_char v3 = true ->
  forallb plain_char v4 = true -> forallb plain_char v5 = true ->
  List.map csv_cell [VNumber v1; VString v2; VString v3; VString v4; VString v5]
  = [Number_toString v1; v2; v3; v4; v5] /\
  List.map cell_text [VNumber v1; VString v2; VString v3; VString v4; VString v5]
  = [Number_toString v1; v2; v3; v4; v5].
Proof.
  intros H2 H3 H4 H5.
  pose proof (Number_toString_plain v1) as H1.
  cbn [List.map].
  destruct (csv_cell_plain (VNumber v1) H1) as [-> ->]; [done|done|].
  destruct (csv_cell_plain (VString v2) H2) as [-> ->]; [done|done|].
  destruct (csv_cell_plain (VString v3) H3) as [-> ->]; [done|done|].
  destruct (csv_cell_plain (VString v4) H4) as [-> ->]; [done|done|].
  destruct (csv_cell_plain (VString v5) H5) as [-> ->]; [done|done|].
  done.
Qed.

Lemma csvRow_cells currency row :
  List.map (fun header => csv_cell (Object_get (csvRow currency row) header))
    (export_headers currency) = export_line currency row /\
  List.map (fun header => cell_text (Object_get (csvRow currency row) header))
    (export_headers currency) = export_line currency row.
Proof.
  rewrite <- (List.map_map (Object_get (csvRow currency row)) csv_cell).
  rewrite <- (List.map_map (Object_get (csvRow currency row)) cell_text).
  unfold csvRow, export_line. cbv zeta. rewrite csvRow_get.
  apply plain_cells; apply fixed_or_NA_plain.
Qed.

Lemma export_headers_plain currency :
  Forall (fun header => forallb plain_char header = true)
    (export_headers currency).
Proof. destruct currency; repeat constructor. Qed.

Lemma export_line_plain currency row :
  Forall (fun cell => forallb plain_char cell = true)
    (export_line currency row).
Proof.
  unfold export_line.
  repeat constructor;
    (apply Number_toString_plain || apply fixed_or_NA_plain).
Qed.

(** The text written for the rows on display, and how it reads back. *)
Lemma csvData_written currency rows :
  rows <> [] ->
  convertToCSV (csvData currency rows)
  = Array_join [10%N]
      (List.map (Array_join (js ","))
         (export_headers currency :: List.map (export_line currency) rows))
  /\ csv_table (csvData currency rows)
     = export_headers currency :: List.map (export_line currency) rows.
Proof.
  destruct rows as [|row rows]; [done|]. intros _.
  unfold convertToCSV, csv_table, csvData.
  rewrite List.map_cons. cbv iota zeta. rewrite csvRow_keys.
  rewrite <- List.map_cons.
  generalize (row :: rows). intros data. split.
  - f_equal. rewrite (List.map_cons (Array_join (js ","))). f_equal.
    rewrite !List.map_map. apply List.map_ext. intros r.
    by destruct (csvRow_cells currency r) as [-> _].
  - f_equal. rewrite List.map_map. apply List.map_ext. intros r.
    by destruct (csvRow_cells currency r) as [_ ->].
Qed.

(** A table of plain cells, written without quoting, reads back as
    itself. *)
Lemma read_plain_table (table : list (list jsstring)) :
  table <> [] ->
  Forall (fun line =>
            line <> [] /\
            Forall (fun cell => forallb plain_char cell = true) line) table ->
  read_csv (Array_join [10%N] (List.map (Array_join (js ",")) table)) = table.
Proof.
  intros Hne Hall. unfold read_csv.
  pose (lines := List.map (List.map (fun cell : jsstring => (cell, cell))) table).
  assert (Hfst : List.map (Array_join (js ",")) table
                 = List.map (fun items => Array_join (js ",") (List.map fst items))
                     lines).
  { unfold lines. rewrite List.map_map. apply List.map_ext. intros line.
    rewrite List.map_map. simpl. by rewrite List.map_id. }
  assert (Hsnd : List.map (List.map snd) lines = table).
  { unfold lines. rewrite List.map_map. rewrite <- (List.map_id table) at 2.
    apply List.map_ext. intros line. rewrite List.map_map. simpl.
    by rewrite List.map_id. }
  rewrite Hfst, <- Hsnd at 1.
  replace (List.map (List.map snd) lines)
    with ([] ++ List.map (List.map snd) lines) at 2 by done.
  apply (csv_read_lines lines).
  - unfold lines. by destruct table.
  - unfold lines. apply Forall_forall. intros items Hin.
    apply list_elem_of_In, in_map_iff in Hin as (line & <- & Hline).
    rewrite Forall_forall in Hall.
    destruct (Hall line ltac:(by apply list_elem_of_In)) as [Hl Hcells].
    split; [by destruct line|].
    apply Forall_forall. intros item Hitem.
    apply list_elem_of_In, in_map_iff in Hitem as (cell & <- & Hcell). simpl.
    apply writes_plain. rewrite Forall_forall in Hcells.
    by apply Hcells, list_elem_of_In.
Qed.

(** X15: for the rows on display (there is at least one), the download
    holds a byte-order mark followed by the header line Season, Revenue,
    EBITDA, YoY Change, YoY % and one line per row, in the order of the
    rows; the lines are joined by line feeds and their cells by commas;
    no cell is quoted (the text has no double quote), so that the text
    reads back as the table of headers and cells. *)
Theorem exported_table (currency : CurrencyCode) (clubName : option jsstring)
    (rows : list FinancialMetric.t) :
  rows <> [] ->
  exists csv,
    blob (handleDownloadCSV currency clubName rows) = 65279%N :: csv /\
    csv = Array_join [10%N]
            (List.map (Array_join (js ","))
               (export_headers currency
                :: List.map (export_line currency) rows)) /\
    String_includes 34 csv = false /\
    read_csv csv
    = export_headers currency :: List.map (export_line currency) rows.
Proof.
  intros Hne. destruct (csvData_written currency rows Hne) as [Hcsv Htable].
  exists (convertToCSV (csvData currency rows)).
  split; [reflexivity|]. split; [exact Hcsv|]. split.
  - apply not_included. rewrite Hcsv.
    apply forallb_Array_join; [reflexivity|].
    apply Forall_forall. intros line Hin.
    apply list_elem_of_In, in_map_iff in Hin as (cells & <- & Hcells).
    apply forallb_Array_join; [reflexivity|].
    assert (Hplain : Forall (fun cell => forallb plain_char cell = true) cells).
    { destruct Hcells as [<-|Hcells]; [apply export_headers_plain|].
      apply in_map_iff in Hcells as (row & <- & _).
      apply export_line_plain. }
    eapply Forall_impl; [exact Hplain|]. cbv beta. intros cell.
    apply forallb_weaken. intros c Hc.
    destruct (plain_char_neq c Hc) as (_ & H34 & _).
    cbv beta. by rewrite N.eqb_sym, H34.
  - rewrite Hcsv. apply read_plain_table; [discriminate|].
    constructor.
    + split; [discriminate|apply export_headers_plain].
    + apply Forall_forall. intros line Hin.
      apply list_elem_of_In, in_map_iff in Hin as (row & <- & _).
      split; [discriminate|apply export_line_plain].
Qed.

Lemma exported_table_witness :
  let rows := [ metricOf 10 2021 494%float None None;
                metricOf 11 2022 583%float (Some 89%float)
                  (Some 18.016194331983804%float) ] in
  rows <> [] /\
  exists csv,
    blob (handleDownloadCSV EUR (Some (js "Leeds United")) rows)
    = 65279%N :: csv /\
    csv = Array_join [10%N]
            (List.map (Array_join (js ","))
               (export_headers EUR :: List.map (export_line EUR) rows)) /\
    String_includes 34 csv = false /\
    read_csv csv = export_headers EUR :: List.map (export_line EUR) rows.
Proof.
  intros rows.
  assert (H : rows <> []) by discriminate.
  split; [exact H|].
  exact (exported_table EUR (Some (js "Leeds United")) rows H).
Defined.

Example exported_table_evaluated :
  let rows := [ metricOf 10 2021 494%float None None;
                metricOf 11 2022 583%float (Some 89%float)
                  (Some 18.016194331983804%float) ] in
  handleDownloadCSV GBP (Some (js "Leeds   United FC")) rows
  = {| blob :=
         [65279%N] ++ js "Season,Revenue (" ++ [pound_sign] ++ js "M),EBITDA ("
         ++ [pound_sign] ++ js "M),YoY Change (" ++ [pound_sign]
         ++ js "M),YoY %" ++ [10%N]
         ++ js "2021,494.00,0.00,N/A,N/A" ++ [10%N]
         ++ js "2022,583.00,0.00,89.00,18.0";
       download_name := js "Leeds_United_FC_financials_GBP.csv" |}.
Proof. vm_compute. reflexivity. Qed.

(** ** The name of the download *)

Lemma replace_white_space_clean s :
  forall in_run,
    forallb (fun c => negb (is_white_space c)) (replace_white_space in_run s)
    = true.
Proof.
  induction s as [|c s IH]; intros in_run; simpl; [done|].
  destruct (is_white_space c) eqn:Hc.
  - destruct in_run; simpl; by rewrite ?IH.
  - simpl. by rewrite Hc, IH.
Qed.

(** X16: the name of the download has no white space, whatever the
    name of the club: every run of white space in it is replaced by one
    underscore; the name ends in _financials_, the currency code and
    .csv, and without a club name it is financials_, the currency code
    and .csv. *)
Theorem download_name_shape (currency : CurrencyCode)
    (clubName : option jsstring) (rows : list FinancialMetric.t) :
  let name := download_name (handleDownloadCSV currency clubName rows) in
  forallb (fun c => negb (is_white_space c)) name = true /\
  name = match clubName with
         | Some (c :: n) => replace_white_space false (c :: n) ++ js "_"
         | _ => []
         end ++ js "financials_" ++ CurrencyCode_text currency ++ js ".csv".
Proof.
  unfold handleDownloadCSV, downloadCSV. cbn [download_name]. split.
  - destruct clubName as [[|c n]|]; try (by destruct currency).
    rewrite forallb_app, replace_white_space_clean. by destruct currency.
  - destruct clubName as [[|c n]|]; try done.
    by rewrite <- !app_assoc.
Qed.


(** ** The order of the table *)

Lemma sort_insert_ext {A : Type} (f g : A -> A -> Z) x l :
  (forall a b, (f a b <=? 0)%Z = (g a b <=? 0)%Z) ->
  sort_insert f x l = sort_insert g x l.
Proof.
  intros Hfg. induction l as [|y l IH]; simpl; [done|].
  by rewrite Hfg, IH.
Qed.

(** The sort looks at the sign of the comparator only. *)
Lemma Array_sort_ext {A : Type} (f g : A -> A -> Z) l :
  (forall a b, (f a b <=? 0)%Z = (g a b <=? 0)%Z) ->
  Array_sort f l = Array_sort g l.
Proof.
  intros Hfg. induction l as [|x l IH]; simpl; [done|].
  by rewrite IH, (sort_insert_ext f g).
Qed.

Lemma StronglySorted_snoc {A : Type} (R : A -> A -> Prop) l a :
  StronglySorted R l -> Forall (fun x => R x a) l ->
  StronglySorted R (l ++ [a]).
Proof.
  induction 1 as [|x l Hs IH Hx]; intros Hall; simpl.
  - repeat constructor.
  - inversion Hall; subst. constructor; [by apply IH|].
    apply Forall_app. split; [done|]. by repeat constructor.
Qed.

Lemma strictly_ascending (ks : list Z) :
  Sorted Z.lt ks ->
  Sorted Z.le ks /\ NoDup (List.map Z.opp ks)
  /\ Sorted Z.le (List.map Z.opp (rev ks)).
Proof.
  intros Hs. apply Sorted_StronglySorted in Hs; [|intros ???; lia].
  induction Hs as [|k ks Hs (IH1 & IH2 & IH3) Hk]; simpl.
  { split; [constructor|]. split; constructor. }
  split; [|split].
  - constructor; [done|]. destruct ks as [|k' ks]; constructor.
    inversion Hk; subst. lia.
  - apply NoDup_cons. split; [|done].
    intros Hin. apply list_elem_of_In, in_map_iff in Hin as (x & Hx & Hin).
    rewrite Forall_forall in Hk.
    pose proof (Hk x ltac:(by apply list_elem_of_In)). lia.
  - rewrite map_app. simpl. apply StronglySorted_Sorted, StronglySorted_snoc.
    + apply Sorted_StronglySorted; [intros ???; lia|done].
    + apply Forall_forall. intros x Hin.
      apply list_elem_of_In, in_map_iff in Hin as (y & <- & Hin).
      apply in_rev in Hin. rewrite Forall_forall in Hk.
      pose proof (Hk y ltac:(by apply list_elem_of_In)). lia.
Qed.

(** X17: the table starts sorted by year, newest first.  On metrics in
    strictly ascending year order, as calculateYoY returns them for
    seasons of distinct years, the rows on display are the metrics in
    reverse; a click on the year header shows them in the order given,
    and a second click returns to the initial state. *)
Theorem table_starts_newest_first (data : list FinancialMetric.t) :
  Sorted Z.lt (List.map FinancialMetric.year data) ->
  sortedData initialSortState data = rev data /\
  sortedData (handleSort initialSortState sort_year) data = data /\
  handleSort (handleSort initialSortState sort_year) sort_year
  = initialSortState.
Proof.
  intros Hs.
  destruct (strictly_ascending _ Hs) as (Hle & Hnd & Hrev).
  split; [|split; [|reflexivity]].
  - unfold sortedData.
    rewrite (Array_sort_ext _ (by_year (fun m => - FinancialMetric.year m)%Z)).
    2: { intros a b. unfold compareRows, by_year. simpl.
         destruct (Z.leb_spec (- (FinancialMetric.year a - FinancialMetric.year b)) 0),
           (Z.leb_spec (- FinancialMetric.year a - - FinancialMetric.year b) 0);
           try done; lia. }
    symmetry. apply Array_sort_unique.
    + rewrite <- (List.map_map FinancialMetric.year Z.opp).
      by rewrite List.map_rev.
    + intros y. rewrite List.filter_rev.
      pose proof (filter_key_at_most_one
                    (fun m => (- FinancialMetric.year m)%Z) y data) as Hlen.
      rewrite <- (List.map_map FinancialMetric.year Z.opp) in Hlen.
      specialize (Hlen Hnd).
      by destruct (List.filter _ data) as [|a [|b t]]; [| |simpl in Hlen; lia].
  - unfold sortedData.
    rewrite (Array_sort_ext _ (by_year FinancialMetric.year)) by done.
    by apply Array_sort_sorted.
Qed.

Lemma table_starts_newest_first_witness :
  let data := [ metricOf 10 2021 494%float None None;
                metricOf 11 2022 583%float (Some 89%float) None;
                metricOf 12 2023 648.375%float (Some 65.375%float) None ] in
  Sorted Z.lt (List.map FinancialMetric.year data) /\
  sortedData initialSortState data = rev data /\
  sortedData (handleSort initialSortState sort_year) data = data /\
  handleSort (handleSort initialSortState sort_year) sort_year
  = initialSortState.
Proof.
  intros data.
  assert (H : Sorted Z.lt (List.map FinancialMetric.year data))
    by (repeat constructor).
  split; [exact H|].
  exact (table_starts_newest_first data H).
Defined.

(** With a repeated year the rows of that year keep the order of the
    input in both directions: the display is not the reverse. *)
Example table_repeated_year :
  let a := metricOf 1 2021 100%float None None in
  let b := metricOf 2 2021 200%float None None in
  sortedData initialSortState [a; b] = [a; b].
Proof. reflexivity. Qed.


(** ** The letter case of a question *)

Lemma canonicalize_eq_cases a b :
  canonicalize true a = canonicalize true b ->
  a = b \/ ((97 <= a <= 122)%N /\ b = (a - 32)%N)
  \/ ((97 <= b <= 122)%N /\ a = (b - 32)%N).
Proof.
  unfold canonicalize. simpl andb.
  destruct (N.leb_spec 97 a), (N.leb_spec a 122), (N.leb_spec 97 b),
    (N.leb_spec b 122); simpl; lia.
Qed.

Ltac decide_comparisons :=
  repeat match goal with
         | |- context [(?x <=? ?y)%N] => destruct (N.leb_spec x y); try lia
         | |- context [(?x =? ?y)%N] => destruct (N.eqb_spec x y); try lia
         end;
  try reflexivity.

Lemma is_word_char_case a b :
  canonicalize true a = canonicalize true b -> is_word_char a = is_word_char b.
Proof.
  intros H. apply canonicalize_eq_cases in H as [->|[[H ->]|[H ->]]]; [done| |];
    unfold is_word_char; decide_comparisons.
Qed.

Lemma is_digit_case a b :
  canonicalize true a = canonicalize true b -> is_digit a = is_digit b.
Proof.
  intros H. apply canonicalize_eq_cases in H as [->|[[H ->]|[H ->]]]; [done| |];
    unfold is_digit; decide_comparisons.
Qed.

Lemma not_apostrophe_case a b :
  canonicalize true a = canonicalize true b ->
  not_apostrophe a = not_apostrophe b.
Proof.
  intros H. apply canonicalize_eq_cases in H as [->|[[H ->]|[H ->]]]; [done| |];
    unfold not_apostrophe; decide_comparisons.
Qed.

Lemma is_white_space_case a b :
  canonicalize true a = canonicalize true b ->
  is_white_space a = is_white_space b.
Proof.
  intros H. apply canonicalize_eq_cases in H as [->|[[H ->]|[H ->]]]; [done| |];
    unfold is_white_space; decide_comparisons.
Qed.

Lemma pattern_character_case ignoreCase c a b :
  ignoreCase = true \/ is_letter c = false ->
  canonicalize true a = canonicalize true b ->
  (canonicalize ignoreCase a =? canonicalize ignoreCase c)%N
  = (canonicalize ignoreCase b =? canonicalize ignoreCase c)%N.
Proof.
  intros [->|Hc] H; [by rewrite H|].
  destruct ignoreCase; [by rewrite H|].
  unfold canonicalize. simpl andb. cbv iota. unfold is_letter in Hc.
  apply canonicalize_eq_cases in H as [->|[[H ->]|[H ->]]]; [done| |].
  - destruct (N.eqb_spec a c) as [E1|N1], (N.eqb_spec (a - 32) c) as [E2|N2];
      try done; subst c; revert Hc; decide_comparisons.
  - destruct (N.eqb_spec b c) as [E1|N1], (N.eqb_spec (b - 32) c) as [E2|N2];
      try done; subst c; revert Hc; decide_comparisons.
Qed.

Lemma digit_same_case a b :
  is_digit a = true -> canonicalize true a = canonicalize true b -> a = b.
Proof.
  intros Ha H. apply canonicalize_eq_cases in H as [->|[[H ->]|[H ->]]]; [done| |];
    revert Ha; unfold is_digit; decide_comparisons; done.
Qed.

Lemma same_up_to_case_nil t : same_up_to_case [] t -> t = [].
Proof. unfold same_up_to_case. by destruct t. Qed.

Lemma same_up_to_case_cons a s t :
  same_up_to_case (a :: s) t ->
  exists b t', t = b :: t' /\ canonicalize true a = canonicalize true b
               /\ same_up_to_case s t'.
Proof.
  unfold same_up_to_case. destruct t as [|b t']; [done|]. simpl.
  intros [= Ha Hs]. by exists b, t'.
Qed.

Lemma same_up_to_case_length s t :
  same_up_to_case s t -> length s = length t.
Proof.
  unfold same_up_to_case. intros H.
  by rewrite <- (length_map (canonicalize true) s), H, length_map.
Qed.

Lemma same_up_to_case_rev s t :
  same_up_to_case s t -> same_up_to_case (rev s) (rev t).
Proof. unfold same_up_to_case. intros H. by rewrite !List.map_rev, H. Qed.

Lemma text_between_case st1 st2 s1 s2 :
  same_up_to_case (consumed st1) (consumed st2) ->
  same_up_to_case (consumed s1) (consumed s2) ->
  same_up_to_case (text_between st1 s1) (text_between st2 s2).
Proof.
  intros Hst Hs. unfold text_between. apply same_up_to_case_rev.
  rewrite (same_up_to_case_length _ _ Hst), (same_up_to_case_length _ _ Hs).
  unfold same_up_to_case in *. by rewrite <- !firstn_map, Hs.
Qed.

Section CaseFacts.
Context (p : N -> bool).
Context (Hp : forall a b, canonicalize true a = canonicalize true b -> p a = p b).
Context (k1 k2 : mstate -> option mstate).
Context (Hk : forall s1 s2, same_state s1 s2 ->
                same_outcome same_state (k1 s1) (k2 s2)).

Lemma step_char_case st1 st2 :
  same_state st1 st2 ->
  same_outcome same_state (step_char p k1 st1) (step_char p k2 st2).
Proof.
  intros (Hc & Hr & Hg). unfold step_char.
  destruct (remaining st1) as [|a r1].
  - by rewrite (same_up_to_case_nil _ Hr).
  - apply same_up_to_case_cons in Hr as (b & r2 & -> & Hab & Hr).
    rewrite (Hp a b Hab). destruct (p b); [|done].
    apply Hk. split; [|by split].
    unfold same_up_to_case in *. simpl. by rewrite Hab, Hc.
Qed.

Lemma star_loop_case after1 :
  forall after2 before1 before2 g1 g2,
    same_up_to_case after1 after2 ->
    same_up_to_case before1 before2 ->
    same_outcome same_up_to_case g1 g2 ->
    same_outcome same_state
      (star_loop p k1 before1 after1 g1) (star_loop p k2 before2 after2 g2).
Proof.
  induction after1 as [|a r1 IH]; intros after2 before1 before2 g1 g2 Ha Hb Hg.
  - rewrite (same_up_to_case_nil _ Ha). simpl. by apply Hk.
  - pose proof Ha as Ha'.
    apply same_up_to_case_cons in Ha as (b & r2 & -> & Hab & Hr).
    simpl. rewrite (Hp a b Hab). destruct (p b); [|by apply Hk].
    assert (Hb' : same_up_to_case (a :: before1) (b :: before2)).
    { unfold same_up_to_case in *. simpl. by rewrite Hab, Hb. }
    specialize (IH r2 (a :: before1) (b :: before2) g1 g2 Hr Hb' Hg).
    destruct (star_loop p k1 (a :: before1) r1 g1),
      (star_loop p k2 (b :: before2) r2 g2); try done.
    by apply Hk.
Qed.
End CaseFacts.

(** A case-blind pattern matches two inputs that differ in letter case
    only in the same way. *)
Lemma rmatch_case ignoreCase r :
  case_blind ignoreCase r ->
  forall k1 k2 st1 st2,
    (forall s1 s2, same_state s1 s2 ->
       same_outcome same_state (k1 s1) (k2 s2)) ->
    same_state st1 st2 ->
    same_outcome same_state
      (rmatch ignoreCase r k1 st1) (rmatch ignoreCase r k2 st2).
Proof.
  induction r as [|c|p|p|r1 IH1 r2 IH2|r IH|]; simpl;
    intros Hr k1 k2 st1 st2 Hk Hst.
  - by apply Hk.
  - apply step_char_case; [|done|done].
    intros a b. by apply pattern_character_case.
  - by apply step_char_case.
  - apply step_char_case; [done| |done].
    intros s1 s2 (Hc & Hrem & Hg). by apply star_loop_case.
  - destruct Hr as [Hr1 Hr2]. apply IH1; [done| |done].
    intros s1 s2 Hs. by apply IH2.
  - apply IH; [done| |done].
    intros s1 s2 (Hc & Hrem & Hg). apply Hk.
    split; [done|]. split; [done|]. simpl.
    apply text_between_case; [apply Hst|done].
  - destruct Hst as (Hc & Hrem & Hg).
    assert (Hb : word_before st1 = word_before st2).
    { unfold word_before. destruct (consumed st1) as [|a s].
      - by rewrite (same_up_to_case_nil _ Hc).
      - apply same_up_to_case_cons in Hc as (b & t' & -> & Hab & _).
        by apply is_word_char_case. }
    assert (Ha : word_after st1 = word_after st2).
    { unfold word_after. destruct (remaining st1) as [|a s].
      - by rewrite (same_up_to_case_nil _ Hrem).
      - apply same_up_to_case_cons in Hrem as (b & t' & -> & Hab & _).
        by apply is_word_char_case. }
    rewrite Hb, Ha. destruct (xorb _ _); [|done]. by apply Hk.
Qed.

Lemma exec_from_case ignoreCase r after1 :
  case_blind ignoreCase r ->
  forall after2 before1 before2,
    same_up_to_case after1 after2 ->
    same_up_to_case before1 before2 ->
    same_outcome same_match
      (exec_from ignoreCase r before1 after1)
      (exec_from ignoreCase r before2 after2).
Proof.
  intros Hr.
  induction after1 as [|a r1 IH]; intros after2 before1 before2 Ha Hb.
  - rewrite (same_up_to_case_nil _ Ha). simpl.
    pose proof (rmatch_case ignoreCase r Hr Some Some
                  {| consumed := before1; remaining := []; group1 := None |}
                  {| consumed := before2; remaining := []; group1 := None |}
                  (fun s1 s2 H => H)) as Hm.
    specialize (Hm ltac:(by split)).
    destruct (rmatch _ _ _ _) as [s1|], (rmatch _ _ _ _) as [s2|]; try done.
    destruct Hm as (Hc & Hrem & Hg). split; [|split]; simpl.
    + by apply same_up_to_case_length.
    + by apply text_between_case.
    + done.
  - pose proof Ha as Ha'.
    apply same_up_to_case_cons in Ha as (b & r2 & -> & Hab & Hrest).
    simpl.
    pose proof (rmatch_case ignoreCase r Hr Some Some
                  {| consumed := before1; remaining := a :: r1; group1 := None |}
                  {| consumed := before2; remaining := b :: r2; group1 := None |}
                  (fun s1 s2 H => H)) as Hm.
    specialize (Hm ltac:(by split)).
    destruct (rmatch _ _ _ _) as [s1|], (rmatch _ _ _ _) as [s2|]; try done.
    + destruct Hm as (Hc & Hrem & Hg). split; [|split]; simpl.
      * by apply same_up_to_case_length.
      * by apply text_between_case.
      * done.
    + apply IH; [done|].
      unfold same_up_to_case in *. simpl. by rewrite Hab, Hb.
Qed.

Lemma trim_start_case s :
  forall t, same_up_to_case s t ->
            same_up_to_case (trim_start s) (trim_start t).
Proof.
  induction s as [|a s IH]; intros t H.
  - by rewrite (same_up_to_case_nil _ H).
  - pose proof H as H'.
    apply same_up_to_case_cons in H as (b & t' & -> & Hab & Hs).
    simpl. rewrite (is_white_space_case a b Hab).
    destruct (is_white_space b); [by apply IH|done].
Qed.

Lemma trim_case s t :
  same_up_to_case s t -> same_up_to_case (trim s) (trim t).
Proof.
  intros H. unfold trim.
  by apply same_up_to_case_rev, trim_start_case, same_up_to_case_rev,
    trim_start_case.
Qed.

Lemma literal_case_blind s : case_blind true (literal s).
Proof.
  unfold literal. induction (js s) as [|c l IH]; simpl; [done|].
  split; [by left|done].
Qed.

Lemma clubPatterns_case_blind : Forall (case_blind true) clubPatterns.
Proof.
  repeat constructor; simpl;
    try apply literal_case_blind; try exact not_apostrophe_case.
Qed.

Lemma yearPattern_case_blind : case_blind false yearPattern.
Proof.
  simpl. repeat split; try (by right); exact is_digit_case.
Qed.

Lemma extractClubName_from_case patterns q1 q2 :
  Forall (case_blind true) patterns ->
  same_up_to_case q1 q2 ->
  same_outcome same_up_to_case
    (extractClubName_from patterns q1) (extractClubName_from patterns q2).
Proof.
  intros Hall Hq. induction Hall as [|r patterns Hr _ IH]; simpl; [done|].
  pose proof (exec_from_case true r q1 Hr q2 [] [] Hq ltac:(done)) as Hm.
  fold (String_match true r q1) in Hm. fold (String_match true r q2) in Hm.
  destruct (String_match true r q1) as [m1|],
    (String_match true r q2) as [m2|]; try done.
  destruct Hm as (_ & _ & Hg).
  destruct (match_1 m1) as [[|c1 g1]|], (match_1 m2) as [[|c2 g2]|];
    try done.
  by apply trim_case.
Qed.

Lemma extractYear_case q1 q2 :
  same_up_to_case q1 q2 -> extractYear q1 = extractYear q2.
Proof.
  intros Hq. unfold extractYear.
  pose proof (exec_from_case false yearPattern q1 yearPattern_case_blind
                q2 [] [] Hq ltac:(done)) as Hm.
  fold (String_match false yearPattern q1) in Hm.
  fold (String_match false yearPattern q2) in Hm.
  destruct (String_match false yearPattern q1) as [m1|] eqn:H1,
    (String_match false yearPattern q2) as [m2|] eqn:H2; try done.
  destruct Hm as (_ & _ & Hg).
  apply exec_from_Some in H1 as (a1 & a2 & st1 & _ & Hr1 & Hm1 & _).
  apply exec_from_Some in H2 as (b1 & b2 & st2 & _ & Hr2 & Hm2 & _).
  apply year_rmatch_Some in Hr1 as (d1 & d2 & ? & _ & Hd1 & Hd2 & _ & _ & Hg1).
  apply year_rmatch_Some in Hr2 as (e1 & e2 & ? & _ & He1 & He2 & _ & _ & Hg2).
  rewrite Hm1, Hg1, Hm2, Hg2 in *. simpl in Hg.
  injection Hg as H3 H4.
  by rewrite (digit_same_case d1 e1 Hd1 H3), (digit_same_case d2 e2 Hd2 H4).
Qed.

(** X18: the letter case of a question does not matter.  Two questions
    that differ in letter case only give the same year and club names
    that differ in letter case only; and with a club lookup that ignores
    letter case, as the query does, they get the same response, except
    that the message for a club that is not found repeats the name as
    it was typed. *)
Theorem question_letter_case (store : Store) (q1 q2 : jsstring)
    (currency : CurrencyCode) :
  same_up_to_case q1 q2 ->
  extractYear q1 = extractYear q2 /\
  same_outcome same_up_to_case (extractClubName q1) (extractClubName q2) /\
  ((forall n1 n2, same_up_to_case n1 n2 ->
                  getClubByName store n1 = getClubByName store n2) ->
   POST store (JString q1) currency = POST store (JString q2) currency
   \/ exists n1 n2,
        same_up_to_case n1 n2 /\
        POST store (JString q1) currency = ClubNotFound n1 /\
        POST store (JString q2) currency = ClubNotFound n2).
Proof.
  intros Hq.
  pose proof (extractYear_case q1 q2 Hq) as Hy.
  pose proof (extractClubName_from_case clubPatterns q1 q2
                clubPatterns_case_blind Hq) as Hn.
  fold (extractClubName q1) in Hn. fold (extractClubName q2) in Hn.
  split; [done|]. split; [done|]. intros Hstore.
  unfold POST. destruct q1 as [|c1 q1].
  { rewrite (same_up_to_case_nil _ Hq). by left. }
  pose proof Hq as Hq'.
  apply same_up_to_case_cons in Hq' as (c2 & q2' & -> & _ & _).
  rewrite Hy. destruct (extractYear (c2 :: q2')) as [[|y|y]|]; try (by left).
  all: destruct (extractClubName (c1 :: q1)) as [[|a1 n1]|],
         (extractClubName (c2 :: q2')) as [[|a2 n2]|]; try done;
         try (by left).
  all: unfold resolve; rewrite (Hstore _ _ Hn).
  all: destruct (getClubByName store (a2 :: n2)); [by left|right].
  all: by exists (a1 :: n1), (a2 :: n2).
Qed.

Lemma question_letter_case_witness :
  let q1 := js "what was manchester united's revenue in 2022?" in
  let q2 := js "What was MANCHESTER United's Revenue in 2022?" in
  same_up_to_case q1 q2 /\
  extractYear q1 = extractYear q2 /\
  same_outcome same_up_to_case (extractClubName q1) (extractClubName q2) /\
  ((forall n1 n2, same_up_to_case n1 n2 ->
                  getClubByName sample_store n1 = getClubByName sample_store n2) ->
   POST sample_store (JString q1) GBP = POST sample_store (JString q2) GBP
   \/ exists n1 n2,
        same_up_to_case n1 n2 /\
        POST sample_store (JString q1) GBP = ClubNotFound n1 /\
        POST sample_store (JString q2) GBP = ClubNotFound n2).
Proof.
  intros q1 q2.
  assert (H : same_up_to_case q1 q2) by (vm_compute; reflexivity).
  split; [exact H|].
  exact (question_letter_case sample_store q1 q2 GBP H).
Defined.

Example question_letter_case_evaluated :
  extractClubName (js "what was manchester united's revenue in 2022?")
  = Some (js "manchester united") /\
  extractClubName (js "What was MANCHESTER United's Revenue in 2022?")
  = Some (js "MANCHESTER United") /\
  POST sample_store (JString (js "WHAT WAS leeds's REVENUE in 2022?")) GBP
  = ClubNotFound (js "leeds").
Proof. vm_compute. done. Qed.


(** ** The clubId of the financials route *)

Example StringToNumber_evaluated :
  StringToNumber (js "42") = 42%float /\
  StringToNumber (js "  7 ") = 7%float /\
  StringToNumber (js "-1.5e2") = (-150)%float /\
  StringToNumber (js "0x1F") = 31%float /\
  StringToNumber (js "0b101") = 5%float /\
  StringToNumber (js ".5") = 0.5%float /\
  StringToNumber (js "5.") = 5%float /\
  StringToNumber (js "Infinity") = infinity /\
  StringToNumber [] = 0%float /\
  is_nan (StringToNumber (js "12abc")) = true /\
  is_nan (StringToNumber (js "1e")) = true /\
  is_nan (StringToNumber (js "-0x10")) = true /\
  is_nan (StringToNumber (js "1,000")) = true /\
  is_nan (StringToNumber (js ".")) = true.
Proof. repeat apply conj; vm_compute; reflexivity. Qed.

Lemma trim_start_white_space s :
  forallb is_white_space s = true -> trim_start s = [].
Proof.
  induction s as [|c s IH]; simpl; [done|]. intros H.
  apply andb_true_iff in H as [-> Hs]. by apply IH.
Qed.

Lemma trim_digits ds : forallb is_digit ds = true -> trim ds = ds.
Proof.
  assert (H : forall l, forallb is_digit l = true -> trim_start l = l).
  { intros [|c l]; simpl; [done|]. intros Hl.
    apply andb_true_iff in Hl as [Hc _].
    by rewrite (is_digit_not_white_space c Hc). }
  intros Hd. unfold trim. rewrite (H ds Hd), H, ?rev_involutive; [done|].
  by rewrite forallb_rev.
Qed.

Lemma digits_not_Infinity d ds :
  is_digit d = true -> String_eqb (d :: ds) (js "Infinity") = false.
Proof.
  intros Hd. unfold String_eqb. apply andb_false_iff. right.
  apply is_digit_cases in Hd. simpl in Hd.
  repeat (destruct Hd as [<-|Hd]; [reflexivity|]). done.
Qed.

Lemma StrDecimalLiteral_digits ds :
  ds <> [] -> forallb is_digit ds = true ->
  StrDecimalLiteral ds = decimal_to_number false (digits_value ds) 0.
Proof.
  destruct ds as [|d ds]; [done|]. intros _ Hd.
  pose proof (span_all _ _ Hd) as Hspan.
  simpl in Hd. apply andb_true_iff in Hd as [Hd Hds].
  pose proof (digits_not_Infinity d ds Hd) as Hinf.
  unfold StrDecimalLiteral.
  apply is_digit_cases in Hd. simpl in Hd.
  repeat (destruct Hd as [<-|Hd];
          [cbv iota beta; rewrite Hinf, Hspan;
           cbn [app length Z.of_nat Z.opp]; by rewrite app_nil_r|]).
  done.
Qed.

Lemma StringToNumber_digits ds :
  ds <> [] -> forallb is_digit ds = true ->
  StringToNumber ds = decimal_to_number false (digits_value ds) 0.
Proof.
  intros Hne Hd. unfold StringToNumber. rewrite (trim_digits ds Hd).
  rewrite <- (StrDecimalLiteral_digits ds Hne Hd).
  destruct ds as [|zero [|x r]]; [done|by repeat case_match|].
  assert (Hx : is_digit x = true).
  { simpl in Hd. apply andb_true_iff in Hd as [_ Hd].
    by apply andb_true_iff in Hd as [Hd _]. }
  assert (Hpre : ((x =? 120) || (x =? 88))%N = false
                 /\ ((x =? 111) || (x =? 79))%N = false
                 /\ ((x =? 98) || (x =? 66))%N = false).
  { apply is_digit_cases in Hx. simpl in Hx.
    repeat (destruct Hx as [<-|Hx]; [done|]). done. }
  destruct Hpre as (H1 & H2 & H3).
  destruct (N.eq_dec zero 48%N) as [->|Hz].
  - cbv iota beta. by rewrite H1, H2, H3.
  - destruct zero as [|p]; [done|].
    repeat (destruct p as [p|p|]; try done).
Qed.

(** *** The Number of an integer is not NaN *)

Lemma shr_1_nonneg mrs : (0 <= shr_m mrs)%Z -> (0 <= shr_m (shr_1 mrs))%Z.
Proof.
  destruct mrs as [m r s]. destruct m as [|[p|p|]|p]; simpl; lia.
Qed.

Lemma iter_shr_1_nonneg n :
  forall mrs, (0 <= shr_m mrs)%Z -> (0 <= shr_m (SpecFloat.iter_pos shr_1 n mrs))%Z.
Proof.
  induction n as [n IH|n IH|]; simpl; intros mrs H.
  - by apply IH, IH, shr_1_nonneg.
  - by apply IH, IH.
  - by apply shr_1_nonneg.
Qed.

Lemma shr_fexp_nonneg m e l :
  (0 <= m)%Z -> (0 <= shr_m (fst (shr_fexp prec emax m e l)))%Z.
Proof.
  intros Hm. unfold shr_fexp, shr.
  assert (H0 : (0 <= shr_m (shr_record_of_loc m l))%Z)
    by (by destruct l as [|[]]).
  destruct (_ - e)%Z; simpl; try done. by apply iter_shr_1_nonneg.
Qed.

Lemma binary_round_aux_not_nan sx mx ex lx :
  (0 <= mx)%Z -> binary_round_aux prec emax sx mx ex lx <> S754_nan.
Proof.
  intros Hm. unfold binary_round_aux.
  pose proof (shr_fexp_nonneg mx ex lx Hm) as H1.
  destruct (shr_fexp prec emax mx ex lx) as [mrs' e']. simpl in H1.
  set (m1 := round_nearest_even (shr_m mrs') (loc_of_shr_record mrs')).
  assert (Hm1 : (0 <= m1)%Z).
  { unfold m1, round_nearest_even.
    destruct (loc_of_shr_record mrs') as [|[]]; try destruct (Z.even _); lia. }
  pose proof (shr_fexp_nonneg m1 e' loc_Exact Hm1) as H2.
  destruct (shr_fexp prec emax m1 e' loc_Exact) as [mrs'' e'']. simpl in H2.
  destruct (shr_m mrs'') as [|m|m]; [done| |lia].
  by destruct (e'' <=? emax - prec)%Z.
Qed.

Lemma binary_round_not_nan sx mx ex :
  binary_round prec emax sx mx ex <> S754_nan.
Proof.
  unfold binary_round. destruct (shl_align _ _ _) as [mz ez].
  by apply binary_round_aux_not_nan.
Qed.

Lemma binary_normalize_not_nan m e szero :
  binary_normalize prec emax m e szero <> S754_nan.
Proof.
  destruct m; simpl; [done|apply binary_round_not_nan..].
Qed.

Lemma is_nan_Prim2SF x : Prim2SF x <> S754_nan -> is_nan x = false.
Proof.
  intros H. unfold is_nan. rewrite FloatAxioms.eqb_spec.
  destruct (Prim2SF x) as [s|s| |s m e]; try done.
  - by destruct s.
  - unfold SFeqb, SFcompare. rewrite Z.compare_refl.
    by destruct s; rewrite Pos.compare_cont_refl.
Qed.

Lemma SF2Prim_not_nan s : s <> S754_nan -> is_nan (SF2Prim s) = false.
Proof.
  intros Hs. destruct s as [[]|[]| |sx m e]; try done.
  apply is_nan_Prim2SF. unfold SF2Prim.
  set (pm := of_uint63 (Uint63.of_Z (Z.pos m))).
  assert (Hl : Prim2SF (Z.ldexp pm e) <> S754_nan).
  { rewrite FloatLemmas.Z_ldexp_spec. unfold pm. rewrite FloatAxioms.of_uint63_spec.
    pose proof (binary_normalize_not_nan
                  (Uint63.to_Z (Uint63.of_Z (Z.pos m))) 0 false) as Hn.
    destruct (binary_normalize _ _ _ _ _) as [| | |s' m' e']; try done.
    simpl. apply binary_round_not_nan. }
  destruct sx; [|done]. rewrite FloatAxioms.opp_spec.
  by destruct (Prim2SF (Z.ldexp pm e)).
Qed.

Lemma number_of_Z_not_nan z : is_nan (number_of_Z z) = false.
Proof. apply SF2Prim_not_nan, binary_normalize_not_nan. Qed.

(** X19: the financials route reads its clubId with Number(): the
    decimal text of a natural number is accepted and the seasons are
    read for that number; a missing or empty clubId is refused with
    status 400; a clubId of white space only is accepted and read as
    club 0. *)
Theorem clubId_validation {A : Type} (getClubFinancials : number -> result A) :
  let respond (r : result A) :=
    match r with
    | Ok financials => Json financials
    | Throw => ApiError 500 (js "Failed to fetch financials")
    end in
  (forall n : N,
     FinancialsRoute.GET getClubFinancials (Some (decimal_of_N n))
     = respond (getClubFinancials (number_of_Z (Z.of_N n)))) /\
  (forall s,
     s <> [] -> forallb is_white_space s = true ->
     FinancialsRoute.GET getClubFinancials (Some s)
     = respond (getClubFinancials 0%float)) /\
  FinancialsRoute.GET getClubFinancials None
  = ApiError 400 (js "clubId is required and must be a number") /\
  FinancialsRoute.GET getClubFinancials (Some [])
  = ApiError 400 (js "clubId is required and must be a number").
Proof.
  intros respond. split; [|split; [|by split]].
  - intros n.
    assert (H : StringToNumber (decimal_of_N n) = number_of_Z (Z.of_N n)).
    { rewrite StringToNumber_digits;
        [|apply decimal_of_N_nonempty|apply decimal_of_N_digit].
      by rewrite digits_value_decimal_of_N, decimal_to_number_integer. }
    unfold FinancialsRoute.GET.
    pose proof (decimal_of_N_nonempty n) as Hne.
    destruct (decimal_of_N n) as [|c s]; [done|].
    by rewrite H, number_of_Z_not_nan.
  - intros s Hne Hs. unfold FinancialsRoute.GET.
    destruct s as [|c s]; [done|].
    assert (H : StringToNumber (c :: s) = 0%float).
    { unfold StringToNumber, trim.
      by rewrite (trim_start_white_space _ Hs). }
    by rewrite H.
Qed.

Example clubId_validation_evaluated :
  let getClubFinancials (clubId : number) := Ok clubId in
  FinancialsRoute.GET getClubFinancials (Some (js "12")) = Json 12%float /\
  FinancialsRoute.GET getClubFinancials (Some (js "12abc"))
  = ApiError 400 (js "clubId is required and must be a number") /\
  FinancialsRoute.GET getClubFinancials (Some (js " ")) = Json 0%float /\
  FinancialsRoute.GET getClubFinancials (Some (js "1e3")) = Json 1000%float /\
  FinancialsRoute.GET getClubFinancials (Some (js "-Infinity"))
  = Json neg_infinity.
Proof. repeat apply conj; vm_compute; reflexivity. Qed.


(** ** The rows of the comparison chart *)

Lemma Set_from_spec l :
  forall elements,
    NoDup elements ->
    let set :=
      fold_left
        (fun elements y =>
           if existsb (Z.eqb y) elements then elements else elements ++ [y])
        l elements in
    NoDup set /\ forall y, y ∈ set <-> y ∈ elements \/ y ∈ l.
Proof.
  induction l as [|x l IH]; intros elements Hnd; simpl.
  - split; [done|]. intros y. rewrite elem_of_nil. tauto.
  - destruct (existsb (Z.eqb x) elements) eqn:Hx.
    + destruct (IH elements Hnd) as [H1 H2]. split; [done|].
      intros y. rewrite H2, elem_of_cons.
      apply existsb_exists in Hx as (x' & Hin & Heq).
      apply Z.eqb_eq in Heq. subst x'. apply list_elem_of_In in Hin.
      split; [tauto|]. intros [?|[->|?]]; tauto.
    + assert (Hnot : x ∉ elements).
      { intros Hin. apply list_elem_of_In in Hin.
        assert (existsb (Z.eqb x) elements = true); [|congruence].
        apply existsb_exists. exists x. by rewrite Z.eqb_refl. }
      destruct (IH (elements ++ [x])) as [H1 H2].
      { apply NoDup_app. split; [done|]. split; [|apply NoDup_singleton].
        intros y Hy Hy'. apply list_elem_of_singleton in Hy'. by subst. }
      split; [done|]. intros y.
      rewrite H2, elem_of_app, list_elem_of_singleton, elem_of_cons. tauto.
Qed.

Lemma String_compare_refl a : String_compare a a = 0%Z.
Proof. induction a as [|x a IH]; simpl; [done|]. by rewrite N.ltb_irrefl. Qed.

Lemma String_compare_antisym a :
  forall b, String_compare b a = (- String_compare a b)%Z.
Proof.
  induction a as [|x a IH]; intros [|y b]; simpl; try done.
  destruct (N.ltb_spec x y), (N.ltb_spec y x); try done; try lia;
    try apply IH.
Qed.

Lemma String_compare_below a :
  forall b c,
    String_compare a b = (-1)%Z -> String_compare b c = (-1)%Z ->
    String_compare a c = (-1)%Z.
Proof.
  induction a as [|x a IH]; intros [|y b] [|z c]; simpl; try done.
  destruct (N.ltb_spec x y), (N.ltb_spec y x), (N.ltb_spec y z),
    (N.ltb_spec z y), (N.ltb_spec x z), (N.ltb_spec z x);
    try done; try lia; try apply IH.
Qed.

(** Among the years of four digits the order of the texts is the order
    of the numbers. *)
Lemma four_digit_successor a :
  (1000 <= a < 9999)%Z ->
  String_compare (decimal_of_Z a) (decimal_of_Z (a + 1)) = (-1)%Z.
Proof.
  intros Ha.
  assert (H : forallb
                (fun k =>
                   (String_compare (decimal_of_Z (1000 + Z.of_nat k))
                      (decimal_of_Z (1000 + Z.of_nat k + 1)) =? -1)%Z)
                (seq 0 (Z.to_nat 8999)) = true) by (vm_compute; reflexivity).
  rewrite forallb_forall in H.
  specialize (H (Z.to_nat (a - 1000))).
  replace (1000 + Z.of_nat (Z.to_nat (a - 1000)))%Z with a in H by lia.
  apply Z.eqb_eq, H, in_seq. lia.
Qed.

Lemma four_digit_below n :
  forall a,
    (1000 <= a)%Z -> (a + Z.of_nat (S n) <= 9999)%Z ->
    String_compare (decimal_of_Z a) (decimal_of_Z (a + Z.of_nat (S n)))
    = (-1)%Z.
Proof.
  induction n as [|n IH]; intros a Ha Hb.
  - apply four_digit_successor. lia.
  - apply (String_compare_below _ (decimal_of_Z (a + Z.of_nat (S n)))).
    + apply IH; lia.
    + replace (a + Z.of_nat (S (S n)))%Z with (a + Z.of_nat (S n) + 1)%Z
        by lia.
      apply four_digit_successor. lia.
Qed.

Lemma four_digit_order a b :
  (1000 <= a <= 9999)%Z -> (1000 <= b <= 9999)%Z ->
  (String_compare (decimal_of_Z a) (decimal_of_Z b) <=? 0)%Z
  = (a - b <=? 0)%Z.
Proof.
  intros Ha Hb. destruct (Z.lt_trichotomy a b) as [Hlt|[->|Hgt]].
  - replace b with (a + Z.of_nat (S (Z.to_nat (b - a - 1))))%Z by lia.
    rewrite four_digit_below by lia.
    by destruct (Z.leb_spec (a - (a + Z.of_nat (S (Z.to_nat (b - a - 1))))) 0);
      [|lia].
  - rewrite String_compare_refl, Z.sub_diag. done.
  - rewrite String_compare_antisym.
    replace a with (b + Z.of_nat (S (Z.to_nat (a - b - 1))))%Z at 1 by lia.
    rewrite four_digit_below by lia.
    by destruct (Z.leb_spec (a - b) 0); [lia|].
Qed.

Lemma sort_insert_elem_of {A : Type} (f : A -> A -> Z) x l y :
  y ∈ sort_insert f x l -> y = x \/ y ∈ l.
Proof.
  induction l as [|z l IH]; simpl.
  - rewrite list_elem_of_singleton. tauto.
  - destruct (f x z <=? 0)%Z.
    + rewrite elem_of_cons. tauto.
    + rewrite !elem_of_cons. intros [->|H]; [tauto|].
      destruct (IH H); tauto.
Qed.

Lemma Array_sort_elem_of {A : Type} (f : A -> A -> Z) l y :
  y ∈ Array_sort f l -> y ∈ l.
Proof.
  induction l as [|x l IH]; simpl; [done|]. intros H.
  apply sort_insert_elem_of in H as [->|H]; [by left|right; by apply IH].
Qed.

(** The sort looks at the comparator on the elements of the array
    only. *)
Lemma Array_sort_ext_in {A : Type} (f g : A -> A -> Z) l :
  (forall a b, a ∈ l -> b ∈ l -> (f a b <=? 0)%Z = (g a b <=? 0)%Z) ->
  Array_sort f l = Array_sort g l.
Proof.
  induction l as [|x l IH]; simpl; intros Hfg; [done|].
  rewrite IH by (intros a b Ha Hb; apply Hfg; by right). clear IH.
  assert (Hin : forall y, y ∈ Array_sort g l -> y ∈ l)
    by (intros y; apply Array_sort_elem_of).
  induction (Array_sort g l) as [|z s IHs]; simpl; [done|].
  rewrite Hfg; [|by left|right; apply Hin; by left].
  rewrite IHs; [done|]. intros y Hy. apply Hin. by right.
Qed.

Lemma Sorted_le_NoDup (ks : list Z) :
  Sorted Z.le ks -> NoDup ks -> Sorted Z.lt ks.
Proof.
  intros Hs. induction Hs as [|k ks Hs IH Hhd]; intros Hnd.
  { constructor. }
  apply NoDup_cons in Hnd as [Hk Hnd]. constructor; [by apply IH|].
  destruct Hhd as [|k' ks' Hle]; constructor.
  assert (k <> k') by (intros ->; apply Hk; by left). lia.
Qed.

(** Reading the three properties of a row of the chart. *)
Lemma Object_literal_three (k0 k1 k2 : jsstring) (v0 v1 v2 : field_value) :
  k1 <> k0 -> k2 <> k0 ->
  let row := Object_literal [(k0, v0); (k1, v1); (k2, v2)] in
  Object_get row k0 = v0 /\ Object_get row k2 = v2
  /\ (k1 <> k2 -> Object_get row k1 = v1).
Proof.
  intros H1 H2. unfold Object_literal, Object_get, own_property.
  cbn [fold_left Object_define fst snd].
  repeat (case_bool_decide; cbn [Object_define List.find fst snd fmap option_fmap option_map]);
    try done; try congruence.
  all: split; [done|]; split; [done|]; intros; congruence.
Qed.

(** X20: in comparison mode the chart has one row for each year
    that occurs in the two series, whose year property is the text of
    the year, whose property under the second club's name is the
    converted revenue of the first entry of that year in the second
    series, or null, and likewise under the first club's name for the
    first series when the two names differ.  When all the years have
    four digits the rows are in ascending year order.  (No club is
    named year.) *)
Theorem comparison_chart_rows (data : list FinancialMetric.t)
    (clubName : jsstring) (currency : CurrencyCode)
    (c : FinancialMetric.t) (cs : list FinancialMetric.t)
    (comparisonClubName : jsstring) :
  let comparisonData := c :: cs in
  let all := List.map FinancialMetric.year data
             ++ List.map FinancialMetric.year comparisonData in
  clubName <> js "year" -> comparisonClubName <> js "year" ->
  exists years,
    NoDup years /\
    (forall y, y ∈ years <-> y ∈ all) /\
    ((forall y, y ∈ all -> (1000 <= y <= 9999)%Z) -> Sorted Z.lt years) /\
    Forall2
      (fun year row =>
         Object_get row (js "year") = VString (decimal_of_Z year) /\
         Object_get row comparisonClubName
         = chart_value currency
             (Array_find (fun d => (FinancialMetric.year d =? year)%Z)
                comparisonData) /\
         (clubName <> comparisonClubName ->
          Object_get row clubName
          = chart_value currency
              (Array_find (fun d => (FinancialMetric.year d =? year)%Z)
                 data)))
      years
      (chartData data clubName currency (Some comparisonData)
         (Some comparisonClubName)).
Proof.
  intros comparisonData all Hn1 Hn2.
  destruct (Set_from_spec all [] (NoDup_nil_2)) as [Hnd Hin].
  fold (Set_from all) in Hnd, Hin.
  exists (Array_sort_default (Set_from all)).
  assert (Hperm : Permutation (Array_sort_default (Set_from all)) (Set_from all)).
  { unfold Array_sort_default.
    generalize (Set_from all). intros l. clear.
    induction l as [|x l IH]; simpl; [done|].
    assert (Hins : forall s, Permutation
              (sort_insert
                 (fun a b => String_compare (decimal_of_Z a) (decimal_of_Z b))
                 x s) (x :: s)).
    { induction s as [|z s IHs]; simpl; [done|].
      destruct (_ <=? 0)%Z; [done|]. rewrite IHs. apply perm_swap. }
    by rewrite Hins, IH. }
  split; [by rewrite Hperm|]. split.
  { intros y. rewrite Hperm, Hin, elem_of_nil. tauto. }
  split.
  - intros Hrange. unfold Array_sort_default.
    rewrite (Array_sort_ext_in _ (by_year (fun y : Z => y))).
    + apply Sorted_le_NoDup.
      * rewrite <- (List.map_id (Array_sort _ _)). apply Array_sort_Sorted.
      * by rewrite (Array_sort_Permutation (fun y : Z => y)).
    + intros a b Ha Hb. apply four_digit_order; apply Hrange.
      * apply Hin in Ha. rewrite elem_of_nil in Ha. tauto.
      * apply Hin in Hb. rewrite elem_of_nil in Hb. tauto.
  - unfold chartData. cbv zeta. fold comparisonData. fold all.
    apply Forall2_fmap_r, Forall_Forall2_diag, Forall_forall.
    intros year _. cbv beta.
    by apply Object_literal_three.
Qed.

Lemma comparison_chart_rows_witness :
  let data := [ metricOf 10 2021 494%float None None;
                metricOf 11 2022 583%float None None ] in
  let c := metricOf 20 2020 300%float None None in
  let cs := [ metricOf 21 2022 350%float None None ] in
  let comparisonData := c :: cs in
  let all := List.map FinancialMetric.year data
             ++ List.map FinancialMetric.year comparisonData in
  js "Leeds" <> js "year" /\ js "Hull" <> js "year" /\
  exists years,
    NoDup years /\
    (forall y, y ∈ years <-> y ∈ all) /\
    ((forall y, y ∈ all -> (1000 <= y <= 9999)%Z) -> Sorted Z.lt years) /\
    Forall2
      (fun year row =>
         Object_get row (js "year") = VString (decimal_of_Z year) /\
         Object_get row (js "Hull")
         = chart_value GBP
             (Array_find (fun d => (FinancialMetric.year d =? year)%Z)
                comparisonData) /\
         (js "Leeds" <> js "Hull" ->
          Object_get row (js "Leeds")
          = chart_value GBP
              (Array_find (fun d => (FinancialMetric.year d =? year)%Z)
                 data)))
      years
      (chartData data (js "Leeds") GBP (Some comparisonData)
         (Some (js "Hull"))).
Proof.
  intros data c cs comparisonData all.
  assert (H1 : js "Leeds" <> js "year") by discriminate.
  assert (H2 : js "Hull" <> js "year") by discriminate.
  split; [exact H1|]. split; [exact H2|].
  exact (comparison_chart_rows data (js "Leeds") GBP c cs (js "Hull") H1 H2).
Defined.

(** The sort compares texts: a year of three digits comes after a year
    of four. *)
Example comparison_chart_evaluated :
  Array_sort_default [2022; 2020; 2021]%Z = [2020; 2021; 2022]%Z /\
  Array_sort_default [999; 1000; 2021]%Z = [1000; 2021; 999]%Z /\
  Set_from [2021; 2022; 2020; 2022]%Z = [2021; 2022; 2020]%Z /\
  chartData [ metricOf 10 2021 494%float None None ] (js "Leeds") GBP
    (Some [ metricOf 20 2020 300%float None None ]) (Some (js "Hull"))
  = [ [ (js "year", VString (js "2020")); (js "Leeds", VNull);
        (js "Hull", VNumber 300%float) ];
      [ (js "year", VString (js "2021")); (js "Leeds", VNumber 494%float);
        (js "Hull", VNull) ] ].
Proof. repeat apply conj; vm_compute; reflexivity. Qed.


(** ** Conversions between currencies *)

Lemma is_nan_spec x :
  is_nan x = match Prim2SF x with S754_nan => true | _ => false end.
Proof.
  destruct (Prim2SF x) as [s|s| |s m e] eqn:Hx;
    try (apply is_nan_Prim2SF; by rewrite Hx).
  unfold is_nan. by rewrite FloatAxioms.eqb_spec, Hx.
Qed.

Lemma SFdiv_finite_not_nan x sy my ey :
  x <> S754_nan -> SFdiv prec emax x (S754_finite sy my ey) <> S754_nan.
Proof.
  intros Hx. destruct x as [sx|sx| |sx mx ex]; try done.
  unfold SFdiv, SFdiv_core_binary.
  set (m' := match (ex - ey - _)%Z with
             | Z0 => Z.pos mx
             | Z.pos _ => Z.shiftl (Z.pos mx) _
             | Z.neg _ => 0%Z
             end).
  assert (Hm : (0 <= m')%Z).
  { unfold m'. destruct (ex - ey - _)%Z; try lia.
    by apply Z.shiftl_nonneg. }
  destruct (Z.div_eucl m' (Z.pos my)) as [q r] eqn:Hq.
  apply binary_round_aux_not_nan.
  assert (q = (m' / Z.pos my)%Z) as -> by (unfold Z.div; by rewrite Hq).
  apply Z.div_pos; lia.
Qed.

Lemma SFmul_finite_not_nan x sy my ey :
  x <> S754_nan -> SFmul prec emax x (S754_finite sy my ey) <> S754_nan.
Proof.
  intros Hx. destruct x as [sx|sx| |sx mx ex]; try done.
  unfold SFmul. by apply binary_round_aux_not_nan.
Qed.

(** Dividing by a finite rate other than zero and multiplying by one
    gives NaN for NaN only. *)
Lemma rate_conversion_nan (a fromRate toRate : number) :
  (exists s m e, Prim2SF fromRate = S754_finite s m e) ->
  (exists s m e, Prim2SF toRate = S754_finite s m e) ->
  is_nan ((a / fromRate) * toRate)%float = is_nan a.
Proof.
  intros (s1 & m1 & e1 & H1) (s2 & m2 & e2 & H2).
  rewrite !is_nan_spec, FloatAxioms.mul_spec, FloatAxioms.div_spec, H1, H2.
  unfold FloatAxioms.SF64mul, FloatAxioms.SF64div.
  destruct (Prim2SF a) as [s|s| |s m e] eqn:Ha; try done.
  pose proof (SFdiv_finite_not_nan (S754_finite s m e) s1 m1 e1 ltac:(done))
    as Hd.
  pose proof (SFmul_finite_not_nan _ s2 m2 e2 Hd) as Hm.
  by destruct (SFmul _ _ _ _).
Qed.

(** X21: convertCurrency returns null for null only, returns the
    amount itself between a currency and itself, and never turns a
    number into NaN: the result is NaN exactly when the amount is. *)
Theorem convertCurrency_keeps_numbers (fromCurrency toCurrency : CurrencyCode) :
  convertCurrency None fromCurrency toCurrency = None /\
  forall amount,
    exists v,
      convertCurrency (Some amount) fromCurrency toCurrency = Some v /\
      is_nan v = is_nan amount /\
      (fromCurrency = toCurrency -> v = amount).
Proof.
  split; [done|]. intros amount. unfold convertCurrency.
  assert (Hrate : forall c,
    exists s m e, Prim2SF (rateFromGBP (CURRENCIES c)) = S754_finite s m e).
  { intros []; vm_compute; by eexists _, _, _. }
  destruct fromCurrency, toCurrency; simpl CurrencyCode_eqb; cbv iota.
  - by exists amount.
  - eexists. split; [reflexivity|]. split; [|done].
    apply rate_conversion_nan; apply Hrate.
  - eexists. split; [reflexivity|]. split; [|done].
    apply rate_conversion_nan; apply Hrate.
  - by exists amount.
Qed.

Example convertCurrency_evaluated :
  convertCurrency (Some 100%float) GBP EUR = Some 117%float /\
  convertCurrency (Some 117%float) EUR GBP = Some 100%float /\
  convertCurrency (Some 583%float) GBP EUR = Some 682.11%float /\
  convertCurrency (Some 0.1%float) GBP EUR = Some 0.11699999999999999%float.
Proof. repeat apply conj; vm_compute; reflexivity. Qed.


(** ** When the CAGR is a finite Number

    [calculateCAGR] guards the sign of the revenues and nothing else.
    The rest of this part shows that its result is finite when the
    quotient of the two revenues is between 2^-128 and 2^128, by
    bounding every operation of the computation. *)

(** *** Rounding to binary64, on integers

    [binary_round_aux] rounds [mx * 2^ex] to the nearest binary64 value.
    The lemmas of this part bound its result by a value [C * 2^j] that is
    itself representable ([0 < C < 2^53], [emin <= j]): rounding does
    not cross such a value, in either direction. *)

Section IntegerRounding.
Local Open Scope Z_scope.











(** **** Shifting to the right *)












(** **** The result is a valid binary64 value *)




End IntegerRounding.

(** *** Rounding to binary64, on real values *)

Section RealRounding.
Import Reals Lra.
Local Open Scope R_scope.

Lemma bpow_pos e : 0 < bpow e.
Proof. apply powerRZ_lt. lra. Qed.











End RealRounding.

(** *** The operations on binary64 values *)

Section Alignment.
Local Open Scope Z_scope.





End Alignment.

Section Operations.
Import Reals Lra.
Local Open Scope R_scope.















End Operations.

(** *** Bounds on the results of Number arithmetic *)

Section NumberBounds.
Import Reals Lra.
Local Open Scope R_scope.


Lemma dyadic_pos C j : (0 < C)%Z -> 0 < dyadic C j.
Proof.
  intros HC. unfold dyadic. pose proof (IZR_lt 0 C HC). pose proof (bpow_pos j).
  nra.
Qed.










(** **** NaN, the infinities and zero *)


Lemma is_zero_value x : finite x -> is_zero x = false -> value x <> 0.
Proof.
  unfold finite, value, is_zero. rewrite FloatAxioms.eqb_spec.
  destruct (Prim2SF x) as [s|s| |s m e]; try done.
  intros _ _. pose proof (bpow_pos e).
  pose proof (IZR_lt 0 (Z.pos m) ltac:(lia)). simpl. destruct s; nra.
Qed.


(** **** Comparisons *)






(** **** frexp and the integer part *)


(** **** The Number value of an integer *)



End NumberBounds.

(** *** Math.pow on the arguments of the CAGR

    The base is the quotient of two revenues, taken between 2^-128 and
    2^128, and the exponent is one over a number of years.  Each step of
    [pow_approx] is bounded in turn; the bounds are far from tight, and
    only have to keep the result below the infinities. *)


Section PowBounds.
Import Reals Lra.
Local Open Scope R_scope.

















End PowBounds.

(** *** The CAGR is finite when the growth is in range *)


Section FiniteGrowth.
Import Reals Lra.
Local Open Scope R_scope.



End FiniteGrowth.



(** On the sample seasons the growth is in range and the CAGR is a
    finite Number; a bound on the quotient is needed, as finite
    revenues with a finite quotient can give Infinity. *)
Example cagr_in_range_evaluated :
  let first := createFinancial 10 1 2021 "494.0" "0" "0" None in
  let last_ := createFinancial 12 1 2023 "648.375" "0" "0" None in
  Array_sort (by_year Financial.year) sample_financials !! 0%nat = Some first /\
  last (Array_sort (by_year Financial.year) sample_financials) = Some last_ /\
  growth_in_range (toNumber (Financial.revenue first))
    (toNumber (Financial.revenue last_)) = true /\
  (exists v, calculateCAGR sample_financials = Ok (Some v)
             /\ is_finite v = true) /\
  let one := revenueOnly 1 2020 (js "1") in
  let large := revenueOnly 2 2021 (49%N :: zeros 307) in
  is_finite (toNumber (Financial.revenue large)
             / toNumber (Financial.revenue one)) = true /\
  growth_in_range (toNumber (Financial.revenue one))
    (toNumber (Financial.revenue large)) = false /\
  calculateCAGR [one; large] = Ok (Some infinity).
Proof.
  cbn zeta. split; [reflexivity|]. split; [reflexivity|].
  split; [by vm_compute|]. split.
  - eexists. split; [vm_compute; reflexivity|]. by vm_compute.
  - repeat apply conj; vm_compute; reflexivity.
Qed.
